(** * Mockup-Portal-GEOCUBA: the request pipeline and the connection tracker

    A shallow embedding of [server.js] and [middleware.js]: the Express
    middleware chain, the route handlers that talk to the PostgreSQL pool,
    and the per-IP connection tracker attached to the [net.Server].

    JavaScript strings are sequences of UTF-16 code units ([jsstring]);
    JavaScript [Map]s are finite maps ([gmap]); mutable state is threaded
    explicitly. *)

From Stdlib Require Import ZArith NArith Lia List Ascii String Bool Sorted
  DecimalString.
From stdpp Require Import base option list gmap strings fin_maps.

Open Scope Z_scope.
Set Warnings "-register-all".

(* ===================================================================== *)
(** ** Part I. Definitions                                               *)
(* ===================================================================== *)

(** *** JavaScript values *)

Module Js.

(** A JavaScript string, as its UTF-16 code units. *)
Definition jsstring := list N.

(** A source literal (the sources only use ASCII in the literals modelled). *)
Definition js (s : string) : jsstring :=
  List.map N_of_ascii (list_ascii_of_string s).

(** A JavaScript number as the tracker uses it: an integer, or [NaN]
    (which is what [undefined - 1] evaluates to). *)
Inductive num := Num (z : Z) | NaN.

(** [x || 0] for [x] the result of [Map.prototype.get]: [undefined], [0] and
    [NaN] are falsy. *)
Definition or_zero (x : option num) : Z :=
  match x with
  | Some (Num z) => z
  | Some NaN | None => 0
  end.

(** [ToNumber(x)] for the result of [Map.prototype.get]. *)
Definition to_number (x : option num) : num :=
  match x with
  | Some n => n
  | None => NaN
  end.

(** [x > k], [x <= k], [x - k], [x === k] on numbers; every comparison with
    [NaN] is false. *)
Definition num_gt (x : num) (k : Z) : bool :=
  match x with Num z => k <? z | NaN => false end.
Definition num_le (x : num) (k : Z) : bool :=
  match x with Num z => z <=? k | NaN => false end.
Definition num_sub (x : num) (k : Z) : num :=
  match x with Num z => Num (z - k) | NaN => NaN end.
Definition num_eq (x : num) (k : Z) : bool :=
  match x with Num z => z =? k | NaN => false end.

End Js.
Export Js.

(** *** The connection tracker of [server.js] (lines 386-426) *)

Module Tracker.

Definition MAX_CONNECTIONS_PER_IP : Z := 50.
Definition MAX_QUEUE_SIZE : Z := 400.

(** The two module-level [Map]s, and the sockets whose ['close'] listener is
    registered (each listener is a closure over the [ip] of its connection). *)
Record State := {
  activeConnections : gmap string num;
  requestQueue : gmap string (list Z);
  listeners : list (nat * string);
  next_socket : nat
}.

Definition init : State :=
  {| activeConnections := ∅; requestQueue := ∅; listeners := []; next_socket := 0 |}.

(** [socket.remoteAddress || '0.0.0.0'] ([undefined] and the empty string are
    falsy). *)
Definition ip_of (remoteAddress : option string) : string :=
  match remoteAddress with
  | Some EmptyString | None => "0.0.0.0"%string
  | Some a => a
  end.

(** [while (queue.length > 0 && queue[0] < now - 60000) queue.shift();] *)
Fixpoint prune (now : Z) (queue : list Z) : list Z :=
  match queue with
  | [] => []
  | t :: rest => if t <? now - 60000 then prune now rest else queue
  end.

(** The queue of [ip] once [requestQueue.has(ip)] is ensured and
    [Date.now()] pushed. *)
Definition pushed (ip : string) (t : Z) (rq : gmap string (list Z)) : list Z :=
  default [] (rq !! ip) ++ [t].

(** The count stored by
    [activeConnections.set(ip, (activeConnections.get(ip) || 0) + 1)]. *)
Definition bumped (ip : string) (ac : gmap string num) : num :=
  Num (or_zero (ac !! ip) + 1).

(** The test guarding [socket.destroy()]: it reads the queue right after the
    push, before the clean-up loop. *)
Definition destroys (ip : string) (t_push : Z) (st : State) : bool :=
  num_gt (bumped ip (activeConnections st)) MAX_CONNECTIONS_PER_IP
  || (MAX_QUEUE_SIZE <? Z.of_nat (length (pushed ip t_push (requestQueue st)))).

(** The ['connection'] listener. [t_push] and [now] are the two readings of
    [Date.now()]. Returns the new state and whether the socket was destroyed. *)
Definition on_connection (remoteAddress : option string) (t_push now : Z)
    (st : State) : State * bool :=
  let ip := ip_of remoteAddress in
  let ac := <[ip := bumped ip (activeConnections st)]> (activeConnections st) in
  let queue := pushed ip t_push (requestQueue st) in
  let destroyed := destroys ip t_push st in
  ({| activeConnections := ac;
      requestQueue := <[ip := prune now queue]> (requestQueue st);
      listeners := (next_socket st, ip) :: listeners st;
      next_socket := S (next_socket st) |}, destroyed).

(** The body of the ['close'] listener of a socket whose connection came
    from [ip]. *)
Definition close_handler (ip : string) (ac : gmap string num) : gmap string num :=
  let count := ac !! ip in
  if num_le (to_number count) 1 then delete ip ac
  else <[ip := num_sub (to_number count) 1]> ac.

(** Node emits ['close'] once per socket: the listener is found, run and
    dropped. *)
Fixpoint take_listener (sock : nat) (ls : list (nat * string))
    : option (string * list (nat * string)) :=
  match ls with
  | [] => None
  | (s, ip) :: rest =>
      if Nat.eqb s sock then Some (ip, rest)
      else match take_listener sock rest with
           | Some (ip', rest') => Some (ip', (s, ip) :: rest')
           | None => None
           end
  end.

Definition on_close (sock : nat) (st : State) : State :=
  match take_listener sock (listeners st) with
  | None => st
  | Some (ip, rest) =>
      {| activeConnections := close_handler ip (activeConnections st);
         requestQueue := requestQueue st;
         listeners := rest;
         next_socket := next_socket st |}
  end.

(** Socket life-cycle events, as the event loop delivers them. *)
Inductive Event :=
| Connection (remoteAddress : option string) (t_push now : Z)
| Close (sock : nat).

Definition step (st : State) (e : Event) : State :=
  match e with
  | Connection ra t1 t2 => fst (on_connection ra t1 t2 st)
  | Close s => on_close s st
  end.

Definition run (es : list Event) (st : State) : State := fold_left step es st.

(** Number of sockets of [ip] that are currently open. *)
Definition live (ip : string) (st : State) : nat :=
  length (List.filter (fun l => String.eqb (snd l) ip) (listeners st)).

(** The invariant of the tracker: the stored count of every address is the
    number of its open sockets, and the address has an entry only while
    that number is positive. *)
Definition counts_open (st : State) : Prop :=
  forall ip, activeConnections st !! ip
             = if decide (live ip st = 0%nat) then None
               else Some (Num (Z.of_nat (live ip st))).

End Tracker.

(** *** The connection tracker of [middleware.js] (lines 270-289) *)

Module TrackerMw.

(** [remoteAddress] is used as the key as it is, [undefined] included. *)
Record State := {
  activeConnections : gmap (option string) num;
  listeners : list (nat * option string);
  next_socket : nat
}.

Definition init : State :=
  {| activeConnections := ∅; listeners := []; next_socket := 0 |}.

Definition bumped (ip : option string) (ac : gmap (option string) num) : num :=
  Num (or_zero (ac !! ip) + 1).

Definition on_connection (ip : option string) (st : State) : State * bool :=
  let ac := <[ip := bumped ip (activeConnections st)]> (activeConnections st) in
  ({| activeConnections := ac;
      listeners := (next_socket st, ip) :: listeners st;
      next_socket := S (next_socket st) |},
   num_gt (to_number (ac !! ip)) 10).

(** [activeConnections.set(ip, activeConnections.get(ip) - 1);
     if (activeConnections.get(ip) === 0) activeConnections.delete(ip);] *)
Definition close_handler (ip : option string) (ac : gmap (option string) num)
    : gmap (option string) num :=
  let ac1 := <[ip := num_sub (to_number (ac !! ip)) 1]> ac in
  if num_eq (to_number (ac1 !! ip)) 0 then delete ip ac1 else ac1.

Fixpoint take_listener (sock : nat) (ls : list (nat * option string))
    : option (option string * list (nat * option string)) :=
  match ls with
  | [] => None
  | (s, ip) :: rest =>
      if Nat.eqb s sock then Some (ip, rest)
      else match take_listener sock rest with
           | Some (ip', rest') => Some (ip', (s, ip) :: rest')
           | None => None
           end
  end.

Definition on_close (sock : nat) (st : State) : State :=
  match take_listener sock (listeners st) with
  | None => st
  | Some (ip, rest) =>
      {| activeConnections := close_handler ip (activeConnections st);
         listeners := rest;
         next_socket := next_socket st |}
  end.

Inductive Event :=
| Connection (remoteAddress : option string)
| Close (sock : nat).

Definition step (st : State) (e : Event) : State :=
  match e with
  | Connection ra => fst (on_connection ra st)
  | Close s => on_close s st
  end.

Definition run (es : list Event) (st : State) : State := fold_left step es st.

Definition live (ip : option string) (st : State) : nat :=
  length (List.filter (fun l => bool_decide (snd l = ip)) (listeners st)).

Definition counts_open_mw (st : State) : Prop :=
  forall ip, activeConnections st !! ip
             = if decide (live ip st = 0%nat) then None
               else Some (Num (Z.of_nat (live ip st))).

End TrackerMw.

(** *** JSON values, strings and regular expressions *)

Module Json.

(** Values that travel through the handlers: JSON values, and [Buffer]s for
    binary columns. Numbers are the integers (the handlers only test them
    for truthiness). *)
Inductive json :=
| JNull
| JBool (b : bool)
| JNum (z : Z)
| JStr (s : jsstring)
| JBuf (bytes : list N)
| JArr (items : list json)
| JObj (fields : list (jsstring * json)).

(** A value that may be [undefined]. *)
Definition jsval := option json.

Fixpoint lookup_field (k : jsstring) (fs : list (jsstring * json)) : jsval :=
  match fs with
  | [] => None
  | (k', v) :: rest => if bool_decide (k' = k) then Some v else lookup_field k rest
  end.

(** Property access [v.k] on a value that is not [null]. *)
Definition field (k : jsstring) (v : json) : jsval :=
  match v with
  | JObj fs => lookup_field k fs
  | _ => None
  end.

(** [ToBoolean]. *)
Definition truthy (v : jsval) : bool :=
  match v with
  | None | Some JNull => false
  | Some (JBool b) => b
  | Some (JNum z) => negb (z =? 0)
  | Some (JStr s) => negb (bool_decide (s = []))
  | Some (JBuf _) | Some (JArr _) | Some (JObj _) => true
  end.

(** An object literal whose values may be [undefined]: [JSON.stringify]
    leaves those properties out. *)
Definition obj (fs : list (jsstring * jsval)) : json :=
  JObj (omap (fun kv => match snd kv with
                        | Some v => Some (fst kv, v)
                        | None => None
                        end) fs).

(** ECMAScript [WhiteSpace] and [LineTerminator] code units, which
    [String.prototype.trim] strips. *)
Definition is_space (c : N) : bool :=
  ((9 <=? c) && (c <=? 13) || (c =? 32) || (c =? 160) || (c =? 5760)
   || (8192 <=? c) && (c <=? 8202) || (c =? 8232) || (c =? 8233)
   || (c =? 8239) || (c =? 8287) || (c =? 12288) || (c =? 65279))%N.

Fixpoint trim_start (s : jsstring) : jsstring :=
  match s with
  | [] => []
  | c :: rest => if is_space c then trim_start rest else s
  end.

Definition trim (s : jsstring) : jsstring :=
  rev (trim_start (rev (trim_start s))).

(** ASCII case folding, which is all the [i] flag does against a pattern
    made of ASCII literals. *)
Definition lower (s : jsstring) : jsstring :=
  List.map (fun c => if (65 <=? c) && (c <=? 90) then c + 32 else c)%N s.

Fixpoint starts_with (p s : jsstring) : option jsstring :=
  match p, s with
  | [], _ => Some s
  | c :: p', d :: s' => if (c =? d)%N then starts_with p' s' else None
  | _ :: _, [] => None
  end.

End Json.
Export Json.

(** *** [JSON.stringify], which [res.json] applies to its argument *)

Module JsonText.

Definition hex (n : N) : N := (if n <? 10 then 48 + n else 87 + n)%N.

(** [\uXXXX], in lower case. *)
Definition unicode_escape (c : N) : jsstring :=
  [92; 117; hex (c / 4096); hex ((c / 256) mod 16); hex ((c / 16) mod 16);
   hex (c mod 16)]%N.

Definition is_high (c : N) : bool := ((55296 <=? c) && (c <=? 56319))%N.
Definition is_low (c : N) : bool := ((56320 <=? c) && (c <=? 57343))%N.

(** QuoteJSONString, between the quotes: the quote, the backslash and the
    control characters are escaped, and so is a surrogate without its
    pair. *)
Fixpoint escape (s : jsstring) : jsstring :=
  match s with
  | [] => []
  | c :: rest =>
      if (c =? 34)%N then 92 :: 34 :: escape rest
      else if (c =? 92)%N then 92 :: 92 :: escape rest
      else if (c =? 8)%N then 92 :: 98 :: escape rest
      else if (c =? 12)%N then 92 :: 102 :: escape rest
      else if (c =? 10)%N then 92 :: 110 :: escape rest
      else if (c =? 13)%N then 92 :: 114 :: escape rest
      else if (c =? 9)%N then 92 :: 116 :: escape rest
      else if (c <? 32)%N then unicode_escape c ++ escape rest
      else if is_high c then
        match rest with
        | d :: rest' =>
            if is_low d then c :: d :: escape rest'
            else unicode_escape c ++ escape rest
        | [] => unicode_escape c
        end
      else if is_low c then unicode_escape c ++ escape rest
      else c :: escape rest
  end%N.

Definition quote (s : jsstring) : jsstring := 34%N :: escape s ++ [34%N].

(** An integer, in decimal. *)
Definition number (z : Z) : jsstring := js (NilZero.string_of_int (Z.to_int z)).

Fixpoint commas (parts : list jsstring) : jsstring :=
  match parts with
  | [] => []
  | [p] => p
  | p :: rest => p ++ 44%N :: commas rest
  end.

(** The fields of an object are written in the order of the list, which
    stands for the order in which the object enumerates its keys. A
    [Buffer] is written through its [toJSON]. *)
Fixpoint stringify (v : json) : jsstring :=
  match v with
  | JNull => js "null"
  | JBool b => if b then js "true" else js "false"
  | JNum z => number z
  | JStr s => quote s
  | JBuf bytes =>
      js "{" ++ quote (js "type") ++ js ":" ++ quote (js "Buffer") ++ js ","
      ++ quote (js "data") ++ js ":["
      ++ commas (List.map (fun b => number (Z.of_N b)) bytes) ++ js "]}"
  | JArr items => js "[" ++ commas (List.map stringify items) ++ js "]"
  | JObj fields =>
      js "{"
      ++ commas (List.map (fun kv => let (k, x) := kv : jsstring * json in
                                     quote k ++ js ":" ++ stringify x) fields)
      ++ js "}"
  end.

End JsonText.

Module Regex.

(** The fragment of regular expressions the whitelist uses. Every pattern of
    the source is anchored at both ends, so [test] is a whole-string match. *)
Inductive re :=
| Void
| Eps
| Chr (c : N)
| Dot
| Seq (a b : re)
| Alt (a b : re)
| Star (a : re).

Definition Plus (a : re) : re := Seq a (Star a).

(** [.] matches any code unit but a line terminator. *)
Definition is_line_terminator (c : N) : bool :=
  ((c =? 10) || (c =? 13) || (c =? 8232) || (c =? 8233))%N.

Fixpoint nullable (r : re) : bool :=
  match r with
  | Void | Chr _ | Dot => false
  | Eps | Star _ => true
  | Seq a b => nullable a && nullable b
  | Alt a b => nullable a || nullable b
  end.

Fixpoint deriv (c : N) (r : re) : re :=
  match r with
  | Void | Eps => Void
  | Chr d => if (c =? d)%N then Eps else Void
  | Dot => if is_line_terminator c then Void else Eps
  | Seq a b =>
      if nullable a then Alt (Seq (deriv c a) b) (deriv c b)
      else Seq (deriv c a) b
  | Alt a b => Alt (deriv c a) (deriv c b)
  | Star a => Seq (deriv c a) (Star a)
  end.

(** [/^r$/.test(s)] *)
Definition test (r : re) (s : jsstring) : bool :=
  nullable (fold_left (fun r c => deriv c r) s r).

Definition lit (s : string) : re :=
  fold_right (fun c r => Seq (Chr c) r) Eps (js s).

Definition alts (rs : list re) : re := fold_right Alt Void rs.

End Regex.

(** *** The Express request pipeline *)

Module Express.

Inductive Method := GET | HEAD | POST | OPTIONS | OTHER.

Inductive ContentType := CtJson | CtUrlencoded | CtOther.

(** What a request, and the process at the time it arrives, provide. *)
Record Request := {
  method : Method;
  path : jsstring;            (* req.path *)
  ip : string;                (* req.ip, the key of the rate limiter *)
  host : option jsstring;     (* req.headers.host *)
  hostname : jsval;           (* req.hostname *)
  content_type : ContentType;
  body_length : Z;            (* size of the request body, in bytes *)
  payload : option json;      (* what the body parses to, when well-formed *)
  busy : bool;                (* toobusy() *)
  arrival : Z;                (* Date.now() *)
  env_PORT : option jsstring; (* process.env.PORT *)
  env_SERVER : option jsstring (* process.env.SERVER *)
}.

Inductive Body := Text (s : jsstring) | Json (v : json).

(** A call of [res.send] or [res.json] on an open response: the status in
    force and the argument of the call. [patched] tells that the call went
    to the [res.send] installed by the templating middleware of [server.js]
    (lines 107-127), which rewrites the text before it hands it to the
    [send] of Express; [Templating.forwarded] is what it hands on. *)
Record Sent := { code : Z; body : Body; patched : bool }.

Definition Query : Type := jsstring * list jsval.

Inductive Exn :=
| DbError               (* pool.query rejected *)
| HeadersSent           (* ERR_HTTP_HEADERS_SENT *)
| TypeError
| HttpError (status : Z).  (* raised by a library middleware *)

(** The response under construction, the request fields that middleware
    mutate, and the process state the handlers reach. [answer] is the
    database: the result of the latest query given all queries issued so
    far ([None]: the query fails). *)
Record World := {
  statusCode : Z;
  headers : list (jsstring * jsstring);
  written : list Sent;
  send_patched : bool;
  timedout : bool;                       (* req.timedout *)
  req_body : jsval;                      (* req.body *)
  queries : list Query;
  answer : list Query -> option (list json);
  hits : gmap string (Z * Z)             (* rate limiter: count, window start *)
}.

Definition set_statusCode (c : Z) (w : World) : World :=
  {| statusCode := c; headers := headers w; written := written w;
     send_patched := send_patched w; timedout := timedout w;
     req_body := req_body w; queries := queries w; answer := answer w;
     hits := hits w |}.
Definition set_headers (h : list (jsstring * jsstring)) (w : World) : World :=
  {| statusCode := statusCode w; headers := h; written := written w;
     send_patched := send_patched w; timedout := timedout w;
     req_body := req_body w; queries := queries w; answer := answer w;
     hits := hits w |}.
Definition set_written (s : list Sent) (w : World) : World :=
  {| statusCode := statusCode w; headers := headers w; written := s;
     send_patched := send_patched w; timedout := timedout w;
     req_body := req_body w; queries := queries w; answer := answer w;
     hits := hits w |}.
Definition set_send_patched (b : bool) (w : World) : World :=
  {| statusCode := statusCode w; headers := headers w; written := written w;
     send_patched := b; timedout := timedout w;
     req_body := req_body w; queries := queries w; answer := answer w;
     hits := hits w |}.
Definition set_timedout (b : bool) (w : World) : World :=
  {| statusCode := statusCode w; headers := headers w; written := written w;
     send_patched := send_patched w; timedout := b;
     req_body := req_body w; queries := queries w; answer := answer w;
     hits := hits w |}.
Definition set_req_body (v : jsval) (w : World) : World :=
  {| statusCode := statusCode w; headers := headers w; written := written w;
     send_patched := send_patched w; timedout := timedout w;
     req_body := v; queries := queries w; answer := answer w;
     hits := hits w |}.
Definition set_queries (q : list Query) (w : World) : World :=
  {| statusCode := statusCode w; headers := headers w; written := written w;
     send_patched := send_patched w; timedout := timedout w;
     req_body := req_body w; queries := q; answer := answer w;
     hits := hits w |}.
Definition set_hits (h : gmap string (Z * Z)) (w : World) : World :=
  {| statusCode := statusCode w; headers := headers w; written := written w;
     send_patched := send_patched w; timedout := timedout w;
     req_body := req_body w; queries := queries w; answer := answer w;
     hits := h |}.

(** The world a request starts in: a fresh response over the process state. *)
Definition fresh (db : list Query -> option (list json)) (qs : list Query)
    (store : gmap string (Z * Z)) : World :=
  {| statusCode := 200; headers := []; written := []; send_patched := false;
     timedout := false; req_body := None; queries := qs; answer := db;
     hits := store |}.

(** **** Synchronous code: state and exceptions *)

Inductive Result (A : Type) := Ok (a : A) | Throw (e : Exn).
Arguments Ok {A} a.
Arguments Throw {A} e.

Definition M (A : Type) : Type := World -> Result A * World.

Definition ret {A} (a : A) : M A := fun w => (Ok a, w).
Definition throw {A} (e : Exn) : M A := fun w => (Throw e, w).
Definition bind {A B} (m : M A) (f : A -> M B) : M B :=
  fun w => match m w with
           | (Ok a, w') => f a w'
           | (Throw e, w') => (Throw e, w')
           end.
Definition try_catch {A} (m : M A) (handler : Exn -> M A) : M A :=
  fun w => match m w with
           | (Ok a, w') => (Ok a, w')
           | (Throw e, w') => handler e w'
           end.

Notation "x <- m ;; k" := (bind m (fun x => k))
  (at level 100, m at next level, right associativity).
Notation "m ;; k" := (bind m (fun _ => k))
  (at level 100, right associativity).

(** [res.status(c)] *)
Definition res_status (c : Z) : M unit := fun w => (Ok tt, set_statusCode c w).

(** [res.setHeader(k, v)]: header names are case-insensitive and a second
    value replaces the first; Node refuses once the head has been written. *)
Fixpoint put_header (k v : jsstring) (hs : list (jsstring * jsstring))
    : list (jsstring * jsstring) :=
  match hs with
  | [] => [(k, v)]
  | (k', v') :: rest =>
      if bool_decide (lower k' = lower k) then (k, v) :: rest
      else (k', v') :: put_header k v rest
  end.

Definition res_setHeader (k v : jsstring) : M unit :=
  fun w => match written w with
           | [] => (Ok tt, set_headers (put_header k v (headers w)) w)
           | _ :: _ => (Throw HeadersSent, w)
           end.

(** [res.send(b)] and [res.json(v)]: both set headers before writing, so
    both throw on a response that was already sent. *)
Definition res_write (b : Body) : M unit :=
  fun w => match written w with
           | [] => (Ok tt, set_written
                             [{| code := statusCode w; body := b;
                                 patched := send_patched w |}] w)
           | _ :: _ => (Throw HeadersSent, w)
           end.
Definition res_send (s : jsstring) : M unit := res_write (Text s).
Definition res_json (v : json) : M unit := res_write (Json v).

(** The one response [res.status(c)] and a write leave on the wire. *)
Definition reply (c : Z) (b : Body) (w : World) : list Sent :=
  [ {| code := c; body := b; patched := send_patched w |} ].

(** [{ error: msg }] *)
Definition error_body (msg : string) : json := JObj [(js "error", JStr (js msg))].

(** **** Asynchronous handlers

    An [async] handler runs until it awaits [pool.query]; it is resumed with
    the rows, or with [None] when the query is rejected. *)
Inductive Step :=
| Finished (r : Result unit) (w : World)
| Awaiting (q : Query) (w : World) (k : option (list json) -> World -> Step).

Definition Task : Type := World -> Step.

Definition sync (m : M unit) : Task :=
  fun w => let (r, w') := m w in Finished r w'.

(** [await pool.query(sql, params)]: the call is issued, then the handler
    is suspended. *)
Definition pool_query (sql : jsstring) (params : list jsval)
    (k : option (list json) -> Task) : Task :=
  fun w => Awaiting (sql, params) (set_queries (queries w ++ [(sql, params)]) w) k.

(** Running a handler to its end against the database. *)
Fixpoint complete (s : Step) : Result unit * World :=
  match s with
  | Finished r w => (r, w)
  | Awaiting _ w k => complete (k (answer w (queries w)) w)
  end.

(** Running a handler while the timer of connect-timeout is armed.
    [fires = Some n] says that the timer goes off while the handler awaits
    its query number [n] (counting from 0), before that query settles, or
    after the handler has finished when it awaits fewer queries; [fire] is
    what the timer does then. [None]: the timer does not go off. *)
Fixpoint complete_timed (fire : World -> World) (fires : option nat) (s : Step)
    : Result unit * World :=
  match s with
  | Finished r w => (r, match fires with Some _ => fire w | None => w end)
  | Awaiting _ w k =>
      match fires with
      | Some O => complete (k (answer w (queries w)) (fire w))
      | Some (S n) => complete_timed fire (Some n) (k (answer w (queries w)) w)
      | None => complete (k (answer w (queries w)) w)
      end
  end.

(** The number of queries a handler awaits on its way to the end. *)
Fixpoint awaits (s : Step) : nat :=
  match s with
  | Finished _ _ => 0
  | Awaiting _ w k => S (awaits (k (answer w (queries w)) w))
  end.

(** **** Layers and dispatch *)

Inductive Flow := CallNext | Stop.

Inductive Stage :=
| Cors | Helmet | SecurityHeaders | Whitelist | TooBusy
| JsonParser | UrlencodedParser | Limiter | TimeoutStart | TimedoutGuard
| SendPatch | StaticAssets | StaticJs | StaticCss | StaticRoot
| ApiConfig | GetPresentacion | GetNoticiasDestacadas | GetServices
| GetPreguntasFrecuentes | GetEmpresas | GetEmpresasDetails | GetService
| GetEventos | GetNoticias | GetNoticia | PostQuery
| ErrorHandler.

Inductive Pattern :=
| Exact (p : string)          (* '/api/get-noticias' *)
| WithParam (prefix : string). (* '/api/get-noticia/:id' *)

Inductive Layer :=
| Use (id : Stage) (mount : option string) (h : Request -> M Flow)
| Route (id : Stage) (m : Method) (pat : Pattern) (is_async : bool)
        (h : Request -> jsval -> Task)
| UseError (id : Stage) (h : Exn -> Request -> M Flow).

(** [app.use(mount, ...)]: the path begins with the mount point (its
    trailing slash dropped), case-insensitively, up to a segment boundary. *)
Definition strip_slash (s : jsstring) : jsstring :=
  match rev s with
  | 47%N :: r => rev r
  | _ => s
  end.

Definition mount_matches (mount : string) (p : jsstring) : bool :=
  match starts_with (strip_slash (js mount)) (lower p) with
  | Some [] => true
  | Some (c :: _) => (c =? 47)%N
  | None => false
  end.

Definition mounted (mount : option string) (p : jsstring) : bool :=
  match mount with
  | None => true
  | Some m => mount_matches m p
  end.

(** [app.get] also serves [HEAD]. *)
Definition method_matches (m : Method) (r : Method) : bool :=
  match m, r with
  | GET, GET | GET, HEAD | POST, POST | HEAD, HEAD | OPTIONS, OPTIONS => true
  | _, _ => false
  end.

Inductive RouteMatch := NoMatch | Matched (raw_param : option jsstring).

(** Route paths match case-insensitively and allow one trailing slash; a
    parameter is one non-empty segment. *)
Definition route_match (pat : Pattern) (p : jsstring) : RouteMatch :=
  match pat with
  | Exact lit =>
      match starts_with (js lit) (lower p) with
      | Some [] | Some [47%N] => Matched None
      | _ => NoMatch
      end
  | WithParam prefix =>
      match starts_with (js prefix) (lower p) with
      | Some _ =>
          let seg := strip_slash (List.skipn (length (js prefix)) p) in
          if bool_decide (seg = []) || existsb (N.eqb 47) seg then NoMatch
          else Matched (Some seg)
      | None => NoMatch
      end
  end.

Inductive Dispatch :=
| Ended (trace : list Stage) (w : World)
| Routed (trace : list Stage) (s : Step) (rest : list Layer)
| Unrouted (trace : list Stage) (err : option Exn) (w : World).

(** The router's [next()] loop. [decode] is [decodeURIComponent], applied to
    route parameters. A layer that throws, or calls [next(err)], sends the
    request to the error-handling layers that follow. *)
Fixpoint dispatch (decode : jsstring -> option jsstring) (ls : list Layer)
    (err : option Exn) (req : Request) (tr : list Stage) (w : World) : Dispatch :=
  match ls with
  | [] => Unrouted tr err w
  | Use id mount h :: rest =>
      match err with
      | Some _ => dispatch decode rest err req tr w
      | None =>
          if mounted mount (path req) then
            match h req w with
            | (Ok CallNext, w') => dispatch decode rest None req (tr ++ [id]) w'
            | (Ok Stop, w') => Ended (tr ++ [id]) w'
            | (Throw e, w') => dispatch decode rest (Some e) req (tr ++ [id]) w'
            end
          else dispatch decode rest None req tr w
      end
  | Route id m pat is_async h :: rest =>
      match err with
      | Some _ => dispatch decode rest err req tr w
      | None =>
          if method_matches m (method req) then
            match route_match pat (path req) with
            | NoMatch => dispatch decode rest None req tr w
            | Matched raw =>
                match raw, from_option decode None raw with
                | Some _, None =>
                    dispatch decode rest (Some (HttpError 400)) req tr w
                | _, param =>
                    let s := h req (JStr <$> param) w in
                    if is_async then Routed (tr ++ [id]) s rest
                    else match s with
                         | Finished (Throw e) w' =>
                             dispatch decode rest (Some e) req (tr ++ [id]) w'
                         | Finished (Ok _) w' => Ended (tr ++ [id]) w'
                         | Awaiting _ _ _ => Routed (tr ++ [id]) s rest
                         end
                end
            end
          else dispatch decode rest None req tr w
      end
  | UseError id h :: rest =>
      match err with
      | None => dispatch decode rest None req tr w
      | Some e =>
          match h e req w with
          | (Ok CallNext, w') => dispatch decode rest None req (tr ++ [id]) w'
          | (Ok Stop, w') => Ended (tr ++ [id]) w'
          | (Throw e', w') => dispatch decode rest (Some e') req (tr ++ [id]) w'
          end
      end
  end.

(** The stages a dispatch went through and the world it left, with the
    routed handler run to its end. *)
Definition trace_of (d : Dispatch) : list Stage :=
  match d with
  | Ended tr _ | Routed tr _ _ | Unrouted tr _ _ => tr
  end.

Definition world_of (d : Dispatch) : World :=
  match d with
  | Ended _ w | Unrouted _ _ w => w
  | Routed _ s _ => snd (complete s)
  end.

Scheme Equality for Stage.

Definition stage_of (l : Layer) : Stage :=
  match l with
  | Use id _ _ | Route id _ _ _ _ | UseError id _ => id
  end.

(** The layers registered after the one of stage [id]: those [next(err)]
    reaches when it is called while that layer is in progress. *)
Fixpoint after (id : Stage) (ls : list Layer) : list Layer :=
  match ls with
  | [] => []
  | l :: rest => if Stage_beq (stage_of l) id then rest else after id rest
  end.

Definition is_error_layer (l : Layer) : bool :=
  match l with UseError _ _ => true | _ => false end.

Definition is_route (s : Stage) : bool :=
  match s with
  | ApiConfig | GetPresentacion | GetNoticiasDestacadas | GetServices
  | GetPreguntasFrecuentes | GetEmpresas | GetEmpresasDetails | GetService
  | GetEventos | GetNoticias | GetNoticia | PostQuery => true
  | _ => false
  end.

End Express.

(** *** Libraries the servers are built on

    The middleware that comes from npm packages is a parameter of the
    pipeline. *)

Module Libs.
Import Express.

Record Lib := {
  cors : Request -> M Flow;                      (* cors() *)
  helmet : Request -> M Flow;                    (* helmet() *)
  express_json : Z -> Request -> M Flow;         (* express.json({limit}) *)
  express_urlencoded : Z -> Request -> M Flow;   (* express.urlencoded({limit}) *)
  express_static : string -> Request -> M Flow;  (* express.static(dir) *)
  decodeURIComponent : jsstring -> option jsstring;
  toString_base64 : json -> Result jsstring      (* v.toString('base64') *)
}.

(** ['1kb'], in bytes. *)
Definition kb1 : Z := 1024.

(** What the specification says of a body parser: a body over the cap, of
    the content type [mine] that the parser reads, is refused at the parsing
    layer with an error that carries an HTTP status (413/400-class, which
    nothing below depends on), raised before anything is written. *)
Definition refuses_oversized (mine : ContentType) (limit : Z)
    (parser : Request -> M Flow) : Prop :=
  forall req w,
    content_type req = mine -> limit < body_length req ->
    exists status w',
      parser req w = (Throw (HttpError status), w')
      /\ written w' = written w.

(** A body parser does not read a body of another content type: it calls
    [next()] and writes nothing. *)
Definition leaves_alone (mine : ContentType) (parser : Request -> M Flow) : Prop :=
  forall req w,
    content_type req <> mine ->
    exists w', parser req w = (Ok CallNext, w') /\ written w' = written w.

(** A library middleware hands the request on: on an open response it
    calls [next()] and leaves the response open. *)
Definition hands_on (h : Request -> M Flow) (req : Request) : Prop :=
  forall w, written w = [] ->
    exists w', h req w = (Ok CallNext, w') /\ written w' = [].

(** The store of the rate limiter is private to it: no other library
    middleware writes to it. *)
Definition keeps_store (h : Request -> M Flow) : Prop :=
  forall req w, hits (snd (h req w)) = hits w.

Definition store_is_private (lib : Lib) : Prop :=
  keeps_store (cors lib) /\ keeps_store (helmet lib)
  /\ (forall limit, keeps_store (express_json lib limit))
  /\ (forall limit, keeps_store (express_urlencoded lib limit))
  /\ (forall dir, keeps_store (express_static lib dir)).

(** Modelled from the spec: express-rate-limit, which the sources only
    configure. "Tracks request count per client IP within a rolling 1-minute
    window; exceeding a configured ceiling terminates with 429; otherwise
    increments the counter and passes through." The state per address is
    [requestCount] and [windowStart], reset every window. The 429 reply
    carries the configured [message]; a string is sent as it is. *)
Definition window_of (windowMs : Z) (req : Request) (w : World) : Z * Z :=
  match hits w !! ip req with
  | Some (count, start) =>
      if arrival req <? start + windowMs then (count, start) else (0, arrival req)
  | None => (0, arrival req)
  end.

Definition rateLimit (windowMs max : Z) (message : string) : Request -> M Flow :=
  fun req w =>
    let (count, start) := window_of windowMs req w in
    if max <? count + 1 then
      (res_status 429;; res_send (js message);; ret Stop) w
    else (Ok CallNext, set_hits (<[ip req := (count + 1, start)]> (hits w)) w).

(** connect-timeout, on entry: [req.timedout = false], the timer is armed
    and [next()] is called. *)
Definition timeout_start : Request -> M Flow :=
  fun _ w => (Ok CallNext, set_timedout false w).

(** connect-timeout, when the timer fires. The timer is cleared once the
    response head is written. Otherwise [req.timedout = true], and with
    [respond] (the default of [timeout('10s')]) an error is passed to
    [next], that is to the error-handling layers [rest] that follow the
    handler in progress. *)
Definition timeout_fires (respond : bool) (decode : jsstring -> option jsstring)
    (rest : list Layer) (req : Request) (w : World) : World :=
  match written w with
  | _ :: _ => w
  | [] =>
      let w1 := set_timedout true w in
      if respond
      then world_of (dispatch decode rest (Some (HttpError 503)) req [] w1)
      else w1
  end.

End Libs.

(** *** Middleware and route handlers written in the sources *)

Module Handlers.
Import Express Regex Libs.

(** **** [server.js], lines 29-35 *)
Definition securityHeaders : Request -> M Flow := fun _ =>
  res_setHeader (js "X-Frame-Options") (js "SAMEORIGIN");;
  res_setHeader (js "Content-Security-Policy")
    (js "default-src 'self'; script-src 'self' 'unsafe-inline'; style-src 'self' 'unsafe-inline' https://fonts.googleapis.com; font-src 'self' https://fonts.gstatic.com; img-src 'self' data: https:; connect-src 'self'; frame-src https://*.google.com https://www.google.com");;
  ret CallNext.

(** **** [server.js], lines 38-72 *)
Definition allowedPatterns : list re := [
  lit "/";
  lit "/index.html";
  lit "/noticias.html";
  lit "/eventos.html";
  lit "/servicios.html";
  lit "/empresas.html";
  Seq (lit "/api/") (Plus Dot);
  Seq (lit "/assets/")
      (Seq (Plus Dot)
           (Seq (lit ".")
                (alts (List.map lit ["css"; "js"; "png"; "jpg"; "jpeg"; "gif"; "svg";
                                     "woff"; "woff2"; "ttf"; "eot"; "ico"]%string))));
  Seq (lit "/js/") (Seq (Plus Dot) (lit ".js"));
  Seq (lit "/css/") (Seq (Plus Dot) (lit ".css"));
  lit "/favicon.ico"
].

Definition isAllowed (p : jsstring) : bool :=
  existsb (fun pattern => test pattern p) allowedPatterns.

Definition whitelist : Request -> M Flow := fun req =>
  if isAllowed (path req) then ret CallNext
  else (res_status 403;; res_send (js "Access Forbidden");; ret Stop).

(** **** [server.js], lines 76-82 *)
Definition tooBusy : Request -> M Flow := fun req =>
  if busy req
  then (res_status 503;;
        res_json (error_body "Server is too busy. Please try again later.");;
        ret Stop)
  else ret CallNext.

(** **** [server.js], lines 99-102; [middleware.js], lines 39-42 *)
Definition timedoutGuard : Request -> M Flow := fun _ w =>
  if negb (timedout w) then (Ok CallNext, w)
  else (res_status 408;;
        res_json (error_body "Request timed out. Please try again.");;
        ret Stop) w.

(** **** [server.js], lines 107-127: [res.send] is replaced. The
    replacement itself is [Templating.patched_send]. *)
Definition sendPatch : Request -> M Flow :=
  fun _ w => (Ok CallNext, set_send_patched true w).

(** **** The global error-handling middleware *)
Definition errorHandler : Exn -> Request -> M Flow := fun _ _ =>
  res_status 500;; res_json (error_body "Internal server error.");; ret Stop.

(** **** [/api/config] *)
Fixpoint before_colon (s : jsstring) : jsstring :=
  match s with
  | [] => []
  | c :: rest => if (c =? 58)%N then [] else c :: before_colon rest
  end.

Fixpoint after_colon (s : jsstring) : option jsstring :=
  match s with
  | [] => None
  | c :: rest => if (c =? 58)%N then Some rest else after_colon rest
  end.

Definition get_config : Request -> jsval -> Task := fun req _ =>
  sync (match host req with
        | None => throw TypeError
        | Some h =>
            let port :=
              match after_colon h with
              | Some rest => before_colon rest          (* host.split(':')[1] *)
              | None => match env_PORT req with
                        | Some (c :: p) => c :: p
                        | _ => js "8060"
                        end
              end in
            res_json (obj [(js "server", hostname req);
                           (js "port", Some (JStr port));
                           (js "apiUrl", Some (JStr (js "http://" ++ h ++ js "/api")))])
        end).

(** **** The handlers that forward one fixed query: [try] the query and
    [res.json(result.rows)], [catch] with a 500 and a fixed message.
    The SQL texts are given with their runs of white space collapsed;
    [console.error] calls, which only write to the server's log, are left
    out. *)
Definition rows_handler (sql errmsg : string) : Request -> jsval -> Task :=
  fun _ _ =>
    pool_query (js sql) [] (fun r =>
      sync (try_catch
              (match r with
               | Some rows => res_json (JArr rows)
               | None => throw DbError
               end)
              (fun _ => res_status 500;; res_json (error_body errmsg)))).

Definition get_presentacion := rows_handler
  "SELECT id, titulo, qsomos, objetivo, qhacemos, clogramos, descripcion, imagen, img FROM sitio.presentacion"
  "Database error.".
Definition get_noticias_destacadas := rows_handler
  "SELECT id, titulo, noticia, imagen, link FROM sitio.noticias WHERE destacar = true ORDER BY id DESC"
  "Database error.".
Definition get_services := rows_handler
  "SELECT id, nombre, descripcion, img, link FROM sitio.productos_servicios ORDER BY id ASC"
  "Database error.".
Definition get_preguntas_frecuentes := rows_handler
  "SELECT id, pregunta, respuesta, fecha FROM sitio.preguntas ORDER BY id ASC"
  "Database error.".
Definition get_empresas := rows_handler
  "SELECT empresa FROM sitio.empresas ORDER BY id"
  "Database error.".
Definition get_eventos := rows_handler
  "SELECT id, titulo, TO_CHAR(fechai, 'DD/MM/YYYY') as fechai, TO_CHAR(fechaf, 'DD/MM/YYYY') as fechaf, descripcion, link, descarga, lugar, encode(imagen, 'base64') as imagen FROM sitio.eventos ORDER BY fechai DESC;"
  "Error al obtener los eventos".
Definition get_noticias := rows_handler
  "SELECT id, titulo, noticia, link, destacar, encode(imagen, 'base64') as imagen, TO_CHAR(fecha, 'DD/MM/YYYY') as fecha FROM sitio.noticias ORDER BY fecha DESC LIMIT 3;"
  "Error al obtener las noticias".

(** **** [/api/get-empresas-details] *)
Fixpoint set_field (k : jsstring) (v : json) (fs : list (jsstring * json))
    : list (jsstring * json) :=
  match fs with
  | [] => [(k, v)]
  | (k', v') :: rest =>
      if bool_decide (k' = k) then (k, v) :: rest else (k', v') :: set_field k v rest
  end.

(** [{ ...company, logo: company.logo ? company.logo.toString('base64') : null }] *)
Definition encode_logo (b64 : json -> Result jsstring) (company : json) : Result json :=
  let fs := match company with JObj fs => fs | _ => [] end in
  match field (js "logo") company with
  | Some logo =>
      if truthy (Some logo)
      then match b64 logo with
           | Ok s => Ok (JObj (set_field (js "logo") (JStr s) fs))
           | Throw e => Throw e
           end
      else Ok (JObj (set_field (js "logo") JNull fs))
  | None => Ok (JObj (set_field (js "logo") JNull fs))
  end.

Fixpoint encode_logos (b64 : json -> Result jsstring) (rows : list json)
    : Result (list json) :=
  match rows with
  | [] => Ok []
  | company :: rest =>
      match encode_logo b64 company with
      | Throw e => Throw e
      | Ok c => match encode_logos b64 rest with
                | Ok cs => Ok (c :: cs)
                | Throw e => Throw e
                end
      end
  end.

Definition get_empresas_details (lib : Lib) : Request -> jsval -> Task :=
  fun _ _ =>
    pool_query (js "SELECT id, empresa, descripcion, direccion, telf, mail, sitio, logo, especializada FROM sitio.empresas ORDER BY especializada DESC, empresa ASC") []
      (fun r =>
         sync (try_catch
                 (match r with
                  | Some rows =>
                      match encode_logos (toString_base64 lib) rows with
                      | Ok companies => res_json (JArr companies)
                      | Throw e => throw e
                      end
                  | None => throw DbError
                  end)
                 (fun _ => res_status 500;; res_json (error_body "Database error.")))).

(** **** [/api/get-service/:nombre] *)
Definition service_sql : jsstring :=
  js "SELECT id, nombre, descripcion, contacto, img, img2 FROM sitio.productos_servicios WHERE nombre = $1".
Definition lineaprod_sql : jsstring :=
  js "SELECT id, titulo, descripcion, img FROM sitio.lineaprod WHERE servicioid = $1 ORDER BY id ASC".

Definition service_failed : Exn -> M unit :=
  fun _ => res_status 500;; res_json (error_body "Database error.").

Definition get_service : Request -> jsval -> Task := fun _ nombre =>
  pool_query service_sql [nombre] (fun serviceResult =>
    match serviceResult with
    | None => sync (service_failed DbError)
    | Some [] =>
        sync (try_catch
                (res_status 404;; res_json (error_body "Service not found"))
                service_failed)
    | Some (service :: _) =>
        pool_query lineaprod_sql [field (js "id") service] (fun productLinesResult =>
          sync (try_catch
                  (match productLinesResult with
                   | Some rows =>
                       res_json (JObj [(js "service", service);
                                       (js "productLines", JArr rows)])
                   | None => throw DbError
                   end)
                  service_failed))
    end).

(** **** [/api/get-noticia/:id] *)
Definition noticia_sql : jsstring :=
  js "SELECT id, titulo, noticia, link, destacar, encode(imagen, 'base64') as imagen, TO_CHAR(fecha, 'DD/MM/YYYY') as fecha FROM sitio.noticias WHERE id = $1;".

Definition noticia_failed : Exn -> M unit :=
  fun _ => res_status 500;; res_json (error_body "Error al obtener la noticia").

Definition get_noticia : Request -> jsval -> Task := fun _ id =>
  pool_query noticia_sql [id] (fun result =>
    sync (try_catch
            (match result with
             | None => throw DbError
             | Some [] => res_status 404;; res_json (error_body "Noticia no encontrada")
             | Some (noticia :: _) => res_json noticia
             end)
            noticia_failed)).

(** **** [POST /api/query] *)
Definition invalid_query : Task :=
  sync (res_status 400;; res_json (error_body "Invalid query.")).

Definition post_query : Request -> jsval -> Task := fun _ _ w =>
  match req_body w with
  | None | Some JNull => Finished (Throw TypeError) w   (* const { query } = req.body *)
  | Some b =>
      let query := field (js "query") b in
      match query with
      | Some (JStr q) =>
          if negb (truthy query) || Nat.eqb (length (trim q)) 0
          then invalid_query w
          else pool_query q [] (fun r =>
                 sync (try_catch
                         (match r with
                          | Some rows => res_json (JArr rows)
                          | None => throw DbError
                          end)
                         (fun _ => res_status 500;;
                                   res_json (error_body "Database error.")))) w
      | _ => invalid_query w                          (* !query, or not a string *)
      end
  end.

(** **** The shape of error responses *)

(** The messages the sources put in an [error] field. *)
Definition error_messages : list string := [
  "Server is too busy. Please try again later.";
  "Request timed out. Please try again.";
  "Internal server error.";
  "Database error.";
  "Error al obtener los eventos";
  "Error al obtener las noticias";
  "Error al obtener la noticia";
  "Service not found";
  "Noticia no encontrada";
  "Invalid query."
]%string.

(** [{ "error": msg }] with [msg] one of the fixed messages. *)
Definition error_object (b : Body) : Prop :=
  exists msg, In msg error_messages /\ b = Json (error_body msg).

Definition only_error_objects (ws : list Sent) : Prop :=
  forall s, In s ws -> 400 <= code s -> error_object (body s).

Definition only_text (c : Z) (t : string) (ws : list Sent) : Prop :=
  forall s, In s ws -> code s = c /\ body s = Text (js t).

(** Stages that belong to npm packages. *)
Definition of_library (id : Stage) : bool :=
  match id with
  | Cors | Helmet | JsonParser | UrlencodedParser | TimeoutStart
  | StaticAssets | StaticJs | StaticCss | StaticRoot => true
  | _ => false
  end.

(** What a layer written or configured in the sources may send on a
    response that is still open: the whitelist gate its plain text, the rate
    limiter the string it was given as [message], every other one nothing
    but successes and error objects. *)
Definition error_shape (l : Layer) : Prop :=
  forall req w, written w = [] -> statusCode w = 200 ->
    match l with
    | Use id _ h =>
        if of_library id then True
        else match id with
             | Whitelist => only_text 403 "Access Forbidden" (written (snd (h req w)))
             | Limiter => exists t, only_text 429 t (written (snd (h req w)))
             | _ => only_error_objects (written (snd (h req w)))
             end
    | Route _ _ _ _ h =>
        forall param, only_error_objects (written (snd (complete (h req param w))))
    | UseError _ h =>
        forall e, only_error_objects (written (snd (h e req w)))
    end.

(** The routes, in the order both files register them. *)
Definition api_routes (lib : Lib) : list Layer := [
  Route GetPresentacion GET (Exact "/api/get-presentacion") true get_presentacion;
  Route GetNoticiasDestacadas GET (Exact "/api/get-noticias-destacadas") true
        get_noticias_destacadas;
  Route GetServices GET (Exact "/api/get-services") true get_services;
  Route GetPreguntasFrecuentes GET (Exact "/api/get-preguntas-frecuentes") true
        get_preguntas_frecuentes;
  Route GetEmpresas GET (Exact "/api/get-empresas") true get_empresas;
  Route GetEmpresasDetails GET (Exact "/api/get-empresas-details") true
        (get_empresas_details lib);
  Route GetService GET (WithParam "/api/get-service/") true get_service;
  Route GetEventos GET (Exact "/api/get-eventos") true get_eventos;
  Route GetNoticias GET (Exact "/api/get-noticias") true get_noticias;
  Route GetNoticia GET (WithParam "/api/get-noticia/") true get_noticia;
  Route PostQuery POST (Exact "/api/query") true post_query
].

End Handlers.

(** *** The [res.send] that [server.js] installs (lines 109-123) *)

Module Templating.
Import Express.

(** [s.includes(needle)] *)
Fixpoint includes (needle s : jsstring) : bool :=
  match starts_with needle s with
  | Some _ => true
  | None => match s with
            | [] => false
            | _ :: rest => includes needle rest
            end
  end.

(** The replacement text of [String.prototype.replace] for a pattern
    without capture groups: [$$] is a dollar sign, [$&] the match, [$`] what
    precedes it and [$'] what follows it; any other [$] stands for itself. *)
Fixpoint substitute (matched before following repl : jsstring) : jsstring :=
  match repl with
  | [] => []
  | 36%N :: 36%N :: rest => 36%N :: substitute matched before following rest
  | 36%N :: 38%N :: rest => matched ++ substitute matched before following rest
  | 36%N :: 96%N :: rest => before ++ substitute matched before following rest
  | 36%N :: 39%N :: rest => following ++ substitute matched before following rest
  | c :: rest => c :: substitute matched before following rest
  end.

(** [s.replace(/needle/g, repl)] for a literal, non-empty [needle]: the
    matches are found from left to right, without overlap. [skip] counts the
    code units of a match still to pass; [seen] is what was read so far,
    last code unit first. *)
Fixpoint replace_go (needle repl s : jsstring) (skip : nat) (seen : jsstring)
    : jsstring :=
  match s with
  | [] => []
  | c :: rest =>
      match skip with
      | S n => replace_go needle repl rest n (c :: seen)
      | O =>
          match starts_with needle s with
          | Some following =>
              substitute needle (rev seen) following repl
              ++ replace_go needle repl rest (length needle - 1) (c :: seen)
          | None => c :: replace_go needle repl rest 0 (c :: seen)
          end
      end
  end.

Definition replace_all (needle repl s : jsstring) : jsstring :=
  replace_go needle repl s 0 [].

(** [process.env.X || 'value'] *)
Definition or_default (x : option jsstring) (d : string) : jsstring :=
  match x with
  | Some (c :: v) => c :: v
  | _ => js d
  end.

(** The function assigned to [res.send], up to its call of the original
    [send]: the text it passes on. *)
Definition patched_send (req : Request) (body : jsstring) : jsstring :=
  if includes (js "<!DOCTYPE html>") body then
    let server := or_default (env_SERVER req) "localhost" in
    let port := or_default (env_PORT req) "8060" in
    let body := replace_all (js "{{SERVER}}") server body in
    replace_all (js "{{PORT}}") port body
  else body.

(** The string that [res.send(s)] and [res.json(v)] call [this.send]
    with. *)
Definition text_of (b : Body) : jsstring :=
  match b with
  | Text t => t
  | Json v => JsonText.stringify v
  end.

(** What a call with text [t] hands to the [send] of Express, through the
    replacement when it is installed. *)
Definition through (req : Request) (patched : bool) (t : jsstring) : jsstring :=
  if patched then patched_send req t else t.

Definition forwarded (req : Request) (s : Sent) : Z * jsstring :=
  (code s, through req (patched s) (text_of (body s))).

(** The responses of a request: status and text, as handed to Express. *)
Definition responses (req : Request) (w : World) : list (Z * jsstring) :=
  List.map (forwarded req) (written w).

(** The handler, started in [w], left [r]: it answered once, with status
    [c] and body [b], and Express was handed [t]. *)
Definition answered (req : Request) (w r : World) (c : Z) (b : Body)
    (t : jsstring) : Prop :=
  written r = reply c b w /\ responses req r = [(c, t)].

End Templating.

(** *** The handlers and the timer of connect-timeout *)

Module Timing.
Import Express Templating.

(** What the route handlers leave alone: the store of the rate limiter,
    [req.timedout], the [res.send] in force and, once a response has been
    written, the response. *)
Definition steady (w w' : World) : Prop :=
  hits w' = hits w /\ timedout w' = timedout w
  /\ send_patched w' = send_patched w
  /\ (written w <> [] -> written w' = written w).

Definition quiet {A} (m : M A) : Prop := forall w, steady w (snd (m w)).

Definition quiet_task (t : Task) : Prop :=
  forall w, steady w (snd (complete (t w))).

(** The timer when it goes off: on an open response it marks the request
    and the global error handler answers 500; after the response it does
    nothing. *)
Definition answers_500 (fire : World -> World) : Prop :=
  (forall w, written w = [] ->
     fire w = set_written
                (reply 500 (Json (error_body "Internal server error.")) w)
                (set_statusCode 500 (set_timedout true w)))
  /\ (forall w, written w <> [] -> fire w = w).

(** Code that throws once the response has been written, and code that
    throws [ERR_HTTP_HEADERS_SENT] then. *)
Definition fails {A} (m : M A) : Prop :=
  forall w, written w <> [] -> exists e w', m w = (Throw e, w').

Definition refuses {A} (m : M A) : Prop :=
  forall w, written w <> [] -> exists w', m w = (Throw HeadersSent, w').

(** A handler that, resumed after the response has been written, ends with
    [ERR_HTTP_HEADERS_SENT] uncaught: its promise is rejected. *)
Definition rejected (t : Task) : Prop :=
  forall w, written w <> [] -> fst (complete (t w)) = Throw HeadersSent.

(** Along the run of a handler, every query is awaited on an open response,
    with the [res.send] that was in force at the start ([patched]), and
    what follows the query is quiet and is rejected once the response has
    been written. *)
Fixpoint waits_open (patched : bool) (s : Step) : Prop :=
  match s with
  | Finished _ _ => True
  | Awaiting _ w k =>
      written w = [] /\ send_patched w = patched
      /\ quiet_task (k (answer w (queries w)))
      /\ rejected (k (answer w (queries w)))
      /\ waits_open patched (k (answer w (queries w)) w)
  end.

(** The request timed out: the timer went off on the open response of
    [w] and the global error handler answered; the handler then ran to its
    end [run], where its own reply was refused and the error left
    uncaught. *)
Definition timed_out (req : Request) (w : World) (run : Result unit * World)
    : Prop :=
  fst run = Throw HeadersSent
  /\ timedout (snd run) = true
  /\ answered req w (snd run) 500 (Json (error_body "Internal server error."))
       (JsonText.stringify (error_body "Internal server error.")).

End Timing.

(** *** [server.js] *)

Module ServerJs.
Import Express Libs Handlers.

Definition limiter : Request -> M Flow :=
  rateLimit (1 * 60 * 1000) 500
    "Too many requests from this IP, please try again later.".

Definition app (lib : Lib) : list Layer :=
  [ Use Cors None (cors lib);
    Use SecurityHeaders None securityHeaders;
    Use Whitelist None whitelist;
    Use TooBusy None tooBusy;
    Use JsonParser None (express_json lib kb1);
    Use UrlencodedParser None (express_urlencoded lib kb1);
    Use Limiter (Some "/api/"%string) limiter;
    Use TimeoutStart None timeout_start;
    Use TimedoutGuard None timedoutGuard;
    Use SendPatch None sendPatch;
    Use StaticAssets (Some "/assets"%string) (express_static lib "assets");
    Use StaticJs (Some "/js"%string) (express_static lib "js");
    Use StaticCss (Some "/css"%string) (express_static lib "css");
    Use StaticRoot None (express_static lib "");
    Route ApiConfig GET (Exact "/api/config") false get_config ]
  ++ api_routes lib
  ++ [ UseError ErrorHandler errorHandler ].

Definition handle (lib : Lib) (req : Request) (w : World) : Dispatch :=
  dispatch (decodeURIComponent lib) (app lib) None req [] w.

(** The timer of [timeout('10s')] going off while the route of stage [id]
    is in progress; the default of connect-timeout is to call [next(err)]. *)
Definition timer (lib : Lib) (id : Stage) (req : Request) : World -> World :=
  timeout_fires true (decodeURIComponent lib) (after id (app lib)) req.

(** A request that gets to the rate limiter: [cors()] and the body
    parsers hand it on, its path is on the whitelist and the process is not
    too busy. *)
Definition reaches_limiter (lib : Lib) (req : Request) : Prop :=
  hands_on (cors lib) req
  /\ isAllowed (path req) = true
  /\ busy req = false
  /\ hands_on (express_json lib kb1) req
  /\ hands_on (express_urlencoded lib kb1) req.

End ServerJs.

(** *** [middleware.js] *)

Module MiddlewareJs.
Import Express Libs Handlers.

Definition limiter : Request -> M Flow :=
  rateLimit (1 * 60 * 1000) 100 "Too many requests, please try again later.".

Definition app (lib : Lib) : list Layer :=
  [ Use Cors None (cors lib);
    Use Helmet None (helmet lib);
    Use JsonParser None (express_json lib kb1);
    Use UrlencodedParser None (express_urlencoded lib kb1);
    Use Limiter (Some "/api/"%string) limiter;
    Use TimeoutStart None timeout_start;
    Use TimedoutGuard None timedoutGuard ]
  ++ api_routes lib
  ++ [ UseError ErrorHandler errorHandler ].

Definition handle (lib : Lib) (req : Request) (w : World) : Dispatch :=
  dispatch (decodeURIComponent lib) (app lib) None req [] w.

Definition timer (lib : Lib) (id : Stage) (req : Request) : World -> World :=
  timeout_fires true (decodeURIComponent lib) (after id (app lib)) req.

(** A request that gets to the rate limiter: the four library layers
    before it hand it on. *)
Definition reaches_limiter (lib : Lib) (req : Request) : Prop :=
  hands_on (cors lib) req
  /\ hands_on (helmet lib) req
  /\ hands_on (express_json lib kb1) req
  /\ hands_on (express_urlencoded lib kb1) req.

End MiddlewareJs.

(** *** A reference instance of the libraries, to run the servers on
    concrete requests *)

Module RefLib.
Import Express Libs.

(** cors(): a preflight ([OPTIONS]) is answered with 204 by the middleware
    itself; any other request gets the allow-origin header and goes on. *)
Definition ref_cors : Request -> M Flow := fun req =>
  match method req with
  | OPTIONS => res_status 204;; res_send [];; ret Stop
  | _ => res_setHeader (js "Access-Control-Allow-Origin") (js "*");; ret CallNext
  end.

Definition ref_helmet : Request -> M Flow := fun _ =>
  res_setHeader (js "X-Content-Type-Options") (js "nosniff");; ret CallNext.

(** A body parser: it reads bodies of its own content type only, refuses
    those over the limit with 413 and those that do not parse with 400, and
    leaves [req.body] an object otherwise. *)
Definition ref_parser (mine : ContentType -> bool) (limit : Z) : Request -> M Flow :=
  fun req w =>
    let w0 := match req_body w with
              | None => set_req_body (Some (JObj [])) w
              | Some _ => w
              end in
    if mine (content_type req) then
      if limit <? body_length req then (Throw (HttpError 413), w0)
      else match payload req with
           | Some v => (Ok CallNext, set_req_body (Some v) w0)
           | None => (Throw (HttpError 400), w0)
           end
    else (Ok CallNext, w0).

Definition is_json (c : ContentType) : bool :=
  match c with CtJson => true | _ => false end.
Definition is_urlencoded (c : ContentType) : bool :=
  match c with CtUrlencoded => true | _ => false end.

(** express.static over a directory without the requested file. *)
Definition ref_static : string -> Request -> M Flow := fun _ _ => ret CallNext.

Definition b64_char (n : N) : N :=
  (if n <? 26 then 65 + n
   else if n <? 52 then 97 + (n - 26)
   else if n <? 62 then 48 + (n - 52)
   else if n =? 62 then 43 else 47)%N.

Fixpoint base64 (bs : list N) : jsstring :=
  (match bs with
   | [] => []
   | [a] => [b64_char (a / 4); b64_char ((a mod 4) * 16); 61; 61]
   | [a; b] => [b64_char (a / 4); b64_char ((a mod 4) * 16 + b / 16);
                b64_char ((b mod 16) * 4); 61]
   | a :: b :: c :: rest =>
       b64_char (a / 4) :: b64_char ((a mod 4) * 16 + b / 16)
       :: b64_char ((b mod 16) * 4 + c / 64) :: b64_char (c mod 64)
       :: base64 rest
   end)%N.

(** [toString('base64')] on what a [bytea] column holds. *)
Definition ref_base64 (v : json) : Result jsstring :=
  match v with
  | JBuf bs => Ok (base64 bs)
  | JStr s => Ok s
  | _ => Throw TypeError
  end.

(** [decodeURIComponent] on segments without percent escapes; a segment
    with a [%] is treated as malformed. *)
Definition ref_decode (s : jsstring) : option jsstring :=
  if existsb (N.eqb 37) s then None else Some s.

Definition ref_lib : Lib :=
  {| cors := ref_cors;
     helmet := ref_helmet;
     express_json := ref_parser is_json;
     express_urlencoded := ref_parser is_urlencoded;
     express_static := ref_static;
     decodeURIComponent := ref_decode;
     toString_base64 := ref_base64 |}.

End RefLib.

(** *** Scenarios for the pipeline *)

Module Scenario.
Import Express Libs Handlers RefLib.

Definition request (m : Method) (p : string) : Request :=
  {| method := m; path := js p; ip := "10.0.0.1"; host := Some (js "localhost:8060");
     hostname := Some (JStr (js "localhost")); content_type := CtOther;
     body_length := 0; payload := None; busy := false; arrival := 0;
     env_PORT := None; env_SERVER := None |}.

Definition with_json (len : Z) (v : json) (r : Request) : Request :=
  {| method := method r; path := path r; ip := ip r; host := host r;
     hostname := hostname r; content_type := CtJson; body_length := len;
     payload := Some v; busy := busy r; arrival := arrival r;
     env_PORT := env_PORT r; env_SERVER := env_SERVER r |}.

Definition at_time (t : Z) (r : Request) : Request :=
  {| method := method r; path := path r; ip := ip r; host := host r;
     hostname := hostname r; content_type := content_type r;
     body_length := body_length r; payload := payload r; busy := busy r;
     arrival := t; env_PORT := env_PORT r; env_SERVER := env_SERVER r |}.

(** A database that answers every query with no rows. *)
Definition empty_db : list Query -> option (list json) := fun _ => Some [].

(** A database with one service, whose product-line table cannot be read. *)
Definition mapas : json := JObj [(js "id", JNum 7); (js "nombre", JStr (js "Mapas"))].
Definition broken_lineaprod : list Query -> option (list json) := fun qs =>
  match last qs with
  | Some (sql, _) => if bool_decide (sql = service_sql) then Some [mapas] else None
  | None => None
  end.

Definition start (db : list Query -> option (list json)) : World := fresh db [] ∅.


(** A request for a path outside the whitelist. *)
Definition probe : Request := request GET "/server.js".


(** A JSON body of 1025 bytes for [/api/query]. *)
Definition oversized : Request :=
  with_json 1025 (JObj [(js "query", JStr (js "SELECT 1"))]) (request POST "/api/query").

(** The same request with a urlencoded body, and with a body of 2000 bytes
    that is neither JSON nor urlencoded. *)
Definition with_content (ct : ContentType) (len : Z) (r : Request) : Request :=
  {| method := method r; path := path r; ip := ip r; host := host r;
     hostname := hostname r; content_type := ct; body_length := len;
     payload := payload r; busy := busy r; arrival := arrival r;
     env_PORT := env_PORT r; env_SERVER := env_SERVER r |}.

Definition oversized_form : Request := with_content CtUrlencoded 1025 oversized.

Definition oversized_text : Request := with_content CtOther 2000 oversized.

(** The rate limiter's store once 10.0.0.1 has used up its 500 requests. *)
Definition spent : World := fresh empty_db [] {[ "10.0.0.1"%string := (500, 0) ]}.

(** The responses a client has received when the timer of connect-timeout
    fires while the routed handler awaits its first query, and the query
    then settles with [result]. *)
Definition late_completion (respond : bool) (lib : Lib) (app : list Layer)
    (req : Request) (w0 : World) (result : option (list json)) : option (list Sent) :=
  match dispatch (decodeURIComponent lib) app None req [] w0 with
  | Routed _ (Awaiting _ w k) rest =>
      let w1 := timeout_fires respond (decodeURIComponent lib) rest req w in
      Some (written (snd (complete (k result w1))))
  | _ => None
  end.

End Scenario.

(** *** Scenarios for the connection tracker *)

Module TrackerScenario.
Import Tracker.

(** The destroy test as the specification words it: on the queue left by the
    clean-up loop. *)
Definition destroys_after_prune (ip : string) (t_push now : Z) (st : State) : bool :=
  num_gt (bumped ip (activeConnections st)) MAX_CONNECTIONS_PER_IP
  || (MAX_QUEUE_SIZE <? Z.of_nat (length (prune now (pushed ip t_push (requestQueue st))))).

(** One client opens and closes [n] connections in a row at time [t]. *)
Definition burst (ra : string) (t : Z) (n : nat) : list Event :=
  flat_map (fun i => [Connection (Some ra) t t; Close i]) (seq 0 n).

(** The state after 400 short connections from 10.0.0.1 at time 0. *)
Definition after_burst : State := run (burst "10.0.0.1" 0 400) init.

End TrackerScenario.

(** *** The clock of the connection tracker *)

Module TrackerClock.
Import Tracker.

(** The readings of [Date.now()] never go back along a sequence of events
    that starts at time [last]. *)
Fixpoint clock_ok (last : Z) (es : list Event) : bool :=
  match es with
  | [] => true
  | Connection _ t_push now :: rest =>
      (last <=? t_push) && (t_push <=? now) && clock_ok now rest
  | Close _ :: rest => clock_ok last rest
  end.

Fixpoint last_clock (last : Z) (es : list Event) : Z :=
  match es with
  | [] => last
  | Connection _ _ now :: rest => last_clock now rest
  | Close _ :: rest => last_clock last rest
  end.

(** Every stored queue is in time order and holds no timestamp of the
    future. *)
Definition queues_ordered (last : Z) (st : State) : Prop :=
  forall ip q, requestQueue st !! ip = Some q ->
    StronglySorted Z.le q /\ Forall (fun t => t <= last) q.

(** The timestamps that are at most 60 s old at [now]. *)
Definition recent (now : Z) (q : list Z) : list Z :=
  List.filter (fun t => now - 60000 <=? t) q.

End TrackerClock.

(** *** Scenarios for the route handlers *)

Module HandlerScenario.
Import Express Handlers.

(** A database with two news items. *)
Definition noticia_1 : json :=
  JObj [(js "id", JNum 1); (js "titulo", JStr (js "Cartografia"));
        (js "fecha", JStr (js "01/02/2025"))].
Definition noticia_2 : json :=
  JObj [(js "id", JNum 2); (js "titulo", JStr (js "Catastro"))].
Definition news_db : list Query -> option (list json) :=
  fun _ => Some [noticia_1; noticia_2].

(** Two companies, one with a logo. *)
Definition con_logo : json :=
  JObj [(js "id", JNum 1); (js "logo", JBuf [77; 97; 110]%N);
        (js "empresa", JStr (js "GEOCUBA"))].
Definition sin_logo : json :=
  JObj [(js "id", JNum 2); (js "logo", JNull); (js "empresa", JStr (js "GEOMIX"))].

(** A request for [/api/config] with the given [Host] header. *)
Definition config_request (h : option jsstring) : Request :=
  {| method := GET; path := js "/api/config"; ip := "10.0.0.1"; host := h;
     hostname := Some (JStr (js "portal")); content_type := CtOther;
     body_length := 0; payload := None; busy := false; arrival := 0;
     env_PORT := None; env_SERVER := None |}.

(** A request that arrives while the event loop lags. *)
Definition busy_request : Request :=
  {| method := GET; path := js "/api/get-noticias"; ip := "10.0.0.1";
     host := Some (js "localhost:8060"); hostname := Some (JStr (js "localhost"));
     content_type := CtOther; body_length := 0; payload := None; busy := true;
     arrival := 0; env_PORT := None; env_SERVER := None |}.

End HandlerScenario.

(** *** Requests served one after the other *)

Module Session.
Import Express Libs.

(** The requests of a sequence, served in turn by one process: each one
    starts on a fresh response, over the store of the rate limiter that the
    earlier ones left. *)
Fixpoint serve_all (handle : Request -> World -> Dispatch)
    (db : list Query -> option (list json)) (reqs : list Request)
    (store : gmap string (Z * Z)) : list Dispatch :=
  match reqs with
  | [] => []
  | req :: rest =>
      let d := handle req (fresh db [] store) in
      d :: serve_all handle db rest (hits (world_of d))
  end.

(** The count and the start of the one-minute window in force for the
    client of [req] when it arrives: count 0 and a window that starts now
    when the store holds nothing for the client or its window is over. *)
Definition window (req : Request) (store : gmap string (Z * Z)) : Z * Z :=
  window_of (1 * 60 * 1000) req (fresh (fun _ => None) [] store).

(** The layer ran on the request, from [w] to [w']. *)
Definition ran (l : Layer) (req : Request) (w w' : World) : Prop :=
  match l with
  | Use _ mount h => mounted mount (path req) = true /\ w' = snd (h req w)
  | Route _ _ _ _ h => exists param, w' = snd (complete (h req param w))
  | UseError _ h => exists e, w' = snd (h e req w)
  end.

(** A layer that leaves the store of the rate limiter as it is, when it
    runs on [req]. *)
Definition keeps_hits_on (req : Request) (l : Layer) : Prop :=
  match l with
  | Use _ mount h =>
      mounted mount (path req) = true -> forall w, hits (snd (h req w)) = hits w
  | Route _ _ _ _ h => forall param w, hits (snd (complete (h req param w))) = hits w
  | UseError _ h => forall e w, hits (snd (h e req w)) = hits w
  end.

(** 501 requests of one client for [/api/get-noticias] within a minute,
    the process being too busy when the first one arrives. *)
Definition after_a_busy_moment : list Request :=
  {| method := GET; path := js "/api/get-noticias"; ip := "10.0.0.1";
     host := Some (js "localhost:8060"); hostname := Some (JStr (js "localhost"));
     content_type := CtOther; body_length := 0; payload := None; busy := true;
     arrival := 0; env_PORT := None; env_SERVER := None |}
  :: replicate 500
       {| method := GET; path := js "/api/get-noticias"; ip := "10.0.0.1";
          host := Some (js "localhost:8060");
          hostname := Some (JStr (js "localhost"));
          content_type := CtOther; body_length := 0; payload := None;
          busy := false; arrival := 0; env_PORT := None; env_SERVER := None |}.

End Session.

(** *** Response headers, read back *)

Module Headers.
Import Express.

(** [res.getHeader(k)]: names compare case-insensitively. *)
Fixpoint get_header (k : jsstring) (hs : list (jsstring * jsstring)) : option jsstring :=
  match hs with
  | [] => None
  | (k', v) :: rest =>
      if bool_decide (lower k' = lower k) then Some v else get_header k rest
  end.

End Headers.

(** *** What the whitelist patterns denote *)

Module WhitelistSpec.
Import Regex.

(** The strings a regular expression matches as a whole. *)
Inductive matches : re -> jsstring -> Prop :=
| m_eps : matches Eps []
| m_chr c : matches (Chr c) [c]
| m_dot c : is_line_terminator c = false -> matches Dot [c]
| m_seq a b s t : matches a s -> matches b t -> matches (Seq a b) (s ++ t)
| m_alt_l a b s : matches a s -> matches (Alt a b) s
| m_alt_r a b s : matches b s -> matches (Alt a b) s
| m_star_nil a : matches (Star a) []
| m_star_cons a s t : matches a s -> matches (Star a) t -> matches (Star a) (s ++ t).

(** What [.+] accepts: a non-empty text without line terminators. *)
Definition free_text (x : jsstring) : Prop :=
  x <> [] /\ forallb (fun c => negb (is_line_terminator c)) x = true.

(** The pages and the icon that are listed by name. *)
Definition pages : list string :=
  ["/"; "/index.html"; "/noticias.html"; "/eventos.html"; "/servicios.html";
   "/empresas.html"; "/favicon.ico"]%string.

Definition asset_extensions : list string :=
  ["css"; "js"; "png"; "jpg"; "jpeg"; "gif"; "svg"; "woff"; "woff2"; "ttf";
   "eot"; "ico"]%string.

(** The paths the eleven patterns describe. *)
Definition admitted (p : jsstring) : Prop :=
  (exists page, In page pages /\ p = js page)
  \/ (exists x, p = js "/api/" ++ x /\ free_text x)
  \/ (exists x ext, p = js "/assets/" ++ x ++ js "." ++ js ext
                    /\ free_text x /\ In ext asset_extensions)
  \/ (exists x, p = js "/js/" ++ x ++ js ".js" /\ free_text x)
  \/ (exists x, p = js "/css/" ++ x ++ js ".css" /\ free_text x).

End WhitelistSpec.

(** *** [js/text-utils.js]: [formatTextContent] *)

Module TextUtils.

(** [\s] of a regular expression is the white space that [trim] strips. *)
Fixpoint take_space (s : jsstring) : jsstring :=
  match s with
  | [] => []
  | c :: rest => if is_space c then c :: take_space rest else []
  end.

(** How many code units of [run] there are up to its last line feed, that
    one included; 0 when it has none. *)
Fixpoint upto_last_lf (run : jsstring) : nat :=
  match run with
  | [] => 0
  | c :: rest =>
      match upto_last_lf rest with
      | S n => S (S n)
      | O => if (c =? 10)%N then 1 else 0
      end
  end.

(** [text.split(/\n\s*\n/)]. The pattern matches at a line feed when the
    white space after it holds another line feed, and then, [\s*] being
    greedy, up to the last line feed of that white space. [split] cuts at
    the leftmost matches and resumes after each. [cur] is the piece in
    progress, reversed; [skip] counts the code units of a match still to
    pass. *)
Fixpoint split_go (s : jsstring) (skip : nat) (cur : jsstring) : list jsstring :=
  match s with
  | [] => [rev cur]
  | c :: rest =>
      match skip with
      | S n => split_go rest n cur
      | O =>
          if (c =? 10)%N then
            match upto_last_lf (take_space rest) with
            | O => split_go rest 0 (c :: cur)
            | S n => rev cur :: split_go rest (S n) []
            end
          else split_go rest 0 (c :: cur)
      end
  end.

Definition split_paragraphs (text : jsstring) : list jsstring := split_go text 0 [].

(** ['style="text-align: justify;"'] *)
Definition justify : jsstring :=
  js "style=" ++ [34%N] ++ js "text-align: justify;" ++ [34%N].

(** The template [`<p ${justifyStyle}>${trimmedText}</p>`]. *)
Definition paragraph (p : jsstring) : jsstring :=
  let trimmedText := trim p in
  let justifyStyle := if (100 <? length trimmedText)%nat then justify else [] in
  js "<p " ++ justifyStyle ++ js ">" ++ trimmedText ++ js "</p>".

(** [formatTextContent(text)] for a string [text]. *)
Definition formatTextContent (text : jsstring) : jsstring :=
  match text with
  | [] => []
  | _ :: _ =>
      let paragraphs := split_paragraphs text in
      if (1 <? length paragraphs)%nat then
        concat (List.map paragraph
                  (List.filter (fun p => negb (bool_decide (trim p = []))) paragraphs))
      else paragraph text
  end.

(** The number of line feeds of a text. *)
Definition line_feeds (s : jsstring) : nat :=
  length (List.filter (N.eqb 10) s).

(** A text without line feed, and one that begins with a visible
    character. *)
Definition single_line (s : jsstring) : bool :=
  forallb (fun c => negb (c =? 10)%N) s.

Definition starts_with_text (s : jsstring) : bool :=
  match s with
  | c :: _ => negb (is_space c)
  | [] => false
  end.

(** Paragraphs joined by an empty line. *)
Fixpoint join_paragraphs (ps : list jsstring) : jsstring :=
  match ps with
  | [] => []
  | [p] => p
  | p :: rest => p ++ [10; 10]%N ++ join_paragraphs rest
  end.

End TextUtils.

(* ===================================================================== *)
(** ** Part II. Theorems                                                 *)
(* ===================================================================== *)

(** *** Sanity checks of the string functions *)

Example trim_spaces : trim (js "  SELECT 1 ") = js "SELECT 1".
Proof. reflexivity. Qed.

Example trim_blank : trim [32; 9; 10; 160; 8232; 65279]%N = [].
Proof. reflexivity. Qed.

Example whitelist_allows :
  List.map (λ p, Handlers.isAllowed (js p))
    ["/"; "/index.html"; "/api/get-noticias"; "/assets/img/logo.png";
     "/js/config.js"; "/css/site.css"; "/favicon.ico"]%string
  = [true; true; true; true; true; true; true].
Proof. vm_compute. reflexivity. Qed.

Example whitelist_refuses :
  List.map (λ p, Handlers.isAllowed (js p))
    ["/server.js"; "/package.json"; "/api/"; "/api"; "/index.html/";
     "/assets/.png"; "/assets/logo.exe"; "/js/.js"; "/API/get-noticias"; ""]%string
  = [false; false; false; false; false; false; false; false; false; false].
Proof. vm_compute. reflexivity. Qed.

Example dot_stops_at_line_feed :
  Handlers.isAllowed (js "/api/a" ++ [10%N] ++ js "b") = false.
Proof. vm_compute. reflexivity. Qed.

Example mount_examples :
  List.map (λ p, Express.mount_matches "/api/" (js p))
    ["/api"; "/api/"; "/api/query"; "/API/Query"; "/apix"; "/"; "/assets/api/"]%string
  = [true; true; true; true; false; false; false].
Proof. vm_compute. reflexivity. Qed.

Example route_examples :
  List.map (λ p, Express.route_match (Express.WithParam "/api/get-service/") (js p))
    ["/api/get-service/Mapas"; "/api/get-service/Mapas/"; "/api/get-service/";
     "/api/get-service/a/b"; "/API/Get-Service/Mapas"]%string
  = [Express.Matched (Some (js "Mapas")); Express.Matched (Some (js "Mapas"));
     Express.NoMatch; Express.NoMatch; Express.Matched (Some (js "Mapas"))].
Proof. vm_compute. reflexivity. Qed.

Example base64_examples :
  List.map (λ t, RefLib.base64 (js t)) ["Man"; "Ma"; "M"; ""]%string
  = [js "TWFu"; js "TWE="; js "TQ=="; []].
Proof. vm_compute. reflexivity. Qed.

Example stringify_examples :
  JsonText.stringify (Express.error_body "Invalid query.")
  = js "{" ++ [34%N] ++ js "error" ++ [34%N] ++ js ":" ++ [34%N]
    ++ js "Invalid query." ++ [34%N] ++ js "}"
  ∧ JsonText.stringify (JArr [JNum 7; JNum (-12); JNull; JBool true; JArr []; JObj []])
    = js "[7,-12,null,true,[],{}]"
  ∧ JsonText.stringify (JStr [10; 34; 1; 55357; 65]%N)
    = [34; 92; 110; 92; 34]%N ++ js "\u0001\ud83dA" ++ [34%N].
Proof. vm_compute. repeat split; reflexivity. Qed.

Example replace_examples :
  Templating.replace_all (js "{{S}}") (js "[$&|$`|$'|$$|$1]") (js "ab{{S}}cd{{S}}")
  = js "ab[{{S}}|ab|cd{{S}}|$|$1]cd[{{S}}|ab{{S}}cd||$|$1]"
  ∧ Templating.replace_all (js "aa") (js "b") (js "aaaaa") = js "bba".
Proof. vm_compute. split; reflexivity. Qed.

(** The replaced [res.send] on a page, on a text that is no page, and on a
    row of JSON that quotes a page. *)
Example patched_send_examples :
  let req := Scenario.request Express.GET "/index.html" in
  Templating.patched_send req
    (js "<!DOCTYPE html><a href=http://{{SERVER}}:{{PORT}}/api>{{SERVER}}</a>")
  = js "<!DOCTYPE html><a href=http://localhost:8060/api>localhost</a>"
  ∧ Templating.patched_send req (js "http://{{SERVER}}:{{PORT}}/api")
    = js "http://{{SERVER}}:{{PORT}}/api"
  ∧ Templating.patched_send req
      (JsonText.stringify (JArr [JObj [(js "x", JStr (js "<!DOCTYPE html>{{PORT}}"))]]))
    = js "[{" ++ [34%N] ++ js "x" ++ [34%N] ++ js ":" ++ [34%N]
      ++ js "<!DOCTYPE html>8060" ++ [34%N] ++ js "}]".
Proof. vm_compute. repeat split; reflexivity. Qed.

(** [GET /api/get-service/Mapas] through [server.js] with the reference
    libraries: the request gets to its handler on an open response, with
    the replaced [res.send] installed, and the layers that follow the route
    are those [next(err)] would reach. *)
Example service_route_example :
  let req := Scenario.request Express.GET "/api/get-service/Mapas" in
  let w := Scenario.start Scenario.broken_lineaprod in
  let app := ServerJs.app RefLib.ref_lib in
  let w' := Express.world_of
              (Express.dispatch RefLib.ref_decode (firstn 15 app) None req [] w) in
  ServerJs.handle RefLib.ref_lib req w
  = Express.Routed
      [Express.Cors; Express.SecurityHeaders; Express.Whitelist; Express.TooBusy;
       Express.JsonParser; Express.UrlencodedParser; Express.Limiter;
       Express.TimeoutStart; Express.TimedoutGuard; Express.SendPatch;
       Express.StaticRoot; Express.GetService]
      (Handlers.get_service req (Some (JStr (js "Mapas"))) w')
      (Express.after Express.GetService app)
  ∧ Express.written w' = [] ∧ Express.statusCode w' = 200
  ∧ Express.send_patched w' = true ∧ Express.timedout w' = false.
Proof. vm_compute. repeat split; reflexivity. Qed.

(** *** Connection tracker *)

Section TrackerFacts.
Import Tracker.

Lemma prune_suffix now q : ∃ old, q = old ++ prune now q ∧ Forall (λ t, t < now - 60000) old.
Proof.
  induction q as [|t q [old [E F]]]; simpl.
  - by exists [].
  - destruct (Z.ltb_spec t (now - 60000)).
    + exists (t :: old). split; [by rewrite <- app_comm_cons, <- E | by constructor].
    + by exists [].
Qed.

Lemma prune_head now q t rest : prune now q = t :: rest → now - 60000 <= t.
Proof.
  induction q as [|u q IH]; simpl; [done|].
  destruct (Z.ltb_spec u (now - 60000)); [done|].
  intros [= -> _]. lia.
Qed.

Lemma take_listener_live sock ls ip rest ip' :
  take_listener sock ls = Some (ip, rest) →
  length (List.filter (λ l, String.eqb (snd l) ip') ls)
  = (length (List.filter (λ l, String.eqb (snd l) ip') rest)
     + (if String.eqb ip ip' then 1 else 0))%nat.
Proof.
  revert rest. induction ls as [|[s a] ls IH]; intros rest; simpl; [done|].
  destruct (Nat.eqb s sock).
  - intros [= -> ->]. destruct (String.eqb ip ip'); simpl; lia.
  - destruct (take_listener sock ls) as [[a' r']|]; [|done].
    intros [= -> <-]. simpl. specialize (IH r' eq_refl).
    destruct (String.eqb a ip'); simpl; lia.
Qed.

Lemma counts_open_init : counts_open init.
Proof. intros ip. reflexivity. Qed.

Lemma counts_open_step st e : counts_open st → counts_open (step st e).
Proof.
  intros I ip. destruct e as [ra t1 t2|sock]; simpl.
  - unfold live, bumped; simpl. set (a := ip_of ra).
    destruct (String.eqb_spec a ip) as [->|Hne]; simpl.
    + rewrite lookup_insert_eq. rewrite (I ip). unfold live.
      repeat case_decide; simpl; try lia; do 2 f_equal; lia.
    + rewrite lookup_insert_ne by done. apply I.
  - unfold on_close.
    destruct (take_listener sock (listeners st)) as [[a rest]|] eqn:T; [|apply I].
    unfold live; simpl.
    pose proof (take_listener_live _ _ _ _ ip T) as L.
    pose proof (I ip) as Ii. pose proof (I a) as Ia. unfold live in Ii, Ia.
    unfold close_handler.
    destruct (String.eqb_spec a ip) as [->|Hne].
    + rewrite Ii. case_decide; [lia|]. simpl.
      destruct (Z.leb_spec (Z.of_nat (length (List.filter
                 (λ l, String.eqb (snd l) ip) (listeners st)))) 1).
      * rewrite lookup_delete_eq. case_decide; [done|lia].
      * rewrite lookup_insert_eq. case_decide; [lia|]. do 2 f_equal. lia.
    + assert (activeConnections st !! ip
              = if decide (length (List.filter (λ l, String.eqb (snd l) ip) rest) = 0%nat)
                then None
                else Some (Num (Z.of_nat (length (List.filter
                        (λ l, String.eqb (snd l) ip) rest))))) as Hip.
      { rewrite Ii. rewrite L. rewrite Nat.add_0_r. done. }
      destruct (num_le _ _).
      * by rewrite lookup_delete_ne.
      * by rewrite lookup_insert_ne.
Qed.

Lemma counts_open_run es st : counts_open st → counts_open (run es st).
Proof.
  revert st. induction es as [|e es IH]; intros st I; [done|].
  apply IH. by apply counts_open_step.
Qed.

End TrackerFacts.

Section TrackerMwFacts.
Import TrackerMw.

Lemma take_listener_live_mw sock ls ip rest ip' :
  take_listener sock ls = Some (ip, rest) →
  length (List.filter (λ l, bool_decide (snd l = ip')) ls)
  = (length (List.filter (λ l, bool_decide (snd l = ip')) rest)
     + (if bool_decide (ip = ip') then 1 else 0))%nat.
Proof.
  revert rest. induction ls as [|[s a] ls IH]; intros rest; simpl; [done|].
  destruct (Nat.eqb s sock).
  - intros [= -> ->]. destruct (bool_decide (ip = ip')); simpl; lia.
  - destruct (take_listener sock ls) as [[a' r']|]; [|done].
    intros [= -> <-]. simpl. specialize (IH r' eq_refl).
    destruct (bool_decide (a = ip')); simpl; lia.
Qed.

Lemma counts_open_mw_init : counts_open_mw init.
Proof. intros ip. reflexivity. Qed.

Lemma counts_open_mw_step st e : counts_open_mw st → counts_open_mw (step st e).
Proof.
  intros I ip. destruct e as [a|sock]; simpl.
  - unfold live, bumped; simpl.
    destruct (decide (a = ip)) as [->|Hne].
    + rewrite bool_decide_eq_true_2 by done. simpl.
      rewrite lookup_insert_eq. rewrite (I ip). unfold live.
      repeat case_decide; simpl; try lia; do 2 f_equal; lia.
    + rewrite bool_decide_eq_false_2 by done.
      rewrite lookup_insert_ne by done. apply I.
  - unfold on_close.
    destruct (take_listener sock (listeners st)) as [[a rest]|] eqn:T; [|apply I].
    unfold live; simpl.
    pose proof (take_listener_live_mw _ _ _ _ ip T) as L.
    pose proof (I ip) as Ii. pose proof (I a) as Ia. unfold live in Ii, Ia.
    unfold close_handler. rewrite lookup_insert_eq. simpl.
    destruct (decide (a = ip)) as [->|Hne].
    + rewrite bool_decide_eq_true_2 in L by done.
      rewrite Ii. case_decide; [lia|]. simpl.
      destruct (Z.eqb_spec (Z.of_nat (length (List.filter
                 (λ l, bool_decide (snd l = ip)) (listeners st))) - 1) 0).
      * rewrite lookup_delete_eq. case_decide; [done|lia].
      * rewrite lookup_insert_eq. case_decide; [lia|]. do 2 f_equal. lia.
    + rewrite bool_decide_eq_false_2 in L by done.
      rewrite Nat.add_0_r in L. rewrite <- L.
      destruct (num_eq _ _).
      * rewrite lookup_delete_ne by done. by rewrite lookup_insert_ne.
      * by rewrite lookup_insert_ne.
Qed.

Lemma counts_open_mw_run es st : counts_open_mw st → counts_open_mw (run es st).
Proof.
  revert st. induction es as [|e es IH]; intros st I; [done|].
  apply IH. by apply counts_open_mw_step.
Qed.

End TrackerMwFacts.

(** **** C9. After any sequence of connection and close events the count
    stored for an address is the number of its open sockets, hence never
    negative (nor [NaN]), and the address has an entry in
    [activeConnections] exactly while that number is not 0. Both trackers. *)
Theorem C9_active_count_invariant :
  (∀ es ip,
     let st := Tracker.run es Tracker.init in
     match Tracker.activeConnections st !! ip with
     | Some c => c = Num (Z.of_nat (Tracker.live ip st)) ∧ (0 < Tracker.live ip st)%nat
     | None => Tracker.live ip st = 0%nat
     end)
  ∧ (∀ es ip,
     let st := TrackerMw.run es TrackerMw.init in
     match TrackerMw.activeConnections st !! ip with
     | Some c => c = Num (Z.of_nat (TrackerMw.live ip st)) ∧ (0 < TrackerMw.live ip st)%nat
     | None => TrackerMw.live ip st = 0%nat
     end).
Proof.
  split; intros es ip st.
  - pose proof (counts_open_run es _ counts_open_init ip) as I.
    fold st in I. rewrite I. case_decide; [done|]. split; [done|lia].
  - pose proof (counts_open_mw_run es _ counts_open_mw_init ip) as I.
    fold st in I. rewrite I. case_decide; [done|]. split; [done|lia].
Qed.

(** **** C10. In [server.js] no event removes a key of [requestQueue]: the
    keys after any further events include the keys before, and a connection
    from an address puts its key there for good. *)
Theorem C10_requestQueue_keys_only_grow :
  (∀ st es, dom (Tracker.requestQueue st)
            ⊆ dom (Tracker.requestQueue (Tracker.run es st)))
  ∧ (∀ st ra t_push now es,
       Tracker.ip_of ra
       ∈ dom (Tracker.requestQueue
                (Tracker.run (Tracker.Connection ra t_push now :: es) st))).
Proof.
  assert (∀ st e, dom (Tracker.requestQueue st)
                  ⊆ dom (Tracker.requestQueue (Tracker.step st e))) as Hstep.
  { intros st [ra t1 t2|sock]; simpl.
    - rewrite dom_insert. set_solver.
    - unfold Tracker.on_close.
      by destruct (Tracker.take_listener sock (Tracker.listeners st)) as [[a r]|]. }
  assert (∀ es st, dom (Tracker.requestQueue st)
                   ⊆ dom (Tracker.requestQueue (Tracker.run es st))) as Hrun.
  { induction es as [|e es IH]; intros st; simpl; [done|].
    etrans; [apply (Hstep st e)|apply IH]. }
  split; [intros st es; apply Hrun|].
  intros st ra t1 t2 es. simpl. apply Hrun. simpl.
  rewrite dom_insert. set_solver.
Qed.

(** **** C5 (as the code has it). A connection event from [ip] stores the
    incremented count, stores the queue with the current time appended and
    its stale prefix (entries older than 60 s) trimmed, and destroys the
    socket exactly when the new count exceeds [MAX_CONNECTIONS_PER_IP] or the
    queue, measured after the append and before the trim, is longer than
    [MAX_QUEUE_SIZE]. The listener has no access to an HTTP response. In
    [middleware.js] there is no queue and the bound is 10. *)
Theorem C5_connection_event :
  (∀ ra t_push now st,
     let ip := Tracker.ip_of ra in
     let count := or_zero (Tracker.activeConnections st !! ip) + 1 in
     let queue := default [] (Tracker.requestQueue st !! ip) ++ [t_push] in
     let st' := fst (Tracker.on_connection ra t_push now st) in
     Tracker.activeConnections st' !! ip = Some (Num count)
     ∧ (∃ stale kept, queue = stale ++ kept
          ∧ Forall (λ t, t < now - 60000) stale
          ∧ (∀ t, head kept = Some t → now - 60000 <= t)
          ∧ Tracker.requestQueue st' !! ip = Some kept)
     ∧ (snd (Tracker.on_connection ra t_push now st) = true
        ↔ Tracker.MAX_CONNECTIONS_PER_IP < count
          ∨ Tracker.MAX_QUEUE_SIZE < Z.of_nat (length queue)))
  ∧ (∀ ip st,
       let count := or_zero (TrackerMw.activeConnections st !! ip) + 1 in
       TrackerMw.activeConnections (fst (TrackerMw.on_connection ip st)) !! ip
       = Some (Num count)
       ∧ (snd (TrackerMw.on_connection ip st) = true ↔ 10 < count)).
Proof.
  split.
  - intros ra t_push now st ip count queue st'. split; [|split].
    + subst st'. simpl. by rewrite lookup_insert_eq.
    + destruct (prune_suffix now queue) as [stale [E F]].
      exists stale, (Tracker.prune now queue). repeat split; [done|done| |].
      * intros t Ht. destruct (Tracker.prune now queue) as [|u r] eqn:P; [done|].
        injection Ht as ->. by eapply prune_head.
      * subst st'. simpl. by rewrite lookup_insert_eq.
    + simpl. unfold Tracker.destroys, Tracker.bumped, Tracker.pushed. simpl.
      fold ip. fold count. fold queue.
      rewrite orb_true_iff, !Z.ltb_lt. done.
  - intros ip st count. simpl. rewrite lookup_insert_eq. split; [done|].
    simpl. unfold TrackerMw.bumped. fold count. by rewrite Z.ltb_lt.
Qed.

(** **** C5, counterexample. After 400 short connections at time 0, a
    connection from the same address 100 s later is destroyed although its
    count is 1 and the trimmed queue holds one timestamp: the test ran on the
    401 entries before the trim. *)
Lemma C5_counterexample_stale_queue :
  let st := TrackerScenario.after_burst in
  let r := Tracker.on_connection (Some "10.0.0.1"%string) 100000 100000 st in
  snd r = true
  ∧ Tracker.activeConnections (fst r) !! "10.0.0.1"%string = Some (Num 1)
  ∧ Tracker.requestQueue (fst r) !! "10.0.0.1"%string = Some [100000]
  ∧ TrackerScenario.destroys_after_prune "10.0.0.1" 100000 100000 st = false.
Proof. vm_compute. done. Qed.

(** *** The pipeline of [server.js] *)

Section PipelineFacts.
Import Express Libs Handlers Headers Templating.

Lemma dispatch_pass decode id h rest req tr w w' :
  h req w = (Ok CallNext, w') →
  dispatch decode (Use id None h :: rest) None req tr w
  = dispatch decode rest None req (tr ++ [id]) w'.
Proof. intros E. cbn [dispatch mounted]. by rewrite E. Qed.

Lemma dispatch_stop decode id h rest req tr w w' :
  h req w = (Ok Stop, w') →
  dispatch decode (Use id None h :: rest) None req tr w = Ended (tr ++ [id]) w'.
Proof. intros E. cbn [dispatch mounted]. by rewrite E. Qed.

Lemma dispatch_raise decode id h rest req tr w w' e :
  h req w = (Throw e, w') →
  dispatch decode (Use id None h :: rest) None req tr w
  = dispatch decode rest (Some e) req (tr ++ [id]) w'.
Proof. intros E. cbn [dispatch mounted]. by rewrite E. Qed.

(** An error skips every layer that is not an error handler. *)
Lemma dispatch_error_skip decode l rest e req tr w :
  is_error_layer l = false →
  dispatch decode (l :: rest) (Some e) req tr w
  = dispatch decode rest (Some e) req tr w.
Proof. by destruct l. Qed.

Lemma dispatch_error_skips decode ls rest e req tr w :
  forallb (λ l, negb (is_error_layer l)) ls = true →
  dispatch decode (ls ++ rest) (Some e) req tr w
  = dispatch decode rest (Some e) req tr w.
Proof.
  induction ls as [|l ls IH]; [done|]. cbn [forallb].
  intros [Hl Hls]%andb_prop. destruct l; try done; cbn [app dispatch]; by apply IH.
Qed.

Lemma dispatch_caught decode id h rest e req tr w w' :
  h e req w = (Ok Stop, w') →
  dispatch decode (UseError id h :: rest) (Some e) req tr w = Ended (tr ++ [id]) w'.
Proof. intros E. cbn [dispatch]. by rewrite E. Qed.

Lemma securityHeaders_passes req w :
  written w = [] →
  ∃ w', securityHeaders req w = (Ok CallNext, w')
        ∧ written w' = [] ∧ statusCode w' = statusCode w
        ∧ queries w' = queries w ∧ hits w' = hits w
        ∧ send_patched w' = send_patched w.
Proof.
  intros Hw. unfold securityHeaders, bind, res_setHeader, ret.
  rewrite Hw. cbn [written set_headers]. rewrite Hw.
  eexists. split; [reflexivity|]. done.
Qed.

Lemma get_put_header k k' v hs :
  get_header k (put_header k' v hs)
  = if bool_decide (lower k' = lower k) then Some v else get_header k hs.
Proof.
  induction hs as [|[k0 v0] hs IH]; cbn [put_header get_header]; [done|].
  destruct (bool_decide_reflect (lower k0 = lower k')) as [E|Hne]; cbn [get_header].
  - rewrite E. by destruct (bool_decide (lower k' = lower k)).
  - rewrite IH. destruct (bool_decide_reflect (lower k0 = lower k)) as [E|Hne'];
      [by rewrite bool_decide_eq_false_2 by congruence|done].
Qed.

Lemma securityHeaders_sets req w :
  written w = [] →
  headers (snd (securityHeaders req w))
  = put_header (js "Content-Security-Policy")
      (js "default-src 'self'; script-src 'self' 'unsafe-inline'; style-src 'self' 'unsafe-inline' https://fonts.googleapis.com; font-src 'self' https://fonts.gstatic.com; img-src 'self' data: https:; connect-src 'self'; frame-src https://*.google.com https://www.google.com")
      (put_header (js "X-Frame-Options") (js "SAMEORIGIN") (headers w)).
Proof.
  intros Hw. unfold securityHeaders, bind, res_setHeader, ret.
  rewrite Hw. cbn [written set_headers]. by rewrite Hw.
Qed.


(** A text without [<!DOCTYPE html>] goes through the replaced [res.send]
    as it is. *)
Lemma through_plain req p t :
  includes (js "<!DOCTYPE html>") t = false → through req p t = t.
Proof. intros H. unfold through, patched_send. rewrite H. by destruct p. Qed.

Lemma through_error req p msg :
  In msg error_messages →
  through req p (JsonText.stringify (error_body msg)) = JsonText.stringify (error_body msg).
Proof.
  intros Hm. apply through_plain. cbn [In error_messages] in Hm.
  repeat (destruct Hm as [<-|Hm]; [vm_compute; reflexivity|]). done.
Qed.

Lemma responses_reply req c b w r :
  written r = reply c b w →
  responses req r = [(c, through req (send_patched w) (text_of b))].
Proof. intros E. unfold responses. by rewrite E. Qed.

Lemma answered_with req w r c b :
  written r = reply c b w →
  answered req w r c b (through req (send_patched w) (text_of b)).
Proof. intros E. split; [done|by apply responses_reply]. Qed.

Lemma answered_error req w r c msg :
  In msg error_messages →
  written r = reply c (Json (error_body msg)) w →
  answered req w r c (Json (error_body msg)) (JsonText.stringify (error_body msg)).
Proof.
  intros Hm E. split; [done|]. rewrite (responses_reply _ _ _ _ _ E).
  cbn [text_of]. by rewrite through_error.
Qed.

Lemma whitelist_blocks req w :
  isAllowed (path req) = false → written w = [] →
  whitelist req w
  = (Ok Stop,
     set_written [{| code := 403; body := Text (js "Access Forbidden");
                     patched := send_patched w |}] (set_statusCode 403 w)).
Proof.
  intros Hp Hw. unfold whitelist. rewrite Hp.
  unfold bind, res_status, res_send, res_write, ret. cbn. by rewrite Hw.
Qed.

Lemma whitelist_passes req w :
  isAllowed (path req) = true → whitelist req w = (Ok CallNext, w).
Proof. intros Hp. unfold whitelist. by rewrite Hp. Qed.

Lemma errorHandler_replies e req w :
  written w = [] →
  errorHandler e req w
  = (Ok Stop,
     set_written [{| code := 500; body := Json (error_body "Internal server error.");
                     patched := send_patched w |}] (set_statusCode 500 w)).
Proof.
  intros Hw. unfold errorHandler, bind, res_status, res_json, res_write, ret.
  cbn. by rewrite Hw.
Qed.

End PipelineFacts.




(** *** Route handlers *)

Section HandlerFacts.
Import Express Libs Handlers.

(** Replying on a response that is still open. *)
Lemma reply_json c v w :
  written w = [] →
  (res_status c;; res_json v) w
  = (Ok tt, set_written (reply c (Json v) w) (set_statusCode c w)).
Proof.
  intros Hw. unfold bind, res_status, res_json, res_write. cbn. by rewrite Hw.
Qed.

Lemma json_open v w :
  written w = [] →
  res_json v w = (Ok tt, set_written (reply (statusCode w) (Json v) w) w).
Proof. intros Hw. unfold res_json, res_write. by rewrite Hw. Qed.


End HandlerFacts.

(** *** What the handlers leave alone, and the timer *)

Section SteadyFacts.
Import Express Libs Handlers Templating Timing.

Lemma steady_refl w : steady w w.
Proof. by repeat split. Qed.

Lemma steady_trans w1 w2 w3 : steady w1 w2 → steady w2 w3 → steady w1 w3.
Proof.
  intros (H1 & T1 & P1 & W1) (H2 & T2 & P2 & W2).
  split; [congruence|]. split; [congruence|]. split; [congruence|].
  intros Hne. rewrite W2; [by apply W1|]. by rewrite W1.
Qed.

Lemma quiet_ret {A} (a : A) : quiet (ret a).
Proof. intros w. apply steady_refl. Qed.

Lemma quiet_throw {A} e : quiet (@throw A e).
Proof. intros w. apply steady_refl. Qed.

Lemma quiet_bind {A B} (m : M A) (f : A → M B) :
  quiet m → (∀ a, quiet (f a)) → quiet (bind m f).
Proof.
  intros Hm Hf w. unfold bind. specialize (Hm w).
  destruct (m w) as [[a|e] w']; [|done].
  eapply steady_trans; [exact Hm|apply Hf].
Qed.

Lemma quiet_try_catch {A} (m : M A) (h : Exn → M A) :
  quiet m → (∀ e, quiet (h e)) → quiet (try_catch m h).
Proof.
  intros Hm Hh w. unfold try_catch. specialize (Hm w).
  destruct (m w) as [[a|e] w']; [done|].
  eapply steady_trans; [exact Hm|apply Hh].
Qed.

Lemma quiet_res_status c : quiet (res_status c).
Proof. intros w. by repeat split. Qed.

Lemma quiet_res_setHeader k v : quiet (res_setHeader k v).
Proof. intros w. unfold res_setHeader. destruct (written w) eqn:E; by repeat split. Qed.

Lemma quiet_res_write b : quiet (res_write b).
Proof. intros w. unfold res_write. destruct (written w) eqn:E; by repeat split. Qed.

Lemma quiet_sync m : quiet m → quiet_task (sync m).
Proof. intros Hm w. unfold sync. specialize (Hm w). by destruct (m w). Qed.

Lemma quiet_pool_query sql params k :
  (∀ r, quiet_task (k r)) → quiet_task (pool_query sql params k).
Proof.
  intros Hk w. unfold pool_query. cbn [complete].
  eapply steady_trans; [|apply Hk]. by repeat split.
Qed.

(** Handlers are built from the operations above: the proof follows their
    syntax. *)
Ltac quiet :=
  repeat (intros;
    lazymatch goal with
    | |- quiet (bind _ _) => apply quiet_bind
    | |- quiet (try_catch _ _) => apply quiet_try_catch
    | |- quiet (ret _) => apply quiet_ret
    | |- quiet (throw _) => apply quiet_throw
    | |- quiet (res_status _) => apply quiet_res_status
    | |- quiet (res_setHeader _ _) => apply quiet_res_setHeader
    | |- quiet (res_json _) => apply quiet_res_write
    | |- quiet (res_send _) => apply quiet_res_write
    | |- quiet_task (sync _) => apply quiet_sync
    | |- quiet_task (pool_query _ _ _) => apply quiet_pool_query
    | |- quiet (match ?x with _ => _ end) => destruct x
    | |- quiet_task (match ?x with _ => _ end) => destruct x
    end).

Lemma quiet_rows sql msg req param : quiet_task (rows_handler sql msg req param).
Proof. unfold rows_handler. quiet. Qed.

Lemma quiet_config req param : quiet_task (get_config req param).
Proof. unfold get_config. quiet. Qed.

Lemma quiet_empresas_details lib req param :
  quiet_task (get_empresas_details lib req param).
Proof. unfold get_empresas_details. quiet. Qed.

Lemma quiet_service req nombre : quiet_task (get_service req nombre).
Proof. unfold get_service, service_failed. quiet. Qed.

Lemma quiet_noticia req id : quiet_task (get_noticia req id).
Proof. unfold get_noticia, noticia_failed. quiet. Qed.

Lemma quiet_invalid : quiet_task invalid_query.
Proof. unfold invalid_query. quiet. Qed.

Lemma quiet_forward q :
  quiet_task (pool_query q [] (λ r,
    sync (try_catch match r with
                    | Some rows => res_json (JArr rows)
                    | None => throw DbError
                    end
            (λ _, res_status 500;; res_json (error_body "Database error."))))).
Proof. quiet. Qed.

Lemma quiet_query req param : quiet_task (post_query req param).
Proof.
  intros w. unfold post_query.
  destruct (req_body w) as [[|x|z|q|bs|items|fs]|];
    try apply quiet_invalid; try apply steady_refl.
  destruct (field (js "query") (JObj fs)) as [[|x|z|q|bs|items|fs']|];
    try apply quiet_invalid.
  destruct (negb _ || _); [apply quiet_invalid|]. apply quiet_forward.
Qed.

Lemma quiet_timedoutGuard req : quiet (timedoutGuard req).
Proof.
  intros w. unfold timedoutGuard. destruct (negb (timedout w)).
  - apply steady_refl.
  - revert w. change (quiet (res_status 408;;
      res_json (error_body "Request timed out. Please try again.");; ret Stop)).
    quiet.
Qed.

Lemma quiet_errorHandler e req : quiet (errorHandler e req).
Proof. unfold errorHandler. quiet. Qed.

Lemma quiet_securityHeaders req : quiet (securityHeaders req).
Proof. unfold securityHeaders. quiet. Qed.

Lemma quiet_whitelist req : quiet (whitelist req).
Proof. unfold whitelist. quiet. Qed.

Lemma quiet_tooBusy req : quiet (tooBusy req).
Proof. unfold tooBusy. quiet. Qed.

Lemma quiet_hits {A} (m : M A) w : quiet m → hits (snd (m w)) = hits w.
Proof. intros Hm. apply (Hm w). Qed.

Lemma quiet_task_hits t w : quiet_task t → hits (snd (complete (t w))) = hits w.
Proof. intros Ht. apply (Ht w). Qed.

(** Once the response has been written, a reply is refused. *)
Lemma refuses_write b : refuses (res_write b).
Proof.
  intros w Hw. unfold res_write. destruct (written w); [done|by eexists].
Qed.

Lemma refuses_reply c b : refuses (res_status c;; res_write b).
Proof.
  intros w Hw. unfold bind, res_status, res_write. cbn [written set_statusCode].
  destruct (written w); [done|by eexists].
Qed.

Lemma fails_refuses {A} (m : M A) : refuses m → fails m.
Proof. intros Hm w Hw. destruct (Hm w Hw) as [w' E]. by eauto. Qed.

Lemma fails_throw {A} e : fails (@throw A e).
Proof. intros w Hw. by eexists _, _. Qed.

Lemma refuses_try_catch {A} (m : M A) (h : Exn → M A) :
  fails m → quiet m → (∀ e, refuses (h e)) → refuses (try_catch m h).
Proof.
  intros Hm Hq Hh w Hw. unfold try_catch.
  destruct (Hm w Hw) as (e & w' & E). destruct (Hq w) as (_ & _ & _ & Hk).
  rewrite E in Hk |- *. cbn [snd] in Hk. apply Hh. by rewrite (Hk Hw).
Qed.

Lemma rejected_sync m : refuses m → rejected (sync m).
Proof.
  intros Hm w Hw. unfold sync. destruct (Hm w Hw) as [w' ->]. reflexivity.
Qed.

Lemma rejected_pool_query sql params k :
  (∀ r, rejected (k r)) → rejected (pool_query sql params k).
Proof. intros Hk w Hw. unfold pool_query. cbn [complete]. by apply Hk. Qed.

Ltac refused :=
  repeat (intros;
    lazymatch goal with
    | |- rejected (sync _) => apply rejected_sync
    | |- rejected (pool_query _ _ _) => apply rejected_pool_query
    | |- rejected (match ?x with _ => _ end) => destruct x
    | |- refuses (try_catch _ _) => apply refuses_try_catch
    | |- refuses (res_status _;; res_json _) => apply refuses_reply
    | |- refuses (res_json _) => apply refuses_write
    | |- refuses (match ?x with _ => _ end) => destruct x
    | |- fails (throw _) => apply fails_throw
    | |- fails (match ?x with _ => _ end) => destruct x
    | |- fails _ => apply fails_refuses
    | |- quiet _ => quiet
    end).

(** Each handler awaits its queries on the open response. *)
Lemma waits_sync p m w : waits_open p (sync m w).
Proof. unfold sync. by destruct (m w). Qed.


Lemma waits_pool_query p sql params k w :
  written w = [] → send_patched w = p →
  (∀ r, quiet_task (k r)) →
  (∀ r, rejected (k r)) →
  (∀ r w', written w' = [] → send_patched w' = p → waits_open p (k r w')) →
  waits_open p (pool_query sql params k w).
Proof.
  intros Hw Hp Hq Hr Hk. unfold pool_query.
  cbn [waits_open written set_queries send_patched].
  split; [done|]. split; [done|]. split; [apply Hq|]. split; [apply Hr|]. by apply Hk.
Qed.

Lemma waits_rows sql msg req param w :
  written w = [] → waits_open (send_patched w) (rows_handler sql msg req param w).
Proof.
  intros Hw. unfold rows_handler.
  apply waits_pool_query; [done|done|quiet|refused|intros; apply waits_sync].
Qed.

Lemma waits_noticia req id w :
  written w = [] → waits_open (send_patched w) (get_noticia req id w).
Proof.
  intros Hw. unfold get_noticia, noticia_failed.
  apply waits_pool_query; [done|done|quiet|refused|intros; apply waits_sync].
Qed.

Lemma waits_service req nombre w :
  written w = [] → waits_open (send_patched w) (get_service req nombre w).
Proof.
  intros Hw. unfold get_service, service_failed.
  apply waits_pool_query; [done|done|quiet|refused|].
  intros [[|service rows]|] w' Hw' Hp'; try apply waits_sync.
  apply waits_pool_query; [done|done|quiet|refused|intros; apply waits_sync].
Qed.


(** An error skips to the global error handler, which answers. *)
Lemma error_to_handler decode L e req tr w :
  forallb (λ l, negb (is_error_layer l)) L = true →
  written w = [] →
  dispatch decode (L ++ [UseError ErrorHandler errorHandler]) (Some e) req tr w
  = Ended (tr ++ [ErrorHandler])
      (set_written (reply 500 (Json (error_body "Internal server error.")) w)
         (set_statusCode 500 w)).
Proof.
  intros HL Hw. rewrite (dispatch_error_skips _ L _ _ _ _ _ HL).
  by rewrite (dispatch_caught _ _ _ _ _ _ _ _ _ (errorHandler_replies e req w Hw)).
Qed.

(** The timer of either server, for the routes that await the pool. *)
Lemma timer_fires lib id req fire :
  In id [GetPresentacion; GetNoticiasDestacadas; GetServices; GetPreguntasFrecuentes;
         GetEmpresas; GetEmpresasDetails; GetService; GetEventos; GetNoticias;
         GetNoticia; PostQuery] →
  fire = ServerJs.timer lib id req ∨ fire = MiddlewareJs.timer lib id req →
  answers_500 fire.
Proof.
  intros Hid Hf.
  assert (∀ app,
            app = ServerJs.app lib ∨ app = MiddlewareJs.app lib →
            after id app = removelast (after id app) ++ [UseError ErrorHandler errorHandler]
            ∧ forallb (λ l, negb (is_error_layer l)) (removelast (after id app)) = true)
    as Hafter.
  { intros app Happ. cbn [In] in Hid.
    repeat (destruct Hid as [<-|Hid];
            [destruct Happ as [-> | ->]; split; reflexivity|]).
    done. }
  assert (∀ app w,
            app = ServerJs.app lib ∨ app = MiddlewareJs.app lib →
            written w = [] →
            timeout_fires true (decodeURIComponent lib) (after id app) req w
            = set_written (reply 500 (Json (error_body "Internal server error.")) w)
                (set_statusCode 500 (set_timedout true w))) as Hopen.
  { intros app w Happ Hw. destruct (Hafter app Happ) as [E HL].
    unfold timeout_fires. rewrite Hw, E.
    by rewrite (error_to_handler _ _ _ _ _ _ HL). }
  split.
  - intros w Hw. destruct Hf as [-> | ->].
    + apply (Hopen _ w (or_introl eq_refl) Hw).
    + apply (Hopen _ w (or_intror eq_refl) Hw).
  - intros w Hw.
    destruct Hf as [-> | ->]; unfold ServerJs.timer, MiddlewareJs.timer, timeout_fires;
      by destruct (written w).
Qed.

(** A handler that goes on after the time-out adds nothing. *)
Lemma late_reply req w W t :
  quiet_task t →
  rejected t →
  written W = reply 500 (Json (error_body "Internal server error.")) w →
  timedout W = true →
  timed_out req w (complete (t W)).
Proof.
  intros Ht Hr HW HT. destruct (Ht W) as (_ & T & _ & Wr).
  split; [apply Hr; by rewrite HW|]. split; [congruence|].
  apply answered_error; [cbn; tauto|]. rewrite Wr; [done|]. by rewrite HW.
Qed.

Lemma timed_during fire req w0 :
  answers_500 fire →
  ∀ s n, waits_open (send_patched w0) s → (n < awaits s)%nat →
         timed_out req w0 (complete_timed fire (Some n) s).
Proof.
  intros [Hopen _]. induction s as [r w|q w k IH]; intros n Hs Hn; cbn in Hn; [lia|].
  cbn [waits_open] in Hs. destruct Hs as (Hw & Hp & Hq & Hr & Hs). destruct n as [|n].
  - cbn [complete_timed]. rewrite (Hopen w Hw).
    apply late_reply; [exact Hq|exact Hr| |done].
    cbn [written set_written]. unfold reply. by rewrite Hp.
  - cbn [complete_timed]. apply IH; [exact Hs|lia].
Qed.

Lemma timed_after fire :
  answers_500 fire →
  ∀ s n, (awaits s ≤ n)%nat → written (snd (complete s)) ≠ [] →
         complete_timed fire (Some n) s = complete s.
Proof.
  intros [_ Hlate]. induction s as [r w|q w k IH]; intros n Hn Hw.
  - cbn [complete_timed complete]. cbn in Hw. by rewrite (Hlate w Hw).
  - cbn in Hn. destruct n as [|n]; [lia|]. cbn [complete_timed complete].
    apply IH; [lia|exact Hw].
Qed.

(** The timer and a handler that waits on an open response and answers in
    the end: the request times out when the timer goes off during one of
    the handler's queries, and the timer changes nothing otherwise. *)
Lemma timer_cases fire fires req w s :
  answers_500 fire →
  waits_open (send_patched w) s →
  written (snd (complete s)) ≠ [] →
  match fires with
  | None => complete_timed fire None s = complete s
  | Some n =>
      if (n <? awaits s)%nat
      then timed_out req w (complete_timed fire fires s)
      else complete_timed fire fires s = complete s
  end.
Proof.
  intros Hf Hs Hw. destruct fires as [n|].
  - destruct (Nat.ltb_spec n (awaits s)).
    + by apply timed_during.
    + by apply timed_after.
  - destruct s; reflexivity.
Qed.

End SteadyFacts.

(** **** C2 (as the code has it). [GET /api/get-service/:nombre], on a
    request that reaches the handler with the response open. The handler
    first issues the service query with the name. Zero rows: 404 with
    [{"error": "Service not found"}] and no second query. At least one row:
    the product-lines query is issued with the [id] of the first row; when it
    succeeds the reply is the object with the two fields [service] and
    [productLines], and when it fails the reply is 500 with
    [{"error": "Database error."}], as it is when the first query fails.
    Express is handed the JSON text of the object; in [server.js], where
    [res.send] is replaced, a text that holds [<!DOCTYPE html>] has its
    [{{SERVER}}] and [{{PORT}}] filled in first. All this unless the timer
    of connect-timeout goes off while the handler awaits one of its queries:
    the client is then answered 500 with [{"error": "Internal server
    error."}] by the global error handler; the handler's own reply is
    refused afterwards, in its [catch] block as well, so that it ends with
    [ERR_HTTP_HEADERS_SENT] uncaught and adds nothing. A timer that goes
    off later changes nothing. *)
Theorem C2_get_service lib fire fires req nombre w :
  fire = ServerJs.timer lib Express.GetService req
  ∨ fire = MiddlewareJs.timer lib Express.GetService req →
  Express.written w = [] →
  Express.statusCode w = 200 →
  let q1 := (Handlers.service_sql, [nombre]) in
  let h := Handlers.get_service req nombre w in
  let u := snd (Express.complete h) in
  let error c msg :=
    Templating.answered req w u c (Express.Json (Express.error_body msg))
      (JsonText.stringify (Express.error_body msg)) in
  match Express.answer w (Express.queries w ++ [q1]) with
  | Some [] =>
      error 404 "Service not found"
      ∧ Express.queries u = Express.queries w ++ [q1]
      ∧ Express.awaits h = 1%nat
  | Some (service :: _) =>
      let q2 := (Handlers.lineaprod_sql, [field (js "id") service]) in
      Express.queries u = Express.queries w ++ [q1; q2]
      ∧ Express.awaits h = 2%nat
      ∧ match Express.answer w (Express.queries w ++ [q1; q2]) with
        | Some rows =>
            let v := JObj [(js "service", service); (js "productLines", JArr rows)] in
            Templating.answered req w u 200 (Express.Json v)
              (if Express.send_patched w
               then Templating.patched_send req (JsonText.stringify v)
               else JsonText.stringify v)
        | None => error 500 "Database error."
        end
  | None =>
      error 500 "Database error."
      ∧ Express.queries u = Express.queries w ++ [q1]
      ∧ Express.awaits h = 1%nat
  end
  ∧ match fires with
    | None => Express.complete_timed fire None h = Express.complete h
    | Some n =>
        if (n <? Express.awaits h)%nat
        then Timing.timed_out req w (Express.complete_timed fire fires h)
        else Express.complete_timed fire fires h = Express.complete h
    end.
Proof.
  intros Hf Hw Hs q1 h u error.
  pose proof (timer_fires lib Express.GetService req fire ltac:(cbn; tauto) Hf) as Hfire.
  assert (Express.written u ≠ [] →
          match fires with
          | None => Express.complete_timed fire None h = Express.complete h
          | Some n =>
              if (n <? Express.awaits h)%nat
              then Timing.timed_out req w (Express.complete_timed fire fires h)
              else Express.complete_timed fire fires h = Express.complete h
          end) as HT.
  { intros Hu. apply timer_cases; [exact Hfire|by apply waits_service|exact Hu]. }
  assert (∀ c msg W, In msg Handlers.error_messages →
            u = Express.set_written
                  (Express.reply c (Express.Json (Express.error_body msg)) w) W →
            error c msg ∧ Express.written u ≠ []) as Herr.
  { intros c msg W Hm E. split; [|by rewrite E].
    apply answered_error; [exact Hm|by rewrite E]. }
  clearbody error. revert HT Herr. subst u h.
  unfold Handlers.get_service, Express.pool_query.
  cbn [Express.complete Express.awaits Express.answer Express.queries Express.set_queries].
  fold q1. destruct (Express.answer w (Express.queries w ++ [q1])) as [[|service rows1]|].
  - unfold Express.sync, Express.try_catch. rewrite reply_json by done.
    cbn [Express.complete Express.awaits snd]. intros HT Herr.
    destruct (Herr 404 "Service not found"%string _ ltac:(cbn; tauto) eq_refl) as [A U].
    split; [|by apply HT]. done.
  - cbn [Express.complete Express.awaits Express.answer Express.queries
         Express.set_queries].
    rewrite <- !(app_assoc (Express.queries w) [q1]). cbn [app].
    destruct (Express.answer w _) as [rows|]; unfold Express.sync, Express.try_catch.
    + rewrite json_open by done.
      cbn [Express.complete Express.awaits snd Express.statusCode Express.set_queries
           Express.queries Express.set_written].
      rewrite Hs. intros HT _. split; [|by apply HT].
      split; [done|]. split; [done|]. by apply answered_with.
    + unfold Express.throw, Handlers.service_failed. rewrite reply_json by done.
      cbn [Express.complete Express.awaits snd Express.queries Express.set_written
           Express.set_statusCode Express.set_queries].
      intros HT Herr.
      destruct (Herr 500 "Database error."%string _ ltac:(cbn; tauto) eq_refl) as [A U].
      split; [|by apply HT]. done.
  - unfold Express.sync, Handlers.service_failed. rewrite reply_json by done.
    cbn [Express.complete Express.awaits snd]. intros HT Herr.
    destruct (Herr 500 "Database error."%string _ ltac:(cbn; tauto) eq_refl) as [A U].
    split; [|by apply HT]. done.
Qed.

(** The service query finds nothing for an unknown name; and the timer
    going off during that query, in [server.js]. *)
Lemma C2_get_service_witness :
  let req := Scenario.request Express.GET "/api/get-service/Catastro" in
  let w := Scenario.start Scenario.empty_db in
  let nombre := Some (JStr (js "Catastro")) in
  let fire := ServerJs.timer RefLib.ref_lib Express.GetService req in
  let h := Handlers.get_service req nombre w in
  (Templating.responses req (snd (Express.complete h))
   = [(404, JsonText.stringify (Express.error_body "Service not found"))]
   ∧ Express.queries (snd (Express.complete h)) = [(Handlers.service_sql, [nombre])])
  ∧ Timing.timed_out req w (Express.complete_timed fire (Some 0%nat) h).
Proof.
  intros req w nombre fire h.
  destruct (C2_get_service RefLib.ref_lib fire (Some 0%nat) req nombre w
              (or_introl eq_refl) eq_refl eq_refl) as [([_ R] & Q & _) T].
  split; [split; [exact R|exact Q]|exact T].
Defined.

(** **** C2, counterexample. The service query returns one row, the
    product-lines query is issued with its id and fails: the reply is the
    500 error object, not an object with [service] and [productLines]. *)
Lemma C2_counterexample_product_lines_fail :
  let w := Scenario.start Scenario.broken_lineaprod in
  let nombre := Some (JStr (js "Mapas")) in
  let r := snd (Express.complete
                  (Handlers.get_service (Scenario.request Express.GET "/api/get-service/Mapas")
                     nombre w)) in
  Express.answer w [(Handlers.service_sql, [nombre])] = Some [Scenario.mapas]
  ∧ Express.queries r
    = [(Handlers.service_sql, [nombre]); (Handlers.lineaprod_sql, [Some (JNum 7)])]
  ∧ Express.written r
    = [ {| Express.code := 500;
           Express.body := Express.Json (Express.error_body "Database error.");
           Express.patched := false |} ].
Proof. vm_compute. repeat split; reflexivity. Qed.




(** *** Oversized bodies *)

(** **** C7 (as the code has it). In [server.js] a request with a JSON or
    urlencoded body over 1 KB that has passed [cors], the whitelist and the
    load check is refused by the body parser that reads its content type,
    before any route handler runs; the error goes to the global error
    handler, so the client is answered 500 with
    [{"error": "Internal server error."}] whatever status the parser's
    error carries. That the parsers refuse such a body, and that
    [express.json] leaves a urlencoded body alone, is what is assumed of
    the library. *)
Theorem C7_oversized_body lib req w w1 :
  Libs.refuses_oversized Express.CtJson Libs.kb1 (Libs.express_json lib Libs.kb1) →
  Libs.refuses_oversized Express.CtUrlencoded Libs.kb1
    (Libs.express_urlencoded lib Libs.kb1) →
  Libs.leaves_alone Express.CtJson (Libs.express_json lib Libs.kb1) →
  Express.content_type req = Express.CtJson
  ∨ Express.content_type req = Express.CtUrlencoded →
  Libs.kb1 < Express.body_length req →
  Libs.cors lib req w = (Express.Ok Express.CallNext, w1) →
  Express.written w1 = [] →
  Handlers.isAllowed (Express.path req) = true →
  Express.busy req = false →
  ∃ w', ServerJs.handle lib req w
        = Express.Ended
            ([Express.Cors; Express.SecurityHeaders; Express.Whitelist;
              Express.TooBusy; Express.JsonParser]
             ++ match Express.content_type req with
                | Express.CtJson => []
                | _ => [Express.UrlencodedParser]
                end
             ++ [Express.ErrorHandler]) w'
      ∧ List.map (λ s, (Express.code s, Express.body s)) (Express.written w')
        = [(500, Express.Json (Express.error_body "Internal server error."))]
      ∧ Templating.responses req w'
        = [(500, JsonText.stringify (Express.error_body "Internal server error."))].
Proof.
  intros Hjson Hform Halone Hct Hlen Hc Hw Hp Hb.
  destruct (securityHeaders_passes req w1 Hw) as (w2 & E2 & W2 & _).
  assert (Handlers.tooBusy req w2 = (Express.Ok Express.CallNext, w2)) as E4.
  { unfold Handlers.tooBusy. by rewrite Hb. }
  assert (∀ e tr w3, Express.written w3 = [] →
            ∃ w',
              Express.dispatch (Libs.decodeURIComponent lib)
                (Handlers.api_routes lib
                 ++ [Express.UseError Express.ErrorHandler Handlers.errorHandler])
                (Some e) req tr w3
              = Express.Ended (tr ++ [Express.ErrorHandler]) w'
              ∧ List.map (λ s, (Express.code s, Express.body s)) (Express.written w')
                = [(500, Express.Json (Express.error_body "Internal server error."))]
              ∧ Templating.responses req w'
                = [(500, JsonText.stringify
                           (Express.error_body "Internal server error."))]) as Hend.
  { intros e tr w3 W3. rewrite (error_to_handler _ (Handlers.api_routes lib) e req tr w3 eq_refl W3).
    eexists. split; [reflexivity|]. split; [reflexivity|].
    rewrite (responses_reply req 500
               (Express.Json (Express.error_body "Internal server error.")) w3)
      by reflexivity.
    cbn [Templating.text_of]. by rewrite through_error by (cbn; tauto). }
  unfold ServerJs.handle, ServerJs.app. rewrite <- !app_comm_cons.
  rewrite (dispatch_pass _ _ _ _ _ _ _ _ Hc).
  rewrite (dispatch_pass _ _ _ _ _ _ _ _ E2).
  rewrite (dispatch_pass _ _ _ _ _ _ _ _ (whitelist_passes req w2 Hp)).
  rewrite (dispatch_pass _ _ _ _ _ _ _ _ E4).
  destruct Hct as [Hct|Hct]; rewrite Hct.
  - destruct (Hjson req w2 Hct Hlen) as (status & w3 & E3 & W3).
    rewrite (dispatch_raise _ _ _ _ _ _ _ _ _ E3).
    rewrite !dispatch_error_skip by reflexivity. rewrite app_nil_l.
    apply Hend. congruence.
  - destruct (Halone req w2 ltac:(congruence)) as (w3 & E3 & W3).
    destruct (Hform req w3 Hct Hlen) as (status & w4 & E5 & W5).
    rewrite (dispatch_pass _ _ _ _ _ _ _ _ E3).
    rewrite (dispatch_raise _ _ _ _ _ _ _ _ _ E5).
    rewrite !dispatch_error_skip by reflexivity. rewrite app_nil_l.
    apply Hend. congruence.
Qed.

(** The reference parsers refuse the 1025-byte urlencoded body of
    [Scenario.oversized_form]. *)
Lemma C7_oversized_body_witness :
  let w := Scenario.start Scenario.empty_db in
  ∃ w', ServerJs.handle RefLib.ref_lib Scenario.oversized_form w
        = Express.Ended [Express.Cors; Express.SecurityHeaders; Express.Whitelist;
                         Express.TooBusy; Express.JsonParser;
                         Express.UrlencodedParser; Express.ErrorHandler] w'
      ∧ List.map (λ s, (Express.code s, Express.body s)) (Express.written w')
        = [(500, Express.Json (Express.error_body "Internal server error."))].
Proof.
  intros w.
  assert (∀ mine ct, (∀ c, mine c = true ↔ c = ct) →
            Libs.refuses_oversized ct Libs.kb1 (RefLib.ref_parser mine Libs.kb1)) as Href.
  { intros mine ct Hmine req w0 Hct Hlen. exists 413.
    exists (match Express.req_body w0 with
            | None => Express.set_req_body (Some (JObj [])) w0
            | Some _ => w0
            end).
    split.
    - unfold RefLib.ref_parser. rewrite (proj2 (Hmine _) Hct).
      destruct (Z.ltb_spec Libs.kb1 (Express.body_length req)); [done|lia].
    - by destruct (Express.req_body w0). }
  destruct (C7_oversized_body RefLib.ref_lib Scenario.oversized_form w
              (snd (RefLib.ref_cors Scenario.oversized_form w)))
    as (w' & E & B & _).
  - apply (Href RefLib.is_json). by intros [].
  - apply (Href RefLib.is_urlencoded). by intros [].
  - intros req w0 Hct.
    exists (match Express.req_body w0 with
            | None => Express.set_req_body (Some (JObj [])) w0
            | Some _ => w0
            end).
    split.
    + cbn. unfold RefLib.ref_parser. by destruct (Express.content_type req).
    + by destruct (Express.req_body w0).
  - right. reflexivity.
  - reflexivity.
  - reflexivity.
  - reflexivity.
  - vm_compute. reflexivity.
  - reflexivity.
  - exists w'. split; [exact E|exact B].
Defined.

(** **** C7, counterexample. A 1025-byte JSON body sent to [/api/query]:
    the parser's 413 never reaches the client, who is answered 500; no route
    handler ran. And a body of 2000 bytes that is neither JSON nor
    urlencoded is read by neither parser: the request goes on to the route
    handler. *)
Lemma C7_counterexample_status_500 :
  let d := ServerJs.handle RefLib.ref_lib Scenario.oversized
             (Scenario.start Scenario.empty_db) in
  let d' := ServerJs.handle RefLib.ref_lib Scenario.oversized_text
              (Scenario.start Scenario.empty_db) in
  Express.body_length Scenario.oversized = 1025
  ∧ Express.trace_of d
    = [Express.Cors; Express.SecurityHeaders; Express.Whitelist;
       Express.TooBusy; Express.JsonParser; Express.ErrorHandler]
  ∧ List.map Express.code (Express.written (Express.world_of d)) = [500]
  ∧ Express.body_length Scenario.oversized_text = 2000
  ∧ last (Express.trace_of d') = Some Express.PostQuery.
Proof. vm_compute. repeat split; reflexivity. Qed.

(** *** Request timeout *)

(** **** C6 (what the code does). The guard that owns the 408 reply runs
    once, right after connect-timeout has set [req.timedout = false], so it
    always passes. When the timer fires while [GET /api/get-services]
    awaits the pool, no source code replies 408: with the library's default
    the error reaches the global error handler and the client gets its 500;
    were the library only to mark the request, the late rows would be sent
    as a 200. Either way the client gets one response and it is not a 408.
    Both [server.js] and [middleware.js]. *)
Theorem C6_timeout_is_not_answered_408 :
  (∀ req w,
     Handlers.timedoutGuard req (snd (Libs.timeout_start req w))
     = (Express.Ok Express.CallNext, snd (Libs.timeout_start req w)))
  ∧ (∀ respond rows,
       let req := Scenario.request Express.GET "/api/get-services" in
       let w0 := Scenario.start Scenario.empty_db in
       let late app := Scenario.late_completion respond RefLib.ref_lib app req w0
                         (Some rows) in
       late (ServerJs.app RefLib.ref_lib)
       = Some [ {| Express.code := if respond then 500 else 200;
                   Express.body :=
                     if respond
                     then Express.Json (Express.error_body "Internal server error.")
                     else Express.Json (JArr rows);
                   Express.patched := true |} ]
       ∧ late (MiddlewareJs.app RefLib.ref_lib)
         = Some [ {| Express.code := if respond then 500 else 200;
                     Express.body :=
                       if respond
                       then Express.Json (Express.error_body "Internal server error.")
                       else Express.Json (JArr rows);
                     Express.patched := false |} ]).
Proof.
  split; [reflexivity|].
  intros [] rows; split; vm_compute; reflexivity.
Qed.

(** *** Rate limiter *)

Section DispatchFacts.
Import Express Libs Handlers Timing Session.

(** One step of the router: the layer is passed over, or it runs and the
    router goes on, or it runs and the dispatch ends with it. *)
Lemma dispatch_cases decode l ls err req tr w :
  let d := dispatch decode (l :: ls) err req tr w in
  (∃ err', d = dispatch decode ls err' req tr w)
  ∨ (∃ err' w', ran l req w w'
                ∧ d = dispatch decode ls err' req (tr ++ [stage_of l]) w')
  ∨ (∃ w', ran l req w w' ∧ trace_of d = tr ++ [stage_of l] ∧ world_of d = w').
Proof.
  intros d. subst d. destruct l as [id mount h|id m pat is_async h|id h];
    cbn [dispatch stage_of ran].
  - destruct err; [left; by eexists|].
    destruct (mounted mount (path req)) eqn:Hm; [|left; by eexists].
    destruct (h req w) as [[[]|e] w'] eqn:E; right.
    + left. by exists None, w'.
    + right. by exists w'.
    + left. by exists (Some e), w'.
  - destruct err; [left; by eexists|].
    destruct (method_matches m (method req)); [|left; by eexists].
    destruct (route_match pat (path req)) as [|raw]; [left; by eexists|].
    assert (∀ param,
              let s := h req (JStr <$> param) w in
              let d := if is_async then Routed (tr ++ [id]) s ls
                       else match s with
                            | Finished (Throw e) w' =>
                                dispatch decode ls (Some e) req (tr ++ [id]) w'
                            | Finished (Ok _) w' => Ended (tr ++ [id]) w'
                            | Awaiting _ _ _ => Routed (tr ++ [id]) s ls
                            end in
              (∃ err' w', (∃ param0, w' = snd (complete (h req param0 w)))
                          ∧ d = dispatch decode ls err' req (tr ++ [id]) w')
              ∨ (∃ w', (∃ param0, w' = snd (complete (h req param0 w)))
                       ∧ trace_of d = tr ++ [id] ∧ world_of d = w')) as Hrun.
    { intros param s d. subst d. destruct is_async.
      - right. eexists. split; [by eexists|]. done.
      - destruct s as [[u|e] w'|q w' k] eqn:Es.
        + right. exists w'. split; [|done]. exists (JStr <$> param).
          fold s. by rewrite Es.
        + left. exists (Some e), w'. split; [|done]. exists (JStr <$> param).
          fold s. by rewrite Es.
        + right. eexists. split; [|done]. exists (JStr <$> param).
          fold s. by rewrite Es. }
    destruct raw as [raw|]; cbn [from_option].
    + destruct (decode raw) as [param|]; [|left; by eexists].
      right. apply (Hrun (Some param)).
    + right. apply (Hrun None).
  - destruct err as [e|]; [|left; by eexists].
    destruct (h e req w) as [[[]|e'] w'] eqn:E; right.
    + left. exists None, w'. split; [|done]. exists e. by rewrite E.
    + right. exists w'. split; [|done]. exists e. by rewrite E.
    + left. exists (Some e'), w'. split; [|done]. exists e. by rewrite E.
Qed.

(** The stages already run stay at the head of the trace. *)
Lemma trace_extends decode ls : ∀ err req tr w,
  ∃ tr', trace_of (dispatch decode ls err req tr w) = tr ++ tr'.
Proof.
  induction ls as [|l ls IH]; intros err req tr w.
  - exists []. cbn. by rewrite app_nil_r.
  - destruct (dispatch_cases decode l ls err req tr w)
      as [(err' & ->)|[(err' & w' & _ & ->)|(w' & _ & -> & _)]].
    + apply IH.
    + destruct (IH err' req (tr ++ [stage_of l]) w') as [tr' ->].
      exists ([stage_of l] ++ tr'). by rewrite app_assoc.
    + by eexists.
Qed.

(** Layers that leave the store of the rate limiter alone make a dispatch
    that leaves it alone. *)
Lemma dispatch_keeps_hits decode req ls :
  Forall (keeps_hits_on req) ls →
  ∀ err tr w, hits (world_of (dispatch decode ls err req tr w)) = hits w.
Proof.
  induction ls as [|l ls IH]; intros Hls err tr w; [done|].
  apply Forall_cons in Hls as [Hl Hls].
  assert (∀ w', ran l req w w' → hits w' = hits w) as Hran.
  { intros w'. destruct l as [id mount h|id m pat is_async h|id h]; cbn [ran keeps_hits_on] in *.
    - intros [Hm ->]. by apply Hl.
    - intros [param ->]. apply Hl.
    - intros [e ->]. apply Hl. }
  destruct (dispatch_cases decode l ls err req tr w)
    as [(err' & ->)|[(err' & w' & Hr & ->)|(w' & Hr & _ & ->)]].
  - by apply IH.
  - rewrite IH by done. by apply Hran.
  - by apply Hran.
Qed.

(** A stage whose layers are not mounted for the request does not run. *)
Lemma trace_avoids decode req s ls :
  Forall (λ l, stage_of l = s →
               match l with
               | Use _ mount _ => mounted mount (path req) = false
               | _ => False
               end) ls →
  ∀ err tr w, ¬ In s tr → ¬ In s (trace_of (dispatch decode ls err req tr w)).
Proof.
  induction ls as [|l ls IH]; intros Hls err tr w Htr; [done|].
  apply Forall_cons in Hls as [Hl Hls].
  assert (∀ w', ran l req w w' → ¬ In s (tr ++ [stage_of l])) as Hran.
  { intros w' Hr Hin. apply in_app_or in Hin as [Hin|[E|[]]]; [done|].
    specialize (Hl E). destruct l; cbn [ran] in Hr; [|done|done].
    destruct Hr as [Hm _]. congruence. }
  destruct (dispatch_cases decode l ls err req tr w)
    as [(err' & ->)|[(err' & w' & Hr & ->)|(w' & Hr & -> & _)]].
  - by apply IH.
  - apply IH; [done|]. by apply (Hran w').
  - by apply (Hran w').
Qed.

End DispatchFacts.
Section LimitedRun.
Import Express Libs Handlers Timing Session.

Variables (decode : jsstring → option jsstring) (handle : Request → World → Dispatch).
Variables (max : Z) (message : string) (P : list Stage) (tl : list Layer).
Variables (reach : Request → Prop) (db : list Query → option (list json)).

Hypothesis Hmax : 0 < max.
Hypothesis Hsplit : ∀ req w,
  reach req → written w = [] →
  ∃ w6, handle req w
        = dispatch decode
            (Use Limiter (Some "/api/"%string) (rateLimit (1 * 60 * 1000) max message)
             :: Use TimeoutStart None timeout_start :: tl) None req P w6
        ∧ written w6 = [] ∧ hits w6 = hits w.
Hypothesis Hframe : ∀ req err tr w,
  hits (world_of (dispatch decode tl err req tr w)) = hits w.

(** One request at the limiter, [c] requests of its client counted in the
    window that started at [t]. *)
Lemma limiter_step req store c t :
  reach req →
  mount_matches "/api/" (path req) = true →
  window req store = (c, t) →
  let d := handle req (fresh db [] store) in
  if c <? max
  then In TimeoutStart (trace_of d)
       ∧ hits (world_of d) = <[ip req := (c + 1, t)]> store
  else last (trace_of d) = Some Limiter
       ∧ List.map (λ s, (code s, body s)) (written (world_of d))
         = [(429, Text (js message))]
       ∧ hits (world_of d) = store.
Proof.
  intros Hr Hm Hwin d. subst d.
  destruct (Hsplit req (fresh db [] store) Hr eq_refl) as (w6 & -> & W6 & H6).
  cbn [dispatch mounted]. rewrite Hm. unfold rateLimit.
  assert (window_of (1 * 60 * 1000) req w6 = (c, t)) as ->.
  { unfold window, window_of in *. rewrite H6. exact Hwin. }
  destruct (Z.ltb_spec max (c + 1)), (Z.ltb_spec c max); try lia.
  - unfold bind, res_status, res_send, res_write, ret.
    cbn [written set_statusCode]. rewrite W6.
    cbn [trace_of world_of written set_written hits set_statusCode List.map code body].
    split; [apply last_snoc|]. split; [done|exact H6].
  - cbn [dispatch mounted timeout_start].
    destruct (trace_extends decode tl None req ((P ++ [Limiter]) ++ [TimeoutStart])
                (set_timedout false
                   (set_hits (<[ip req := (c + 1, t)]> (hits w6)) w6))) as [tr' E].
    rewrite E, Hframe. cbn [hits set_timedout set_hits]. rewrite H6.
    split; [|done]. apply in_or_app. left. apply in_or_app. right. by left.
Qed.

(** A run of requests of one client within its window. *)
Lemma run_counts ip0 t0 reqs : ∀ store c n r,
  store !! ip0 = Some (c, t0) →
  (∀ q, In q reqs →
        ip q = ip0 ∧ arrival q < t0 + 1 * 60 * 1000
        ∧ mount_matches "/api/" (path q) = true ∧ reach q) →
  reqs !! n = Some r →
  ∃ d, serve_all handle db reqs store !! n = Some d
     ∧ hits (world_of d) !! ip0
       = Some (Z.min (c + Z.of_nat n + 1) (Z.max c max), t0)
     ∧ if c + Z.of_nat n <? max
       then In TimeoutStart (trace_of d)
       else last (trace_of d) = Some Limiter
            ∧ List.map (λ s, (code s, body s)) (written (world_of d))
              = [(429, Text (js message))].
Proof.
  induction reqs as [|q reqs IH]; intros store c n r Hs Hall Hn; [done|].
  destruct (Hall q (or_introl eq_refl)) as (Hip & Ht & Hm & Hr).
  assert (window q store = (c, t0)) as Hwin.
  { unfold window, window_of. cbn [hits fresh]. rewrite Hip, Hs.
    by destruct (Z.ltb_spec (arrival q) (t0 + 1 * 60 * 1000)); [|lia]. }
  pose proof (limiter_step q store c t0 Hr Hm Hwin) as Hstep. cbn zeta in Hstep.
  cbn [serve_all]. destruct n as [|n].
  - cbn [lookup list_lookup]. eexists. split; [reflexivity|].
    rewrite Z.add_0_r. destruct (Z.ltb_spec c max).
    + destruct Hstep as [Htr ->]. split; [|done].
      rewrite Hip, lookup_insert_eq. do 2 f_equal. lia.
    + destruct Hstep as (Hl & Hb & ->). split; [|done].
      rewrite Hs. do 2 f_equal. lia.
  - cbn [lookup list_lookup]. cbn in Hn.
    assert (∀ q', In q' reqs →
                  ip q' = ip0 ∧ arrival q' < t0 + 1 * 60 * 1000
                  ∧ mount_matches "/api/" (path q') = true ∧ reach q') as Hall'.
    { intros q' Hq'. apply Hall. by right. }
    destruct (Z.ltb_spec c max).
    + destruct Hstep as [_ ->].
      destruct (IH (<[ip q := (c + 1, t0)]> store) (c + 1) n r) as (d & E & H' & O);
        [by rewrite Hip, lookup_insert_eq|done|done|].
      exists d. split; [done|]. split.
      * rewrite H'. do 2 f_equal. lia.
      * replace (c + Z.of_nat (S n)) with (c + 1 + Z.of_nat n) by lia. exact O.
    + destruct Hstep as (_ & _ & ->).
      destruct (IH store c n r Hs Hall' Hn) as (d & E & H' & O).
      exists d. split; [done|]. split.
      * rewrite H'. do 2 f_equal. lia.
      * destruct (Z.ltb_spec (c + Z.of_nat n) max),
          (Z.ltb_spec (c + Z.of_nat (S n)) max); try lia; done.
Qed.

(** The same for any store: the first request may open a new window. *)
Lemma limited_run first rest store n r :
  let reqs := first :: rest in
  let c0 := fst (window first store) in
  let t0 := snd (window first store) in
  (∀ q, In q reqs →
        ip q = ip first ∧ arrival q < t0 + 1 * 60 * 1000
        ∧ mount_matches "/api/" (path q) = true ∧ reach q) →
  reqs !! n = Some r →
  ∃ d, serve_all handle db reqs store !! n = Some d
     ∧ hits (world_of d) !! ip first
       = Some (Z.min (c0 + Z.of_nat n + 1) (Z.max c0 max), t0)
     ∧ if c0 + Z.of_nat n <? max
       then In TimeoutStart (trace_of d)
       else last (trace_of d) = Some Limiter
            ∧ List.map (λ s, (code s, body s)) (written (world_of d))
              = [(429, Text (js message))].
Proof.
  intros reqs c0 t0 Hall Hn. subst c0 t0.
  destruct (window first store) as [c t] eqn:Hwin. cbn [fst snd] in *.
  assert ((store !! ip first = Some (c, t) ∧ arrival first < t + 1 * 60 * 1000)
          ∨ (c = 0 ∧ t = arrival first)) as [[Hs Ht]|[-> ->]].
  { revert Hwin. unfold window, window_of. cbn [hits fresh].
    destruct (store !! ip first) as [[c' s]|];
      [destruct (Z.ltb_spec (arrival first) (s + 1 * 60 * 1000))|];
      intros [= <- <-]; auto. }
  - by apply (run_counts (ip first) t reqs store c n r).
  - destruct (Hall first (or_introl eq_refl)) as (_ & _ & Hm & Hr).
    pose proof (limiter_step first store 0 (arrival first) Hr Hm Hwin) as Hstep.
    cbn zeta in Hstep. destruct (Z.ltb_spec 0 max); [|lia].
    destruct Hstep as [Htr Hh]. subst reqs. cbn [serve_all]. destruct n as [|n].
    + cbn [lookup list_lookup]. eexists. split; [reflexivity|].
      rewrite Hh, lookup_insert_eq. split; [do 2 f_equal; lia|].
      by destruct (Z.ltb_spec (0 + Z.of_nat 0) max); [|lia].
    + cbn [lookup list_lookup]. cbn in Hn. rewrite Hh.
      destruct (run_counts (ip first) (arrival first) rest
                  (<[ip first := (0 + 1, arrival first)]> store) 1 n r)
        as (d & E & H' & O);
        [by rewrite lookup_insert_eq|intros q Hq; apply Hall; by right|done|].
      exists d. split; [done|]. split.
      * rewrite H'. do 2 f_equal. lia.
      * replace (0 + Z.of_nat (S n)) with (1 + Z.of_nat n) by lia. exact O.
Qed.

End LimitedRun.

Section LimiterFacts.
Import Express Libs Handlers Timing Session.

Ltac keeps_route h :=
  lazymatch h with
  | get_config => apply quiet_config
  | get_empresas_details _ => apply quiet_empresas_details
  | get_service => apply quiet_service
  | get_noticia => apply quiet_noticia
  | post_query => apply quiet_query
  | _ => apply quiet_rows
  end.

Ltac keeps_layer Hpriv :=
  lazymatch goal with
  | |- keeps_hits_on _ (Use Limiter _ _) =>
      cbn [keeps_hits_on mounted]; intros; congruence
  | |- keeps_hits_on _ (Use _ _ securityHeaders) =>
      intros _ w; apply quiet_hits, quiet_securityHeaders
  | |- keeps_hits_on _ (Use _ _ whitelist) =>
      intros _ w; apply quiet_hits, quiet_whitelist
  | |- keeps_hits_on _ (Use _ _ tooBusy) =>
      intros _ w; apply quiet_hits, quiet_tooBusy
  | |- keeps_hits_on _ (Use _ _ timedoutGuard) =>
      intros _ w; apply quiet_hits, quiet_timedoutGuard
  | |- keeps_hits_on _ (Use _ _ timeout_start) => intros _ w; reflexivity
  | |- keeps_hits_on _ (Use _ _ sendPatch) => intros _ w; reflexivity
  | |- keeps_hits_on _ (Use _ _ _) => intros _ w; apply Hpriv
  | |- keeps_hits_on _ (Route _ _ _ _ ?h) =>
      intros param w; apply quiet_task_hits; keeps_route h
  | |- keeps_hits_on _ (UseError _ _) =>
      intros e w; apply quiet_hits, quiet_errorHandler
  end.

Lemma private_store lib :
  store_is_private lib →
  ∀ h, h = cors lib ∨ h = helmet lib ∨ (∃ limit, h = express_json lib limit)
       ∨ (∃ limit, h = express_urlencoded lib limit)
       ∨ (∃ dir, h = express_static lib dir) →
       ∀ req w, hits (snd (h req w)) = hits w.
Proof.
  intros (H1 & H2 & H3 & H4 & H5) h
    [-> |[-> |[[limit ->]|[[limit ->]|[dir ->]]]]] req w;
    [apply H1|apply H2|apply H3|apply H4|apply H5].
Qed.

Ltac private Hpriv :=
  apply (private_store _ Hpriv); eauto 10.

Lemma server_tail lib req :
  store_is_private lib → Forall (keeps_hits_on req) (skipn 8 (ServerJs.app lib)).
Proof.
  intros Hpriv. unfold ServerJs.app, api_routes. cbn [app skipn].
  repeat (constructor; [first [keeps_layer Hpriv|intros _ w; private Hpriv]|]).
  constructor.
Qed.

Lemma middleware_tail lib req :
  store_is_private lib → Forall (keeps_hits_on req) (skipn 6 (MiddlewareJs.app lib)).
Proof.
  intros Hpriv. unfold MiddlewareJs.app, api_routes. cbn [app skipn].
  repeat (constructor; [first [keeps_layer Hpriv|intros _ w; private Hpriv]|]).
  constructor.
Qed.

Lemma apps_whole lib req :
  store_is_private lib →
  mount_matches "/api/" (path req) = false →
  Forall (keeps_hits_on req) (ServerJs.app lib)
  ∧ Forall (keeps_hits_on req) (MiddlewareJs.app lib).
Proof.
  intros Hpriv Hm.
  unfold ServerJs.app, MiddlewareJs.app, api_routes,
    ServerJs.limiter, MiddlewareJs.limiter. cbn [app].
  split;
    repeat (constructor; [first [keeps_layer Hpriv|intros _ w; private Hpriv]|]);
    constructor.
Qed.

Lemma apps_limiter lib req :
  mount_matches "/api/" (path req) = false →
  Forall (λ l, stage_of l = Limiter →
               match l with
               | Use _ mount _ => mounted mount (path req) = false
               | _ => False
               end) (ServerJs.app lib ++ MiddlewareJs.app lib).
Proof.
  intros Hm. unfold ServerJs.app, MiddlewareJs.app, api_routes. cbn [app].
  repeat (constructor; [cbn [stage_of]; intros E; first [discriminate E|exact Hm]|]).
  constructor.
Qed.

Lemma server_split lib req w :
  store_is_private lib →
  ServerJs.reaches_limiter lib req →
  written w = [] →
  ∃ w6, ServerJs.handle lib req w
        = dispatch (decodeURIComponent lib)
            (Use Limiter (Some "/api/"%string)
               (rateLimit (1 * 60 * 1000) 500
                  "Too many requests from this IP, please try again later.")
             :: Use TimeoutStart None timeout_start :: skipn 8 (ServerJs.app lib))
            None req
            [Cors; SecurityHeaders; Whitelist; TooBusy; JsonParser; UrlencodedParser] w6
        ∧ written w6 = [] ∧ hits w6 = hits w.
Proof.
  intros Hpriv (Hc & Hp & Hb & Hj & Hu) Hw.
  destruct (Hc w Hw) as (w1 & E1 & W1).
  destruct (securityHeaders_passes req w1 W1) as (w2 & E2 & W2 & _ & _ & H2 & _).
  assert (tooBusy req w2 = (Ok CallNext, w2)) as E4.
  { unfold tooBusy. by rewrite Hb. }
  destruct (Hj w2 W2) as (w3 & E5 & W3).
  destruct (Hu w3 W3) as (w4 & E6 & W4).
  exists w4. split; [|split; [exact W4|]].
  - unfold ServerJs.handle, ServerJs.app. rewrite <- !app_comm_cons.
    rewrite (dispatch_pass _ _ _ _ _ _ _ _ E1).
    rewrite (dispatch_pass _ _ _ _ _ _ _ _ E2).
    rewrite (dispatch_pass _ _ _ _ _ _ _ _ (whitelist_passes req w2 Hp)).
    rewrite (dispatch_pass _ _ _ _ _ _ _ _ E4).
    rewrite (dispatch_pass _ _ _ _ _ _ _ _ E5).
    rewrite (dispatch_pass _ _ _ _ _ _ _ _ E6).
    reflexivity.
  - pose proof (private_store lib Hpriv) as Hk.
    rewrite <- (Hk (cors lib) ltac:(eauto) req w), E1. cbn [snd]. rewrite <- H2.
    rewrite <- (Hk (express_json lib kb1) ltac:(eauto 10) req w2), E5. cbn [snd].
    rewrite <- (Hk (express_urlencoded lib kb1) ltac:(eauto 10) req w3), E6.
    reflexivity.
Qed.

Lemma middleware_split lib req w :
  store_is_private lib →
  MiddlewareJs.reaches_limiter lib req →
  written w = [] →
  ∃ w6, MiddlewareJs.handle lib req w
        = dispatch (decodeURIComponent lib)
            (Use Limiter (Some "/api/"%string)
               (rateLimit (1 * 60 * 1000) 100
                  "Too many requests, please try again later.")
             :: Use TimeoutStart None timeout_start :: skipn 6 (MiddlewareJs.app lib))
            None req [Cors; Helmet; JsonParser; UrlencodedParser] w6
        ∧ written w6 = [] ∧ hits w6 = hits w.
Proof.
  intros Hpriv (Hc & Hh & Hj & Hu) Hw.
  destruct (Hc w Hw) as (w1 & E1 & W1).
  destruct (Hh w1 W1) as (w2 & E2 & W2).
  destruct (Hj w2 W2) as (w3 & E5 & W3).
  destruct (Hu w3 W3) as (w4 & E6 & W4).
  exists w4. split; [|split; [exact W4|]].
  - unfold MiddlewareJs.handle, MiddlewareJs.app. rewrite <- !app_comm_cons.
    rewrite (dispatch_pass _ _ _ _ _ _ _ _ E1).
    rewrite (dispatch_pass _ _ _ _ _ _ _ _ E2).
    rewrite (dispatch_pass _ _ _ _ _ _ _ _ E5).
    rewrite (dispatch_pass _ _ _ _ _ _ _ _ E6).
    reflexivity.
  - pose proof (private_store lib Hpriv) as Hk.
    rewrite <- (Hk (cors lib) ltac:(eauto) req w), E1. cbn [snd].
    rewrite <- (Hk (helmet lib) ltac:(eauto) req w1), E2. cbn [snd].
    rewrite <- (Hk (express_json lib kb1) ltac:(eauto 10) req w2), E5. cbn [snd].
    rewrite <- (Hk (express_urlencoded lib kb1) ltac:(eauto 10) req w3), E6.
    reflexivity.
Qed.

End LimiterFacts.

(** **** C4 (as the code has it). One client sends a sequence of requests
    for API paths, every one of which gets to the rate limiter, within one
    window of a minute: either the window that is running for the client
    when the first request arrives, with [c0] requests counted in it so far,
    or, when the client is new or its window is over, the window that this
    request opens, with [c0 = 0]. Counting from 0, request [n] is handed on
    by the limiter while [c0 + n] is below the ceiling and is answered 429
    with the configured message from then on, the limiter being the last
    stage to run; so in a new window request number ceiling + 1 is the first
    to get 429. The count stored for the client grows by one with each
    request handed on and stays where it is with each 429. The ceiling is
    500 in [server.js] and 100 in [middleware.js]. A request whose path is
    not under [/api] does not run the limiter and leaves its store as it
    was. *)
Theorem C4_rate_limit lib db first rest store c0 t0 n r :
  Libs.store_is_private lib →
  (store !! Express.ip first = Some (c0, t0)
   ∧ Express.arrival first < t0 + 1 * 60 * 1000)
  ∨ (c0 = 0 ∧ t0 = Express.arrival first
     ∧ match store !! Express.ip first with
       | Some (_, start) => start + 1 * 60 * 1000 <= Express.arrival first
       | None => True
       end) →
  let reqs := first :: rest in
  (∀ q, In q reqs →
        Express.ip q = Express.ip first
        ∧ Express.arrival q < t0 + 1 * 60 * 1000
        ∧ Express.mount_matches "/api/" (Express.path q) = true) →
  reqs !! n = Some r →
  let served (handle : Express.Request → Express.World → Express.Dispatch)
        (max : Z) (message : string) :=
    ∃ d, Session.serve_all handle db reqs store !! n = Some d
       ∧ Express.hits (Express.world_of d) !! Express.ip first
         = Some (Z.min (c0 + Z.of_nat n + 1) (Z.max c0 max), t0)
       ∧ if c0 + Z.of_nat n <? max
         then In Express.TimeoutStart (Express.trace_of d)
         else last (Express.trace_of d) = Some Express.Limiter
              ∧ List.map (λ s, (Express.code s, Express.body s))
                  (Express.written (Express.world_of d))
                = [(429, Express.Text (js message))] in
  ((∀ q, In q reqs → ServerJs.reaches_limiter lib q) →
   served (ServerJs.handle lib) 500
     "Too many requests from this IP, please try again later."%string)
  ∧ ((∀ q, In q reqs → MiddlewareJs.reaches_limiter lib q) →
     served (MiddlewareJs.handle lib) 100
       "Too many requests, please try again later."%string)
  ∧ ∀ req w,
      Express.mount_matches "/api/" (Express.path req) = false →
      ¬ In Express.Limiter (Express.trace_of (ServerJs.handle lib req w))
      ∧ Express.hits (Express.world_of (ServerJs.handle lib req w)) = Express.hits w
      ∧ ¬ In Express.Limiter (Express.trace_of (MiddlewareJs.handle lib req w))
      ∧ Express.hits (Express.world_of (MiddlewareJs.handle lib req w))
        = Express.hits w.
Proof.
  intros Hpriv Hwindow reqs Hall Hn served. subst served.
  assert (Session.window first store = (c0, t0)) as Hwin.
  { unfold Session.window, Libs.window_of. cbn [Express.hits Express.fresh].
    destruct Hwindow as [[-> Ht]|(-> & -> & Hover)].
    - by destruct (Z.ltb_spec (Express.arrival first) (t0 + 1 * 60 * 1000)); [|lia].
    - destruct (store !! Express.ip first) as [[c s]|]; [|done].
      by destruct (Z.ltb_spec (Express.arrival first) (s + 1 * 60 * 1000)); [lia|]. }
  split; [|split].
  - intros Hreach.
    pose proof (limited_run (Libs.decodeURIComponent lib) (ServerJs.handle lib) 500
                  "Too many requests from this IP, please try again later."
                  [Express.Cors; Express.SecurityHeaders; Express.Whitelist;
                   Express.TooBusy; Express.JsonParser; Express.UrlencodedParser]
                  (skipn 8 (ServerJs.app lib)) (ServerJs.reaches_limiter lib) db
                  ltac:(lia)
                  (λ req w Hr Hw, server_split lib req w Hpriv Hr Hw)
                  (λ req err tr w,
                     dispatch_keeps_hits _ req _ (server_tail lib req Hpriv) err tr w)
                  first rest store n r) as H.
    cbn zeta in H. rewrite Hwin in H. cbn [fst snd] in H. apply H; [|exact Hn].
    intros q Hq. destruct (Hall q Hq) as (H1 & H2 & H3). auto.
  - intros Hreach.
    pose proof (limited_run (Libs.decodeURIComponent lib) (MiddlewareJs.handle lib) 100
                  "Too many requests, please try again later."
                  [Express.Cors; Express.Helmet; Express.JsonParser;
                   Express.UrlencodedParser]
                  (skipn 6 (MiddlewareJs.app lib)) (MiddlewareJs.reaches_limiter lib) db
                  ltac:(lia)
                  (λ req w Hr Hw, middleware_split lib req w Hpriv Hr Hw)
                  (λ req err tr w,
                     dispatch_keeps_hits _ req _ (middleware_tail lib req Hpriv)
                       err tr w)
                  first rest store n r) as H.
    cbn zeta in H. rewrite Hwin in H. cbn [fst snd] in H. apply H; [|exact Hn].
    intros q Hq. destruct (Hall q Hq) as (H1 & H2 & H3). auto.
  - intros req w Hm. destruct (apps_whole lib req Hpriv Hm) as [HS HM].
    pose proof (apps_limiter lib req Hm) as HL.
    apply List.Forall_app in HL as [HLs HLm].
    split; [apply trace_avoids; [exact HLs|by intros []]|].
    split; [by apply dispatch_keeps_hits|].
    split; [apply trace_avoids; [exact HLm|by intros []]|].
    by apply dispatch_keeps_hits.
Qed.

(** With the ceiling of [middleware.js]: of 101 requests in a row from a
    new client, the last one is answered 429 by the limiter and the counter
    stays at 100. *)
Lemma C4_rate_limit_witness :
  let first := Scenario.request Express.GET "/api/get-noticias" in
  ∃ d, Session.serve_all (MiddlewareJs.handle RefLib.ref_lib) Scenario.empty_db
         (first :: replicate 100 first) ∅ !! 100%nat = Some d
     ∧ Express.hits (Express.world_of d) !! Express.ip first = Some (100, 0)
     ∧ last (Express.trace_of d) = Some Express.Limiter
     ∧ List.map (λ s, (Express.code s, Express.body s))
         (Express.written (Express.world_of d))
       = [(429, Express.Text (js "Too many requests, please try again later."))].
Proof.
  intros first.
  assert (∀ q, In q (first :: replicate 100 first) → q = first) as Hsame.
  { intros q [<-|Hq]; [done|].
    apply list_elem_of_In, elem_of_replicate_inv in Hq. done. }
  assert (∀ (mine : Express.ContentType → bool) limit req w,
            Express.hits (snd (RefLib.ref_parser mine limit req w)) = Express.hits w)
    as Hparser.
  { intros mine limit req w. unfold RefLib.ref_parser.
    destruct (Express.req_body w), (mine (Express.content_type req)),
      (limit <? Express.body_length req), (Express.payload req); reflexivity. }
  assert (∀ (mine : Express.ContentType → bool),
            mine Express.CtOther = false →
            Libs.hands_on (RefLib.ref_parser mine Libs.kb1) first) as Hhands.
  { intros mine Hmine w Hw. unfold RefLib.ref_parser.
    change (Express.content_type first) with Express.CtOther. rewrite Hmine.
    eexists. split; [reflexivity|]. by destruct (Express.req_body w). }
  assert (Libs.store_is_private RefLib.ref_lib) as Hpriv.
  { split; [|split; [|split; [|split]]].
    - intros req w. unfold RefLib.ref_lib, Libs.cors, RefLib.ref_cors.
      destruct (Express.method req);
        unfold Express.bind, Express.res_setHeader, Express.res_status,
          Express.res_send, Express.res_write, Express.ret;
        cbn [Express.written Express.set_statusCode]; by destruct (Express.written w).
    - intros req w. unfold RefLib.ref_lib, Libs.helmet, RefLib.ref_helmet,
        Express.bind, Express.res_setHeader, Express.ret.
      by destruct (Express.written w).
    - intros limit req w. apply Hparser.
    - intros limit req w. apply Hparser.
    - intros dir req w. reflexivity. }
  assert (∀ q, In q (first :: replicate 100 first) →
               MiddlewareJs.reaches_limiter RefLib.ref_lib q) as Hreach.
  { intros q Hq. rewrite (Hsame q Hq). split; [|split; [|split]].
    - intros w Hw. unfold RefLib.ref_lib, Libs.cors, RefLib.ref_cors.
      change (Express.method first) with Express.GET.
      unfold Express.bind, Express.res_setHeader, Express.ret. rewrite Hw.
      eexists. split; [reflexivity|exact Hw].
    - intros w Hw. unfold RefLib.ref_lib, Libs.helmet, RefLib.ref_helmet,
        Express.bind, Express.res_setHeader, Express.ret. rewrite Hw.
      eexists. split; [reflexivity|exact Hw].
    - by apply (Hhands RefLib.is_json).
    - by apply (Hhands RefLib.is_urlencoded). }
  assert (∀ q, In q (first :: replicate 100 first) →
               Express.ip q = Express.ip first
               ∧ Express.arrival q < 0 + 1 * 60 * 1000
               ∧ Express.mount_matches "/api/" (Express.path q) = true) as Hall.
  { intros q Hq. rewrite (Hsame q Hq). repeat split; vm_compute; reflexivity. }
  assert ((∅ : gmap string (Z * Z)) !! Express.ip first = Some (0, 0)
          ∧ Express.arrival first < 0 + 1 * 60 * 1000
          ∨ 0 = 0 ∧ 0 = Express.arrival first
            ∧ match (∅ : gmap string (Z * Z)) !! Express.ip first with
              | Some (_, start) => start + 1 * 60 * 1000 <= Express.arrival first
              | None => True
              end) as Hnew.
  { right. split; [reflexivity|]. split; [reflexivity|]. by rewrite lookup_empty. }
  destruct (proj1 (proj2 (C4_rate_limit RefLib.ref_lib Scenario.empty_db first
                            (replicate 100 first) ∅ 0 0 100 first Hpriv Hnew Hall
                            eq_refl))
              Hreach) as (d & E & H & O).
  exists d. split; [exact E|]. split; [exact H|exact O].
Defined.

(** **** C4, counterexample. In [server.js] the load check comes before the
    rate limiter. A client sends 501 requests for [/api/get-noticias] within
    one minute and the process is too busy when the first arrives: that one
    is answered 503 and is not counted, so request number 501 is the 500th
    the limiter sees; it is handed on and served with status 200. *)
Lemma C4_counterexample_busy_not_counted :
  let ds := Session.serve_all (ServerJs.handle RefLib.ref_lib) Scenario.empty_db
              Session.after_a_busy_moment ∅ in
  length Session.after_a_busy_moment = 501%nat
  ∧ forallb (λ q, bool_decide (Express.ip q = "10.0.0.1"%string)
                  && (Express.arrival q =? 0)
                  && Express.mount_matches "/api/" (Express.path q))
      Session.after_a_busy_moment = true
  ∧ option_map (λ d, (Express.trace_of d,
                      List.map Express.code (Express.written (Express.world_of d))))
      (ds !! 0%nat)
    = Some ([Express.Cors; Express.SecurityHeaders; Express.Whitelist; Express.TooBusy],
            [503])
  ∧ option_map (λ d, (last (Express.trace_of d),
                      List.map Express.code (Express.written (Express.world_of d)),
                      Express.hits (Express.world_of d) !! "10.0.0.1"%string))
      (ds !! 500%nat)
    = Some (Some Express.GetNoticias, [200], Some (500, 0)).
Proof. vm_compute. repeat split; reflexivity. Qed.

(** *** Error responses *)

Section ShapeFacts.
Import Express Libs Handlers.

Lemma shape_nothing : only_error_objects [].
Proof. intros s []. Qed.

Lemma shape_success b w : only_error_objects (reply 200 b w).
Proof. intros s [<-|[]]. cbn. lia. Qed.

Lemma shape_error c msg w :
  In msg error_messages → only_error_objects (reply c (Json (error_body msg)) w).
Proof. intros Hm s [<-|[]] _. by exists msg. Qed.

Lemma shape_json_sent x c msg w :
  written w = [] → statusCode w = 200 →
  only_error_objects
    (written (snd (complete (sync (try_catch (res_json x)
       (λ _, res_status c;; res_json (error_body msg))) w)))).
Proof.
  intros Hw Hs. unfold sync, try_catch.
  rewrite json_open by done. cbn. rewrite Hs. apply shape_success.
Qed.

Lemma shape_json_failed c msg w :
  written w = [] → In msg error_messages →
  only_error_objects
    (written (snd (complete (sync (try_catch (throw DbError)
       (λ _, res_status c;; res_json (error_body msg))) w)))).
Proof.
  intros Hw Hm. unfold sync, try_catch, throw.
  rewrite reply_json by done. cbn. by apply shape_error.
Qed.

Lemma shape_rows sql msg req param w :
  In msg error_messages → written w = [] → statusCode w = 200 →
  only_error_objects (written (snd (complete (rows_handler sql msg req param w)))).
Proof.
  intros Hm Hw Hs. unfold rows_handler, pool_query. cbn [complete].
  destruct (answer _ _) as [rows|].
  - apply shape_json_sent; [exact Hw|exact Hs].
  - apply shape_json_failed; [exact Hw|exact Hm].
Qed.

Lemma shape_empresas_details lib req param w :
  written w = [] → statusCode w = 200 →
  only_error_objects
    (written (snd (complete (get_empresas_details lib req param w)))).
Proof.
  intros Hw Hs. unfold get_empresas_details, pool_query. cbn [complete].
  destruct (answer _ _) as [rows|].
  - destruct (encode_logos (toString_base64 lib) rows) as [cs|e].
    + apply shape_json_sent; [exact Hw|exact Hs].
    + unfold sync, try_catch, throw. rewrite reply_json by exact Hw. cbn.
      apply shape_error. cbn; tauto.
  - apply shape_json_failed; [exact Hw|cbn; tauto].
Qed.

Lemma shape_service req nombre w :
  written w = [] → statusCode w = 200 →
  only_error_objects (written (snd (complete (get_service req nombre w)))).
Proof.
  intros Hw Hs. unfold get_service, pool_query, service_failed. cbn [complete].
  destruct (answer _ _) as [[|service rows1]|].
  - unfold sync, try_catch. rewrite reply_json by exact Hw. cbn.
    apply shape_error. cbn; tauto.
  - cbn [complete]. destruct (answer _ _) as [rows|].
    + apply shape_json_sent; [exact Hw|exact Hs].
    + apply shape_json_failed; [exact Hw|cbn; tauto].
  - unfold sync. rewrite reply_json by exact Hw. cbn.
    apply shape_error. cbn; tauto.
Qed.

Lemma shape_noticia req id w :
  written w = [] → statusCode w = 200 →
  only_error_objects (written (snd (complete (get_noticia req id w)))).
Proof.
  intros Hw Hs. unfold get_noticia, pool_query, noticia_failed. cbn [complete].
  destruct (answer _ _) as [[|noticia rows1]|].
  - unfold sync, try_catch. rewrite reply_json by exact Hw. cbn.
    apply shape_error. cbn; tauto.
  - apply shape_json_sent; [exact Hw|exact Hs].
  - apply shape_json_failed; [exact Hw|cbn; tauto].
Qed.

Lemma shape_invalid w :
  written w = [] → only_error_objects (written (snd (complete (invalid_query w)))).
Proof.
  intros Hw. unfold invalid_query, sync. rewrite reply_json by done. cbn.
  apply shape_error. cbn; tauto.
Qed.

Lemma shape_query req param w :
  written w = [] → statusCode w = 200 →
  only_error_objects (written (snd (complete (post_query req param w)))).
Proof.
  intros Hw Hs. unfold post_query.
  destruct (req_body w) as [b|]; [|cbn; rewrite Hw; apply shape_nothing].
  destruct b as [|x|z|q|bs|items|fs];
    try (cbn [field]; by apply shape_invalid);
    [cbn; rewrite Hw; apply shape_nothing|].
  destruct (field (js "query") (JObj fs)) as [[|x|z|q|bs|items|fs']|];
    try by apply shape_invalid.
  destruct (negb _ || _); [by apply shape_invalid|].
  unfold pool_query. cbn [complete]. destruct (answer _ _) as [rows|].
  - apply shape_json_sent; [exact Hw|exact Hs].
  - apply shape_json_failed; [exact Hw|cbn; tauto].
Qed.

Lemma shape_config req param w :
  written w = [] → statusCode w = 200 →
  only_error_objects (written (snd (complete (get_config req param w)))).
Proof.
  intros Hw Hs. unfold get_config, sync.
  destruct (host req) as [h|].
  - rewrite json_open by done. cbn. rewrite Hs. apply shape_success.
  - cbn. rewrite Hw. apply shape_nothing.
Qed.

Lemma gate_reply c v w :
  written w = [] →
  (res_status c;; res_json v;; ret Stop) w
  = (Ok Stop, set_written (reply c (Json v) w) (set_statusCode c w)).
Proof.
  intros Hw. unfold bind, res_status, res_json, res_write, ret. cbn. by rewrite Hw.
Qed.

Lemma shape_tooBusy req w :
  written w = [] → only_error_objects (written (snd (tooBusy req w))).
Proof.
  intros Hw. unfold tooBusy. destruct (busy req).
  - rewrite gate_reply by exact Hw. cbn. apply (shape_error 503 _ w). cbn; tauto.
  - cbn. rewrite Hw. apply shape_nothing.
Qed.

Lemma shape_timedoutGuard req w :
  written w = [] → only_error_objects (written (snd (timedoutGuard req w))).
Proof.
  intros Hw. unfold timedoutGuard. destruct (timedout w); cbn [negb].
  - rewrite gate_reply by exact Hw. cbn. apply (shape_error 408 _ w). cbn; tauto.
  - cbn. rewrite Hw. apply shape_nothing.
Qed.

Lemma shape_errorHandler e req w :
  written w = [] → only_error_objects (written (snd (errorHandler e req w))).
Proof.
  intros Hw. rewrite errorHandler_replies by done. cbn.
  apply (shape_error 500 _ w). cbn; tauto.
Qed.

Lemma shape_whitelist req w :
  written w = [] →
  only_text 403 "Access Forbidden" (written (snd (whitelist req w))).
Proof.
  intros Hw. destruct (isAllowed (path req)) eqn:Hp.
  - rewrite whitelist_passes by done. cbn. rewrite Hw. by intros s [].
  - rewrite whitelist_blocks by done. cbn. by intros s [<-|[]].
Qed.

End ShapeFacts.

Section ShapeOfLayers.
Import Express Libs Handlers.

Lemma shape_rateLimit windowMs max message req w :
  written w = [] →
  only_text 429 message (written (snd (rateLimit windowMs max message req w))).
Proof.
  intros Hw. unfold rateLimit. destruct (window_of windowMs req w) as [count start].
  destruct (max <? count + 1).
  - unfold bind, res_status, res_send, res_write, ret. cbn. rewrite Hw.
    by intros s [<-|[]].
  - cbn. rewrite Hw. by intros s [].
Qed.

Lemma shape_sendPatch req w :
  written w = [] → only_error_objects (written (snd (sendPatch req w))).
Proof. intros Hw. cbn. rewrite Hw. apply shape_nothing. Qed.

Lemma shape_securityHeaders req w :
  written w = [] → only_error_objects (written (snd (securityHeaders req w))).
Proof.
  intros Hw. destruct (securityHeaders_passes req w Hw) as (w' & E & W & _).
  rewrite E. cbn. rewrite W. apply shape_nothing.
Qed.

Ltac shape_of_handler h Hw Hs :=
  lazymatch h with
  | get_config => apply shape_config; [exact Hw|exact Hs]
  | get_empresas_details _ => apply shape_empresas_details; [exact Hw|exact Hs]
  | get_service => apply shape_service; [exact Hw|exact Hs]
  | get_noticia => apply shape_noticia; [exact Hw|exact Hs]
  | post_query => apply shape_query; [exact Hw|exact Hs]
  | _ => apply shape_rows; [cbn; tauto|exact Hw|exact Hs]
  end.

Ltac shape_of_layer Hw Hs :=
  lazymatch goal with
  | |- True => exact I
  | |- only_text 403 _ _ => apply shape_whitelist; exact Hw
  | |- ex _ => eexists; apply shape_rateLimit; exact Hw
  | |- only_error_objects (written (snd (securityHeaders _ _))) =>
      apply shape_securityHeaders; exact Hw
  | |- only_error_objects (written (snd (tooBusy _ _))) =>
      apply shape_tooBusy; exact Hw
  | |- only_error_objects (written (snd (timedoutGuard _ _))) =>
      apply shape_timedoutGuard; exact Hw
  | |- only_error_objects (written (snd (sendPatch _ _))) =>
      apply shape_sendPatch; exact Hw
  | |- forall e, only_error_objects (written (snd (errorHandler _ _ _))) =>
      intros e; apply shape_errorHandler; exact Hw
  | |- forall p, only_error_objects (written (snd (complete (?h _ _ _)))) =>
      intros p; shape_of_handler h Hw Hs
  end.

Lemma shape_of_every_layer lib :
  Forall error_shape (ServerJs.app lib ++ MiddlewareJs.app lib).
Proof.
  unfold ServerJs.app, MiddlewareJs.app, api_routes,
    ServerJs.limiter, MiddlewareJs.limiter.
  cbn [app].
  repeat (constructor;
          [intros req w Hw Hs; cbn [of_library]; shape_of_layer Hw Hs|]).
  constructor.
Qed.

End ShapeOfLayers.

(** **** C8 (as the code has it). Every layer that [server.js] and
    [middleware.js] write themselves sends, as an error response, only a
    JSON object with the single field [error] holding one of ten fixed
    messages, so neither a stack trace nor the text of a database error.
    Two layers reply in plain text instead: the whitelist gate (403,
    [Access Forbidden]) and the rate limiter, whose 429 body is the string
    the sources pass as [message]. *)
Theorem C8_error_responses lib l :
  In l (ServerJs.app lib ++ MiddlewareJs.app lib) →
  Handlers.error_shape l.
Proof.
  intros Hin.
  exact (proj1 (List.Forall_forall _ _) (shape_of_every_layer lib) l Hin).
Qed.

(** The handler of [GET /api/get-noticia/:id] is one of the layers. *)
Lemma C8_error_responses_witness :
  Handlers.error_shape
    (Express.Route Express.GetNoticia Express.GET
       (Express.WithParam "/api/get-noticia/") true Handlers.get_noticia).
Proof.
  apply (C8_error_responses RefLib.ref_lib).
  cbn [In app ServerJs.app MiddlewareJs.app Handlers.api_routes].
  do 24 right. left. reflexivity.
Defined.

(** **** C8, counterexample. The 501st request of a client within the
    minute is answered by the rate limiter of [server.js]: status 429 with
    the plain string of its [message] option, not a JSON object. *)
Lemma C8_counterexample_rate_limit_text :
  let d := ServerJs.handle RefLib.ref_lib
             (Scenario.request Express.GET "/api/get-noticias") Scenario.spent in
  Express.trace_of d
  = [Express.Cors; Express.SecurityHeaders; Express.Whitelist; Express.TooBusy;
     Express.JsonParser; Express.UrlencodedParser; Express.Limiter]
  ∧ Express.written (Express.world_of d)
    = [ {| Express.code := 429;
           Express.body :=
             Express.Text
               (js "Too many requests from this IP, please try again later.");
           Express.patched := false |} ].
Proof. vm_compute. split; reflexivity. Qed.

(* ===================================================================== *)
(** ** Part III. Further properties of the sources                       *)
(* ===================================================================== *)

(** *** Connection tracker: the caps *)

(** **** X1. In any state the trackers reach, a new connection is destroyed
    exactly when its address already has as many open sockets as the cap
    (50 in [server.js], 10 in [middleware.js]) or, in [server.js], when 400
    timestamps are already queued for it. *)
Theorem X1_destroyed_at_the_cap :
  (∀ es ra t_push now,
     let st := Tracker.run es Tracker.init in
     let ip := Tracker.ip_of ra in
     snd (Tracker.on_connection ra t_push now st) = true
     ↔ (50 ≤ Tracker.live ip st)%nat
       ∨ (400 ≤ length (default [] (Tracker.requestQueue st !! ip)))%nat)
  ∧ (∀ es ip,
       let st := TrackerMw.run es TrackerMw.init in
       snd (TrackerMw.on_connection ip st) = true ↔ (10 ≤ TrackerMw.live ip st)%nat).
Proof.
  split.
  - intros es ra t_push now st ip.
    pose proof (counts_open_run es _ counts_open_init ip) as I. fold st in I.
    cbn [snd Tracker.on_connection]. fold ip.
    unfold Tracker.destroys, Tracker.bumped, Tracker.pushed.
    rewrite I, orb_true_iff. cbn [num_gt].
    rewrite !Z.ltb_lt, length_app. cbn [length].
    unfold Tracker.MAX_CONNECTIONS_PER_IP, Tracker.MAX_QUEUE_SIZE.
    case_decide as H0; cbn [or_zero]; lia.
  - intros es ip st.
    pose proof (counts_open_mw_run es _ counts_open_mw_init ip) as I. fold st in I.
    cbn [snd TrackerMw.on_connection]. rewrite lookup_insert_eq.
    unfold TrackerMw.bumped. rewrite I. cbn [to_number num_gt]. rewrite Z.ltb_lt.
    case_decide as H0; cbn [or_zero]; lia.
Qed.

(** *** Connection tracker: the queue under a monotone clock *)

Section ClockFacts.
Import Tracker TrackerClock.

Lemma sorted_snoc q t :
  StronglySorted Z.le q → Forall (λ u, u <= t) q → StronglySorted Z.le (q ++ [t]).
Proof.
  induction 1 as [|u q Hq IH Hu]; intros Hle; cbn.
  - repeat constructor.
  - apply Forall_cons_1 in Hle as [Hut Hle]. constructor; [by apply IH|].
    apply Forall_app. split; [done|]. by repeat constructor.
Qed.

Lemma prune_sorted now q :
  StronglySorted Z.le q → prune now q = recent now q ∧ StronglySorted Z.le (prune now q).
Proof.
  induction 1 as [|t q Hq IH Ht]; [by split; [|constructor]|].
  unfold recent in *. cbn [prune List.filter].
  destruct (Z.ltb_spec t (now - 60000)), (Z.leb_spec (now - 60000) t); try lia.
  - exact IH.
  - split; [|by constructor]. f_equal.
    clear IH Hq. induction Ht as [|u q Hu Ht IH]; [done|].
    cbn [List.filter]. destruct (Z.leb_spec (now - 60000) u); [|lia].
    by rewrite <- IH.
Qed.

Lemma recent_bounded now q t :
  Forall (λ u, u <= t) q → Forall (λ u, u <= t) (recent now q).
Proof.
  unfold recent. induction 1 as [|u q Hu Hq IH]; cbn [List.filter]; [done|].
  destruct (now - 60000 <=? u); [by constructor|done].
Qed.

Lemma queues_ordered_later last last' st :
  last <= last' → queues_ordered last st → queues_ordered last' st.
Proof.
  intros Hl I ip q Hq. destruct (I ip q Hq) as [S B]. split; [done|].
  eapply Forall_impl; [exact B|]. cbn. intros; lia.
Qed.

Lemma queue_after_connection last ra t_push now st :
  queues_ordered last st → last <= t_push → t_push <= now →
  let ip := ip_of ra in
  requestQueue (step st (Connection ra t_push now)) !! ip
  = Some (recent now (default [] (requestQueue st !! ip) ++ [t_push]))
  ∧ queues_ordered now (step st (Connection ra t_push now)).
Proof.
  intros I H1 H2 ip.
  assert (StronglySorted Z.le (default [] (requestQueue st !! ip) ++ [t_push])
          ∧ Forall (λ u, u <= now) (default [] (requestQueue st !! ip) ++ [t_push]))
    as [S B].
  { destruct (requestQueue st !! ip) as [q|] eqn:Hq; cbn [default].
    - destruct (I ip q Hq) as [S B]. split.
      + apply sorted_snoc; [done|]. eapply Forall_impl; [exact B|]. cbn. intros; lia.
      + apply Forall_app. split; [|by repeat constructor].
        eapply Forall_impl; [exact B|]. cbn. intros; lia.
    - split; repeat constructor. done. }
  destruct (prune_sorted now _ S) as [E S'].
  cbn [step fst on_connection requestQueue]. fold ip. unfold pushed.
  split; [by rewrite lookup_insert_eq, E|].
  intros ip' q. cbn [step fst on_connection requestQueue]. fold ip. unfold pushed.
  destruct (decide (ip = ip')) as [<-|Hne].
  - rewrite lookup_insert_eq. intros [= <-]. split; [done|].
    rewrite E. by apply recent_bounded.
  - rewrite lookup_insert_ne by done. intros Hq.
    eapply (queues_ordered_later last now); [lia|exact I|exact Hq].
Qed.

Lemma queues_ordered_run es : ∀ last st,
  queues_ordered last st → clock_ok last es = true →
  queues_ordered (last_clock last es) (run es st).
Proof.
  induction es as [|[ra t_push now|sock] es IH]; intros last st I Hc; [done| |].
  - cbn [clock_ok] in Hc. apply andb_prop in Hc as [Hc Hrest].
    apply andb_prop in Hc as [H1 H2]. apply Z.leb_le in H1, H2.
    cbn [last_clock run fold_left]. apply IH; [|done].
    by apply (queue_after_connection last).
  - cbn [clock_ok] in Hc. cbn [last_clock run fold_left]. apply IH; [|done].
    intros ip q. cbn [step]. unfold on_close.
    destruct (take_listener sock (listeners st)) as [[a r]|]; apply I.
Qed.

Lemma clock_ok_snoc es : ∀ last ra t_push now,
  clock_ok last (es ++ [Connection ra t_push now]) = true →
  clock_ok last es = true ∧ last_clock last es <= t_push ∧ t_push <= now.
Proof.
  induction es as [|[ra' t1 t2|sock] es IH]; intros last ra t_push now; cbn.
  - rewrite !andb_true_iff, !Z.leb_le. tauto.
  - rewrite !andb_true_iff. intros [[H1 H2] H3].
    destruct (IH _ _ _ _ H3) as (? & ? & ?). tauto.
  - apply IH.
Qed.

End ClockFacts.

(** **** X2. While the clock never goes back, the queue kept for an address
    after a connection event is exactly the earlier queue plus the new
    timestamp, minus every timestamp older than 60 s: trimming the front
    loses nothing, because the queue is in time order. *)
Theorem X2_queue_is_the_last_minute es t0 ra t_push now :
  TrackerClock.clock_ok t0 (es ++ [Tracker.Connection ra t_push now]) = true →
  let st := Tracker.run es Tracker.init in
  let ip := Tracker.ip_of ra in
  Tracker.requestQueue (Tracker.step st (Tracker.Connection ra t_push now)) !! ip
  = Some (TrackerClock.recent now
            (default [] (Tracker.requestQueue st !! ip) ++ [t_push])).
Proof.
  intros Hc st ip.
  destruct (clock_ok_snoc es t0 ra t_push now Hc) as (Hes & H1 & H2).
  assert (TrackerClock.queues_ordered t0 Tracker.init) as I0 by (intros ? ? [=]).
  pose proof (queues_ordered_run es t0 _ I0 Hes) as I.
  exact (proj1 (queue_after_connection _ ra t_push now _ I H1 H2)).
Qed.

(** Three connections of one client, 50 s apart: the first has left the
    queue when the third arrives. *)
Lemma X2_queue_is_the_last_minute_witness :
  let a := Some "10.0.0.1"%string in
  let es := [Tracker.Connection a 0 0; Tracker.Connection a 50000 50000] in
  Tracker.requestQueue
    (Tracker.step (Tracker.run es Tracker.init) (Tracker.Connection a 100000 100001))
  !! "10.0.0.1"%string
  = Some (TrackerClock.recent 100001
            (default [] (Tracker.requestQueue (Tracker.run es Tracker.init)
                         !! "10.0.0.1"%string) ++ [100000])).
Proof.
  intros a es.
  exact (X2_queue_is_the_last_minute es 0 a 100000 100001 eq_refl).
Defined.

(** *** Route handlers: what each one answers *)

(** **** X4. [GET /api/get-noticia/:id], on a request that reaches the
    handler with the response open, issues one query with the id. No row:
    404 with [{"error": "Noticia no encontrada"}]. Otherwise the first row
    is sent as a single object (not an array), any further row being
    dropped; Express is handed its JSON text, which the [res.send] of
    [server.js] rewrites when it holds [<!DOCTYPE html>]. A failing query
    gives 500 with [{"error": "Error al obtener la noticia"}]. When the
    timer of connect-timeout goes off during the query, the client is
    answered 500 with [{"error": "Internal server error."}] instead, and
    the handler ends with [ERR_HTTP_HEADERS_SENT] uncaught. *)
Theorem X4_get_noticia lib fire fires req id w :
  fire = ServerJs.timer lib Express.GetNoticia req
  ∨ fire = MiddlewareJs.timer lib Express.GetNoticia req →
  Express.written w = [] →
  Express.statusCode w = 200 →
  let q := (Handlers.noticia_sql, [id]) in
  let h := Handlers.get_noticia req id w in
  let u := snd (Express.complete h) in
  let error c msg :=
    Templating.answered req w u c (Express.Json (Express.error_body msg))
      (JsonText.stringify (Express.error_body msg)) in
  Express.queries u = Express.queries w ++ [q]
  ∧ Express.awaits h = 1%nat
  ∧ match Express.answer w (Express.queries w ++ [q]) with
    | Some [] => error 404 "Noticia no encontrada"
    | Some (noticia :: _) =>
        Templating.answered req w u 200 (Express.Json noticia)
          (if Express.send_patched w
           then Templating.patched_send req (JsonText.stringify noticia)
           else JsonText.stringify noticia)
    | None => error 500 "Error al obtener la noticia"
    end
  ∧ match fires with
    | None => Express.complete_timed fire None h = Express.complete h
    | Some n =>
        if (n <? Express.awaits h)%nat
        then Timing.timed_out req w (Express.complete_timed fire fires h)
        else Express.complete_timed fire fires h = Express.complete h
    end.
Proof.
  intros Hf Hw Hs q h u error.
  pose proof (timer_fires lib Express.GetNoticia req fire ltac:(cbn; tauto) Hf) as Hfire.
  assert (Express.written u ≠ [] →
          match fires with
          | None => Express.complete_timed fire None h = Express.complete h
          | Some n =>
              if (n <? Express.awaits h)%nat
              then Timing.timed_out req w (Express.complete_timed fire fires h)
              else Express.complete_timed fire fires h = Express.complete h
          end) as HT.
  { intros Hu. apply timer_cases; [exact Hfire|by apply waits_noticia|exact Hu]. }
  assert (∀ c msg W, In msg Handlers.error_messages →
            u = Express.set_written
                  (Express.reply c (Express.Json (Express.error_body msg)) w) W →
            error c msg ∧ Express.written u ≠ []) as Herr.
  { intros c msg W Hm E. split; [|by rewrite E].
    apply answered_error; [exact Hm|by rewrite E]. }
  clearbody error. revert HT Herr. subst u h.
  unfold Handlers.get_noticia, Express.pool_query.
  cbn [Express.complete Express.awaits Express.answer Express.queries Express.set_queries].
  fold q. destruct (Express.answer w (Express.queries w ++ [q])) as [[|noticia rows]|];
    unfold Express.sync, Express.try_catch.
  - rewrite reply_json by done. cbn [Express.complete Express.awaits snd].
    intros HT Herr.
    destruct (Herr 404 "Noticia no encontrada"%string _ ltac:(cbn; tauto) eq_refl)
      as [A U].
    split; [done|]. split; [done|]. split; [exact A|by apply HT].
  - rewrite json_open by done.
    cbn [Express.complete Express.awaits snd Express.statusCode Express.set_queries
         Express.queries Express.set_written].
    rewrite Hs. intros HT _.
    split; [done|]. split; [done|]. split; [by apply answered_with|by apply HT].
  - unfold Express.throw, Handlers.noticia_failed. rewrite reply_json by done.
    cbn [Express.complete Express.awaits snd]. intros HT Herr.
    destruct (Herr 500 "Error al obtener la noticia"%string _ ltac:(cbn; tauto) eq_refl)
      as [A U].
    split; [done|]. split; [done|]. split; [exact A|by apply HT].
Qed.

(** Two rows come back: the first is the reply. *)
Lemma X4_get_noticia_witness :
  let req := Scenario.request Express.GET "/api/get-noticia/1" in
  let w := Scenario.start HandlerScenario.news_db in
  let id := Some (JStr (js "1")) in
  let u := snd (Express.complete (Handlers.get_noticia req id w)) in
  Express.queries u = [(Handlers.noticia_sql, [id])]
  ∧ Templating.responses req u
    = [(200, JsonText.stringify HandlerScenario.noticia_1)].
Proof.
  intros req w id u.
  destruct (X4_get_noticia RefLib.ref_lib
              (ServerJs.timer RefLib.ref_lib Express.GetNoticia req) None req id w
              (or_introl eq_refl) eq_refl eq_refl) as (Q & _ & [_ R] & _).
  split; [exact Q|exact R].
Defined.

Section ListFacts.
Import Express Libs Handlers Templating Timing.

Lemma rows_run lib id sql msg fire fires req param w :
  In id [GetPresentacion; GetNoticiasDestacadas; GetServices; GetPreguntasFrecuentes;
         GetEmpresas; GetEmpresasDetails; GetService; GetEventos; GetNoticias;
         GetNoticia; PostQuery] →
  In msg error_messages →
  fire = ServerJs.timer lib id req ∨ fire = MiddlewareJs.timer lib id req →
  written w = [] →
  statusCode w = 200 →
  let h := rows_handler sql msg req param w in
  let u := snd (complete h) in
  queries u = queries w ++ [(js sql, [])]
  ∧ awaits h = 1%nat
  ∧ match answer w (queries w ++ [(js sql, [])]) with
    | Some rows =>
        answered req w u 200 (Json (JArr rows))
          (if send_patched w
           then patched_send req (JsonText.stringify (JArr rows))
           else JsonText.stringify (JArr rows))
    | None =>
        answered req w u 500 (Json (error_body msg))
          (JsonText.stringify (error_body msg))
    end
  ∧ match fires with
    | None => complete_timed fire None h = complete h
    | Some n =>
        if (n <? awaits h)%nat
        then timed_out req w (complete_timed fire fires h)
        else complete_timed fire fires h = complete h
    end.
Proof.
  intros Hid Hm Hf Hw Hs h u.
  pose proof (timer_fires lib id req fire Hid Hf) as Hfire.
  assert (written u ≠ [] →
          match fires with
          | None => complete_timed fire None h = complete h
          | Some n =>
              if (n <? awaits h)%nat
              then timed_out req w (complete_timed fire fires h)
              else complete_timed fire fires h = complete h
          end) as HT.
  { intros Hu. apply timer_cases; [exact Hfire|by apply waits_rows|exact Hu]. }
  revert HT. subst u h. unfold rows_handler, pool_query.
  cbn [complete awaits answer queries set_queries].
  destruct (answer w _) as [rows|]; unfold sync, try_catch.
  - rewrite json_open by done.
    cbn [complete awaits snd statusCode set_queries queries set_written].
    rewrite Hs. intros HT.
    split; [done|]. split; [done|]. split; [by apply answered_with|by apply HT].
  - unfold throw. rewrite reply_json by done. cbn [complete awaits snd]. intros HT.
    split; [done|]. split; [done|].
    split; [by apply answered_error|by apply HT].
Qed.

End ListFacts.

(** **** X5. The seven list endpoints (presentation, featured news,
    services, FAQ, companies, events, news): the route registered for each
    path runs, on a request that reaches it with the response open, exactly
    one query, the fixed text below, without parameters, and answers 200
    with the rows as they came or 500 with the endpoint's message when the
    query fails; nothing of the request reaches the query. Express is
    handed the JSON text of the rows, which the [res.send] of [server.js]
    rewrites when it holds [<!DOCTYPE html>]. When the timer of
    connect-timeout goes off during the query, the client is answered 500
    with [{"error": "Internal server error."}] instead, and the handler
    ends with [ERR_HTTP_HEADERS_SENT] uncaught. The texts are the sources'
    with their runs of white space collapsed. *)
Theorem X5_list_endpoints lib id path sql msg :
  In (id, path, sql, msg)
     [
      (Express.GetPresentacion, "/api/get-presentacion",
       "SELECT id, titulo, qsomos, objetivo, qhacemos, clogramos, descripcion, imagen, img FROM sitio.presentacion",
       "Database error.");
      (Express.GetNoticiasDestacadas, "/api/get-noticias-destacadas",
       "SELECT id, titulo, noticia, imagen, link FROM sitio.noticias WHERE destacar = true ORDER BY id DESC",
       "Database error.");
      (Express.GetServices, "/api/get-services",
       "SELECT id, nombre, descripcion, img, link FROM sitio.productos_servicios ORDER BY id ASC",
       "Database error.");
      (Express.GetPreguntasFrecuentes, "/api/get-preguntas-frecuentes",
       "SELECT id, pregunta, respuesta, fecha FROM sitio.preguntas ORDER BY id ASC",
       "Database error.");
      (Express.GetEmpresas, "/api/get-empresas",
       "SELECT empresa FROM sitio.empresas ORDER BY id",
       "Database error.");
      (Express.GetEventos, "/api/get-eventos",
       "SELECT id, titulo, TO_CHAR(fechai, 'DD/MM/YYYY') as fechai, TO_CHAR(fechaf, 'DD/MM/YYYY') as fechaf, descripcion, link, descarga, lugar, encode(imagen, 'base64') as imagen FROM sitio.eventos ORDER BY fechai DESC;",
       "Error al obtener los eventos");
      (Express.GetNoticias, "/api/get-noticias",
       "SELECT id, titulo, noticia, link, destacar, encode(imagen, 'base64') as imagen, TO_CHAR(fecha, 'DD/MM/YYYY') as fecha FROM sitio.noticias ORDER BY fecha DESC LIMIT 3;",
       "Error al obtener las noticias")
     ]%string →
  ∃ h, In (Express.Route id Express.GET (Express.Exact path) true h)
          (Handlers.api_routes lib)
     ∧ ∀ fire fires req param w,
         fire = ServerJs.timer lib id req ∨ fire = MiddlewareJs.timer lib id req →
         Express.written w = [] →
         Express.statusCode w = 200 →
         let s := h req param w in
         let u := snd (Express.complete s) in
         Express.queries u = Express.queries w ++ [(js sql, [])]
         ∧ Express.awaits s = 1%nat
         ∧ match Express.answer w (Express.queries w ++ [(js sql, [])]) with
           | Some rows =>
               Templating.answered req w u 200 (Express.Json (JArr rows))
                 (if Express.send_patched w
                  then Templating.patched_send req (JsonText.stringify (JArr rows))
                  else JsonText.stringify (JArr rows))
           | None =>
               Templating.answered req w u 500 (Express.Json (Express.error_body msg))
                 (JsonText.stringify (Express.error_body msg))
           end
         ∧ match fires with
           | None => Express.complete_timed fire None s = Express.complete s
           | Some n =>
               if (n <? Express.awaits s)%nat
               then Timing.timed_out req w (Express.complete_timed fire fires s)
               else Express.complete_timed fire fires s = Express.complete s
           end.
Proof.
  intros Hin. exists (Handlers.rows_handler sql msg). cbn [In] in Hin.
  repeat (destruct Hin as [[= <- <- <- <-]|Hin];
          [split;
           [unfold Handlers.api_routes; cbn [In];
            repeat (first [left; reflexivity|right])
           |intros fire fires req param w;
            apply (rows_run lib); cbn; tauto]|]).
  done.
Qed.

(** [GET /api/get-noticias] against the two-item database. *)
Lemma X5_list_endpoints_witness :
  let req := Scenario.request Express.GET "/api/get-noticias" in
  let w := Scenario.start HandlerScenario.news_db in
  ∃ h, In (Express.Route Express.GetNoticias Express.GET
             (Express.Exact "/api/get-noticias") true h)
          (Handlers.api_routes RefLib.ref_lib)
     ∧ Templating.responses req (snd (Express.complete (h req None w)))
       = [(200, JsonText.stringify
                  (JArr [HandlerScenario.noticia_1; HandlerScenario.noticia_2]))].
Proof.
  intros req w.
  destruct (X5_list_endpoints RefLib.ref_lib Express.GetNoticias "/api/get-noticias"
              "SELECT id, titulo, noticia, link, destacar, encode(imagen, 'base64') as imagen, TO_CHAR(fecha, 'DD/MM/YYYY') as fecha FROM sitio.noticias ORDER BY fecha DESC LIMIT 3;"
              "Error al obtener las noticias")
    as (h & Hin & Hrun).
  - do 6 right. left. reflexivity.
  - exists h. split; [exact Hin|].
    destruct (Hrun (ServerJs.timer RefLib.ref_lib Express.GetNoticias req) None
                req None w (or_introl eq_refl) eq_refl eq_refl) as (_ & _ & [_ R] & _).
    exact R.
Defined.

(** *** Company logos *)

Section LogoFacts.
Import Express Handlers.

Lemma lookup_set_field k k' v fs :
  lookup_field k (set_field k' v fs)
  = if bool_decide (k' = k) then Some v else lookup_field k fs.
Proof.
  induction fs as [|[k0 v0] fs IH]; cbn [set_field lookup_field]; [done|].
  destruct (bool_decide_reflect (k0 = k')) as [->|Hne]; cbn [lookup_field].
  - by destruct (bool_decide (k' = k)).
  - rewrite IH. destruct (bool_decide_reflect (k0 = k)) as [->|Hne'];
      [by rewrite bool_decide_eq_false_2 by congruence|done].
Qed.

Lemma encode_logo_fields b64 company c :
  encode_logo b64 company = Ok c →
  (∀ k, k ≠ js "logo" → field k c = field k company)
  ∧ match field (js "logo") company with
    | Some logo =>
        if truthy (Some logo)
        then ∃ s, b64 logo = Ok s ∧ field (js "logo") c = Some (JStr s)
        else field (js "logo") c = Some JNull
    | None => field (js "logo") c = Some JNull
    end.
Proof.
  unfold encode_logo.
  set (fs := match company with JObj fs => fs | _ => [] end).
  assert (∀ k, field k company = lookup_field k fs) as Hf
    by (intros k; subst fs; by destruct company).
  assert (∀ v, (∀ k, k ≠ js "logo" →
                 field k (JObj (set_field (js "logo") v fs)) = field k company)
               ∧ field (js "logo") (JObj (set_field (js "logo") v fs)) = Some v) as Hset.
  { intros v. split.
    - intros k Hk. cbn [field]. rewrite lookup_set_field, Hf.
      by rewrite bool_decide_eq_false_2 by congruence.
    - cbn [field]. rewrite lookup_set_field. by rewrite bool_decide_eq_true_2. }
  destruct (field (js "logo") company) as [logo|].
  - destruct (truthy (Some logo)).
    + destruct (b64 logo) as [t|e] eqn:E; [|done]. intros [= <-].
      destruct (Hset (JStr t)) as [H1 H2]. split; [done|]. by exists t.
    + intros [= <-]. apply Hset.
  - intros [= <-]. apply Hset.
Qed.

End LogoFacts.

(** **** X6. When [/api/get-empresas-details] transcodes the logos, the
    companies keep their number and order and every column other than
    [logo]; a company without logo ([null], absent or otherwise falsy) gets
    [logo: null] and its logo is never converted, any other gets the base64
    text of its logo. *)
Theorem X6_logos_transcoded b64 rows cs :
  Handlers.encode_logos b64 rows = Express.Ok cs →
  length cs = length rows
  ∧ ∀ (i : nat) company c,
      rows !! i = Some company → cs !! i = Some c →
      (∀ k, k ≠ js "logo" → field k c = field k company)
      ∧ match field (js "logo") company with
        | Some logo =>
            if truthy (Some logo)
            then ∃ s, b64 logo = Express.Ok s ∧ field (js "logo") c = Some (JStr s)
            else field (js "logo") c = Some JNull
        | None => field (js "logo") c = Some JNull
        end.
Proof.
  revert cs. induction rows as [|company rows IH]; intros cs; cbn [Handlers.encode_logos].
  - intros [= <-]. split; [done|]. intros i company c Hi. by destruct i.
  - destruct (Handlers.encode_logo b64 company) as [c0|e] eqn:E0; [|done].
    destruct (Handlers.encode_logos b64 rows) as [cs0|e]; [|done].
    intros [= <-]. destruct (IH cs0 eq_refl) as [Hlen Hrows].
    split; [cbn; by rewrite Hlen|].
    intros [|i] company' c; cbn.
    + intros [= <-] [= <-]. by apply encode_logo_fields.
    + apply Hrows.
Qed.

(** Two companies through the reference conversion: ["Man"] becomes
    ["TWFu"]. *)
Lemma X6_logos_transcoded_witness :
  let rows := [HandlerScenario.con_logo; HandlerScenario.sin_logo] in
  let cs := [ JObj [(js "id", JNum 1); (js "logo", JStr (js "TWFu"));
                    (js "empresa", JStr (js "GEOCUBA"))];
              HandlerScenario.sin_logo ] in
  length cs = length rows
  ∧ ∀ (i : nat) company c,
      rows !! i = Some company → cs !! i = Some c →
      (∀ k, k ≠ js "logo" → field k c = field k company)
      ∧ match field (js "logo") company with
        | Some logo =>
            if truthy (Some logo)
            then ∃ s, RefLib.ref_base64 logo = Express.Ok s
                      ∧ field (js "logo") c = Some (JStr s)
            else field (js "logo") c = Some JNull
        | None => field (js "logo") c = Some JNull
        end.
Proof.
  intros rows cs.
  exact (X6_logos_transcoded RefLib.ref_base64 rows cs eq_refl).
Defined.

(** *** [/api/config] *)

Section ConfigFacts.
Import Express Handlers.

Lemma after_colon_split hn pt :
  forallb (λ c, negb (c =? 58)%N) hn = true →
  after_colon (hn ++ 58%N :: pt) = Some pt.
Proof.
  induction hn as [|c hn IH]; cbn; [done|].
  intros [Hc Hhn]%andb_prop. apply negb_true_iff in Hc. rewrite Hc. by apply IH.
Qed.

Lemma after_colon_none h :
  forallb (λ c, negb (c =? 58)%N) h = true → after_colon h = None.
Proof.
  induction h as [|c h IH]; cbn; [done|].
  intros [Hc Hh]%andb_prop. apply negb_true_iff in Hc. rewrite Hc. by apply IH.
Qed.

Lemma before_colon_all pt :
  forallb (λ c, negb (c =? 58)%N) pt = true → before_colon pt = pt.
Proof.
  induction pt as [|c pt IH]; cbn; [done|].
  intros [Hc Hpt]%andb_prop. apply negb_true_iff in Hc. rewrite Hc. by rewrite IH.
Qed.

End ConfigFacts.

(** **** X7. [GET /api/config] answers from the request's [Host] header.
    With [Host: name:port] the reply gives that port, whatever [PORT] the
    process was started with, and [apiUrl] is [http://name:port/api]; with
    a [Host] without colon the port is [process.env.PORT], or [8060] when
    that is unset or empty; without a [Host] header the handler throws
    before replying. The [server] field is [req.hostname]. Express is
    handed the JSON text of the object; the [res.send] that [server.js]
    installs rewrites it first when it holds [<!DOCTYPE html>], which a
    [Host] header can bring in. *)
Theorem X7_config_from_host req param w hn pt :
  Express.written w = [] →
  Express.statusCode w = 200 →
  forallb (λ c, negb (c =? 58)%N) hn = true →
  forallb (λ c, negb (c =? 58)%N) pt = true →
  let r := Express.complete (Handlers.get_config req param w) in
  let sends v :=
    Templating.answered req w (snd r) 200 (Express.Json v)
      (if Express.send_patched w
       then Templating.patched_send req (JsonText.stringify v)
       else JsonText.stringify v) in
  (Express.host req = Some (hn ++ 58%N :: pt) →
   sends (obj [(js "server", Express.hostname req);
               (js "port", Some (JStr pt));
               (js "apiUrl",
                Some (JStr (js "http://" ++ (hn ++ 58%N :: pt) ++ js "/api")))]))
  ∧ (Express.host req = Some hn →
     sends (obj [(js "server", Express.hostname req);
                 (js "port",
                  Some (JStr match Express.env_PORT req with
                             | Some (c :: p) => c :: p
                             | _ => js "8060"
                             end));
                 (js "apiUrl", Some (JStr (js "http://" ++ hn ++ js "/api")))]))
  ∧ (Express.host req = None →
     r = (Express.Throw Express.TypeError, w)).
Proof.
  intros Hw Hs Hhn Hpt r sends. subst sends r.
  unfold Handlers.get_config, Express.sync.
  split; [|split]; intros Hh; rewrite Hh.
  - rewrite (after_colon_split hn pt Hhn), (before_colon_all pt Hpt).
    rewrite json_open by done. apply answered_with.
    cbn [Express.complete snd Express.written Express.set_written]. by rewrite Hs.
  - rewrite (after_colon_none hn Hhn).
    rewrite json_open by done. apply answered_with.
    cbn [Express.complete snd Express.written Express.set_written]. by rewrite Hs.
  - reflexivity.
Qed.

(** [Host: portal:9090] *)
Lemma X7_config_from_host_witness :
  let req := HandlerScenario.config_request (Some (js "portal:9090")) in
  let w := Scenario.start Scenario.empty_db in
  Express.written (snd (Express.complete (Handlers.get_config req None w)))
  = Express.reply 200
      (Express.Json
         (obj [(js "server", Some (JStr (js "portal")));
               (js "port", Some (JStr (js "9090")));
               (js "apiUrl", Some (JStr (js "http://portal:9090/api")))])) w.
Proof.
  intros req w.
  exact (proj1 (proj1 (X7_config_from_host req None w (js "portal") (js "9090")
                         eq_refl eq_refl eq_refl eq_refl) eq_refl)).
Defined.

(** *** The pipeline: load shedding and the catch-all *)

Section GateFacts.
Import Express Libs Handlers Headers.

Lemma tooBusy_sheds req w :
  busy req = true → written w = [] →
  tooBusy req w
  = (Ok Stop,
     set_written
       (reply 503 (Json (error_body "Server is too busy. Please try again later.")) w)
       (set_statusCode 503 w)).
Proof. intros Hb Hw. unfold tooBusy. rewrite Hb. by apply gate_reply. Qed.

Lemma split_before_last {A} (L pre post : list A) x :
  L ++ [x] = pre ++ post → post ≠ [] → ∃ L', post = L' ++ [x] ∧ L = pre ++ L'.
Proof.
  intros E Hne. destruct (exists_last Hne) as (P & y & ->).
  rewrite app_assoc in E. apply app_inj_tail in E as [-> ->]. by exists P.
Qed.

Lemma error_reaches_the_handler decode L pre post e req tr w :
  forallb (λ l, negb (is_error_layer l)) L = true →
  L ++ [UseError ErrorHandler errorHandler] = pre ++ post →
  post ≠ [] → written w = [] →
  dispatch decode post (Some e) req tr w
  = Ended (tr ++ [ErrorHandler])
      (set_written (reply 500 (Json (error_body "Internal server error.")) w)
         (set_statusCode 500 w)).
Proof.
  intros HL E Hne Hw. destruct (split_before_last _ _ _ _ E Hne) as (L' & -> & ->).
  rewrite forallb_app in HL. apply andb_prop in HL as [_ HL'].
  rewrite (dispatch_error_skips _ L' _ _ _ _ _ HL').
  by rewrite (dispatch_caught _ _ _ _ _ _ _ _ _ (errorHandler_replies e req w Hw)).
Qed.

End GateFacts.

(** **** X8. In [server.js] a whitelisted request that arrives while the
    process is too busy is answered 503 with
    [{"error": "Server is too busy. Please try again later."}] right after
    the whitelist gate: the reply carries the two headers that the
    security-headers middleware sets, [X-Frame-Options: SAMEORIGIN] and
    [Content-Security-Policy], the body is not parsed, the rate limiter does
    not count the request, and neither a route handler nor a query runs. *)
Theorem X8_load_shedding lib req w w1 :
  Express.busy req = true →
  Handlers.isAllowed (Express.path req) = true →
  Libs.cors lib req w = (Express.Ok Express.CallNext, w1) →
  Express.written w1 = [] →
  ∃ w', ServerJs.handle lib req w
        = Express.Ended [Express.Cors; Express.SecurityHeaders; Express.Whitelist;
                         Express.TooBusy] w'
      ∧ Express.written w'
        = Express.reply 503
            (Express.Json
               (Express.error_body "Server is too busy. Please try again later.")) w1
      ∧ Headers.get_header (js "x-frame-options") (Express.headers w')
        = Some (js "SAMEORIGIN")
      ∧ is_Some (Headers.get_header (js "content-security-policy") (Express.headers w'))
      ∧ Express.req_body w' = Express.req_body w1
      ∧ Express.queries w' = Express.queries w1
      ∧ Express.hits w' = Express.hits w1.
Proof.
  intros Hb Hp Hc Hw.
  destruct (securityHeaders_passes req w1 Hw) as (w2 & E2 & W2 & S2 & Q2 & H2 & P2).
  pose proof (securityHeaders_sets req w1 Hw) as Hh. rewrite E2 in Hh.
  cbn [snd] in Hh.
  assert (bool_decide (lower (js "Content-Security-Policy") = lower (js "x-frame-options"))
          = false) as N1 by (vm_compute; reflexivity).
  assert (bool_decide (lower (js "X-Frame-Options") = lower (js "x-frame-options"))
          = true) as N2 by (vm_compute; reflexivity).
  assert (bool_decide (lower (js "Content-Security-Policy")
                       = lower (js "content-security-policy"))
          = true) as N3 by (vm_compute; reflexivity).
  assert (Express.req_body w2 = Express.req_body w1) as B2.
  { revert E2. unfold Handlers.securityHeaders, Express.bind, Express.res_setHeader,
      Express.ret. rewrite Hw. cbn [Express.written Express.set_headers]. rewrite Hw.
    by intros [= <-]. }
  unfold ServerJs.handle, ServerJs.app. rewrite <- !app_comm_cons.
  rewrite (dispatch_pass _ _ _ _ _ _ _ _ Hc).
  rewrite (dispatch_pass _ _ _ _ _ _ _ _ E2).
  rewrite (dispatch_pass _ _ _ _ _ _ _ _ (whitelist_passes req w2 Hp)).
  rewrite (dispatch_stop _ _ _ _ _ _ _ _ (tooBusy_sheds req w2 Hb W2)).
  eexists. split; [reflexivity|].
  cbn [Express.written Express.queries Express.hits Express.headers Express.req_body
       Express.set_written Express.set_statusCode].
  rewrite Hh, !get_put_header, N1, N2, N3. unfold Express.reply. rewrite P2.
  repeat split; done.
Qed.

(** A busy moment, through the reference pipeline. *)
Lemma X8_load_shedding_witness :
  let w := Scenario.start Scenario.empty_db in
  let w1 := snd (RefLib.ref_cors HandlerScenario.busy_request w) in
  ∃ w', ServerJs.handle RefLib.ref_lib HandlerScenario.busy_request w
        = Express.Ended [Express.Cors; Express.SecurityHeaders; Express.Whitelist;
                         Express.TooBusy] w'
      ∧ Express.written w'
        = Express.reply 503
            (Express.Json
               (Express.error_body "Server is too busy. Please try again later.")) w1
      ∧ Headers.get_header (js "x-frame-options") (Express.headers w')
        = Some (js "SAMEORIGIN")
      ∧ is_Some (Headers.get_header (js "content-security-policy") (Express.headers w'))
      ∧ Express.req_body w' = Express.req_body w1
      ∧ Express.queries w' = Express.queries w1
      ∧ Express.hits w' = Express.hits w1.
Proof.
  intros w w1.
  apply (X8_load_shedding RefLib.ref_lib HandlerScenario.busy_request w w1).
  - reflexivity.
  - vm_compute. reflexivity.
  - reflexivity.
  - reflexivity.
Defined.

(** **** X9. In both servers, once the router holds an error (a middleware
    called [next(err)] or threw while it ran, as the body parsers, the timer
    of connect-timeout and [/api/config] without [Host] do), at whatever
    point of the pipeline and on a response still open, the request ends the
    same way: every middleware and route still to come is skipped, the
    global error handler alone runs, and the client gets 500 with
    [{"error": "Internal server error."}], whatever the error was. An error
    that a route catches itself never gets to the router, nor does the
    rejection of an [async] handler. *)
Theorem X9_catch_all lib pre post e req tr w :
  ServerJs.app lib = pre ++ post ∨ MiddlewareJs.app lib = pre ++ post →
  post ≠ [] →
  Express.written w = [] →
  Express.dispatch (Libs.decodeURIComponent lib) post (Some e) req tr w
  = Express.Ended (tr ++ [Express.ErrorHandler])
      (Express.set_written
         (Express.reply 500
            (Express.Json (Express.error_body "Internal server error.")) w)
         (Express.set_statusCode 500 w)).
Proof.
  intros [E|E] Hne Hw.
  - unfold ServerJs.app in E. rewrite app_assoc in E.
    by eapply error_reaches_the_handler; [|exact E|..].
  - unfold MiddlewareJs.app in E. rewrite app_assoc in E.
    by eapply error_reaches_the_handler; [|exact E|..].
Qed.

(** A [TypeError] thrown while [server.js] is at its routes. *)
Lemma X9_catch_all_witness :
  let app := ServerJs.app RefLib.ref_lib in
  let w := Scenario.start Scenario.empty_db in
  Express.dispatch RefLib.ref_decode (skipn 14 app) (Some Express.TypeError)
    Scenario.probe [] w
  = Express.Ended [Express.ErrorHandler]
      (Express.set_written
         (Express.reply 500
            (Express.Json (Express.error_body "Internal server error.")) w)
         (Express.set_statusCode 500 w)).
Proof.
  intros app w.
  apply (X9_catch_all RefLib.ref_lib (firstn 14 app) (skipn 14 app)
           Express.TypeError Scenario.probe [] w).
  - left. reflexivity.
  - discriminate.
  - reflexivity.
Defined.

(** *** The whitelist *)

Section WhitelistFacts.
Import Regex WhitelistSpec Handlers.

Lemma nullable_matches r : nullable r = true ↔ matches r [].
Proof.
  split.
  - induction r as [| |d| |a IHa b IHb|a IHa b IHb|a IHa]; cbn; try done.
    + intros _. constructor.
    + intros [H1 H2]%andb_prop. apply (m_seq _ _ [] []); auto.
    + intros [H|H]%orb_prop; [apply m_alt_l|apply m_alt_r]; auto.
    + intros _. constructor.
  - intros H. remember [] as x eqn:E. induction H; cbn; try done.
    + apply app_eq_nil in E as [-> ->]. by rewrite IHmatches1, IHmatches2.
    + by rewrite IHmatches.
    + rewrite IHmatches by done. apply orb_true_r.
Qed.

Lemma matches_void s : ¬ matches Void s.
Proof. intros H. inversion H. Qed.

Lemma deriv_sound r : ∀ c s, matches (deriv c r) s → matches r (c :: s).
Proof.
  induction r as [| |d| |a IHa b IHb|a IHa b IHb|a IHa]; intros c s; cbn.
  - by intros ?%matches_void.
  - by intros ?%matches_void.
  - destruct (N.eqb_spec c d) as [->|]; [|by intros ?%matches_void].
    intros H. inversion H. constructor.
  - destruct (is_line_terminator c) eqn:E; [by intros ?%matches_void|].
    intros H. inversion H. by constructor.
  - assert (∀ s, matches (Seq (deriv c a) b) s → matches (Seq a b) (c :: s)) as Hseq.
    { intros s' H. inversion H as [| | |? ? s1 s2 H1 H2| | | |]; subst.
      apply (m_seq a b (c :: s1) s2); auto. }
    destruct (nullable a) eqn:Na; [|apply Hseq].
    intros H. inversion H; subst; [by apply Hseq|].
    apply (m_seq a b [] (c :: s)); [by apply nullable_matches|auto].
  - intros H. inversion H; subst; [apply m_alt_l|apply m_alt_r]; auto.
  - intros H. inversion H as [| | |? ? s1 s2 H1 H2| | | |]; subst.
    apply (m_star_cons a (c :: s1) s2); auto.
Qed.

Lemma deriv_complete r x : matches r x → ∀ c s, x = c :: s → matches (deriv c r) s.
Proof.
  induction 1 as [|d|d Hd|a b s1 t Ha IHa Hb IHb|a b s1 Ha IHa|a b s1 Hb IHb
                  |a|a s1 t Ha IHa Hs IHs]; intros c s E; cbn; try done.
  - injection E as -> <-. rewrite N.eqb_refl. constructor.
  - injection E as -> <-. rewrite Hd. constructor.
  - destruct s1 as [|c1 s1]; cbn in E.
    + subst t. rewrite (proj2 (nullable_matches a) Ha).
      apply m_alt_r. by apply IHb.
    + injection E as -> <-.
      assert (matches (Seq (deriv c a) b) (s1 ++ t)) as H
        by (constructor; [by apply IHa|done]).
      destruct (nullable a); [by apply m_alt_l|done].
  - apply m_alt_l. by apply IHa.
  - apply m_alt_r. by apply IHb.
  - destruct s1 as [|c1 s1]; cbn in E.
    + by apply IHs.
    + injection E as -> <-. constructor; [by apply IHa|done].
Qed.

(** The matcher decides the denotation. *)
Lemma test_matches s : ∀ r, test r s = true ↔ matches r s.
Proof.
  unfold test. induction s as [|c s IH]; intros r; cbn [fold_left].
  - apply nullable_matches.
  - rewrite IH. split; [apply deriv_sound|]. intros H. by eapply deriv_complete.
Qed.

Lemma matches_literal l x :
  matches (fold_right (λ c r, Seq (Chr c) r) Eps l) x ↔ x = l.
Proof.
  revert x. induction l as [|c l IH]; intros x; cbn [fold_right].
  - split; [by inversion 1|intros ->; constructor].
  - split.
    + intros H. inversion H as [| | |? ? s t Hs Ht| | | |]; subst.
      inversion Hs; subst. apply IH in Ht as ->. done.
    + intros ->. apply (m_seq _ _ [c] l); [constructor|by apply IH].
Qed.

Lemma matches_lit t x : matches (lit t) x ↔ x = js t.
Proof. apply matches_literal. Qed.

Lemma matches_after_lit t r x :
  matches (Seq (lit t) r) x ↔ ∃ y, x = js t ++ y ∧ matches r y.
Proof.
  split.
  - intros H. inversion H as [| | |? ? s u Hs Hu| | | |]; subst.
    apply matches_lit in Hs as ->. by exists u.
  - intros (y & -> & Hy). constructor; [by apply matches_lit|done].
Qed.

Lemma matches_before_lit t r x :
  matches (Seq r (lit t)) x ↔ ∃ y, x = y ++ js t ∧ matches r y.
Proof.
  split.
  - intros H. inversion H as [| | |? ? s u Hs Hu| | | |]; subst.
    apply matches_lit in Hu as ->. by exists s.
  - intros (y & -> & Hy). constructor; [done|by apply matches_lit].
Qed.

Lemma matches_star_dot x :
  matches (Star Dot) x ↔ forallb (λ c, negb (is_line_terminator c)) x = true.
Proof.
  split.
  - intros H. remember (Star Dot) as r eqn:E.
    induction H as [| | | | | | |a s t Ha _ Hs IHs]; try done.
    injection E as ->. inversion Ha as [|?|c Hc| | | | |]; subst. cbn.
    rewrite Hc. cbn. by apply IHs.
  - induction x as [|c x IH]; cbn; [constructor|].
    intros [Hc Hx]%andb_prop. apply negb_true_iff in Hc.
    apply (m_star_cons Dot [c] x); [by constructor|by apply IH].
Qed.

Lemma matches_plus_dot x : matches (Plus Dot) x ↔ free_text x.
Proof.
  unfold Plus, free_text. split.
  - intros H. inversion H as [| | |? ? s t Hs Ht| | | |]; subst.
    inversion Hs as [|?|c Hc| | | | |]; subst. split; [done|]. cbn.
    rewrite Hc. cbn. by apply matches_star_dot.
  - intros [Hne Hx]. destruct x as [|c x]; [done|]. cbn in Hx.
    apply andb_prop in Hx as [Hc Hx]. apply negb_true_iff in Hc.
    apply (m_seq Dot (Star Dot) [c] x); [by constructor|by apply matches_star_dot].
Qed.

Lemma matches_alts_lit ts x :
  matches (alts (List.map lit ts)) x ↔ ∃ t, In t ts ∧ x = js t.
Proof.
  induction ts as [|t ts IH]; cbn.
  - split; [by intros ?%matches_void|by intros (? & [] & _)].
  - split.
    + intros H. inversion H as [| | | |? ? ? Hl|? ? ? Hr| |]; subst.
      * exists t. split; [by left|by apply matches_lit].
      * apply IH in Hr as (u & Hu & ->). exists u. split; [by right|done].
    + intros (u & [<-|Hu] & ->).
      * apply m_alt_l. by apply matches_lit.
      * apply m_alt_r. apply IH. by exists u.
Qed.

Lemma matches_asset x :
  matches (Seq (Plus Dot) (Seq (lit ".") (alts (List.map lit asset_extensions)))) x
  ↔ ∃ y ext, x = y ++ js "." ++ js ext ∧ free_text y ∧ In ext asset_extensions.
Proof.
  split.
  - intros H. inversion H as [| | |? ? s t Hs Ht| | | |]; subst.
    apply matches_plus_dot in Hs. apply matches_after_lit in Ht as (e & -> & He).
    apply (matches_alts_lit asset_extensions) in He as (ext & Hext & ->).
    by exists s, ext.
  - intros (y & ext & -> & Hy & Hext). constructor; [by apply matches_plus_dot|].
    apply matches_after_lit. exists (js ext). split; [done|].
    apply (matches_alts_lit asset_extensions). by exists ext.
Qed.

(** The whitelist, pattern by pattern. *)
Lemma isAllowed_admitted p : isAllowed p = true ↔ admitted p.
Proof.
  unfold isAllowed. rewrite existsb_exists. unfold admitted. split.
  - intros (r & Hr & Ht). apply test_matches in Ht.
    unfold allowedPatterns in Hr. cbn [In] in Hr.
    destruct Hr as [<-|[<-|[<-|[<-|[<-|[<-|[<-|[<-|[<-|[<-|[<-|[]]]]]]]]]]]].
    1-6: left; apply matches_lit in Ht; eexists; split; [|exact Ht]; cbn; tauto.
    + right; left. apply matches_after_lit in Ht as (x & -> & Hx).
      exists x. split; [done|by apply matches_plus_dot].
    + right; right; left. apply matches_after_lit in Ht as (x & -> & Hx).
      apply matches_asset in Hx as (y & ext & -> & Hy & Hext). by exists y, ext.
    + right; right; right; left. apply matches_after_lit in Ht as (x & -> & Hx).
      apply matches_before_lit in Hx as (y & -> & Hy).
      exists y. split; [done|by apply matches_plus_dot].
    + right; right; right; right. apply matches_after_lit in Ht as (x & -> & Hx).
      apply matches_before_lit in Hx as (y & -> & Hy).
      exists y. split; [done|by apply matches_plus_dot].
    + left. apply matches_lit in Ht. eexists; split; [|exact Ht]; cbn; tauto.
  - intros [(page & Hpage & ->)|[(x & -> & Hx)|[(x & ext & -> & Hx & Hext)
            |[(x & -> & Hx)|(x & -> & Hx)]]]].
    + exists (lit page). split; [|by apply test_matches, matches_lit].
      unfold pages in Hpage. cbn [In] in Hpage. unfold allowedPatterns. cbn [In].
      destruct Hpage as [<-|[<-|[<-|[<-|[<-|[<-|[<-|[]]]]]]]]; tauto.
    + eexists. split; [unfold allowedPatterns; do 6 right; left; reflexivity|].
      apply test_matches, matches_after_lit. exists x.
      split; [done|by apply matches_plus_dot].
    + eexists. split; [unfold allowedPatterns; do 7 right; left; reflexivity|].
      apply test_matches, matches_after_lit. eexists. split; [reflexivity|].
      apply matches_asset. by exists x, ext.
    + eexists. split; [unfold allowedPatterns; do 8 right; left; reflexivity|].
      apply test_matches, matches_after_lit. eexists. split; [reflexivity|].
      apply matches_before_lit. exists x. split; [done|by apply matches_plus_dot].
    + eexists. split; [unfold allowedPatterns; do 9 right; left; reflexivity|].
      apply test_matches, matches_after_lit. eexists. split; [reflexivity|].
      apply matches_before_lit. exists x. split; [done|by apply matches_plus_dot].
Qed.

End WhitelistFacts.

(** **** X10. The whitelist of [server.js] admits exactly: the seven paths
    listed by name; [/api/x]; [/assets/x.ext] with [ext] one of twelve
    extensions; [/js/x.js]; [/css/x.css]; where [x] is any non-empty text
    without line terminators, slashes and dot-dot segments included. The
    gate thus checks the first segment and the extension, not where the
    path leads. *)
Theorem X10_whitelist_admits_exactly p :
  Handlers.isAllowed p = true ↔ WhitelistSpec.admitted p.
Proof. apply isAllowed_admitted. Qed.

(** **** X11. Among the paths with a single segment (no slash after the
    first), the whitelist admits the seven listed by name and nothing else:
    [/server.js], [/package.json], [/.env] and every other file at the root
    are refused. *)
Theorem X11_root_files name :
  forallb (λ c, negb (c =? 47)%N) name = true →
  Handlers.isAllowed (47%N :: name) = true
  ↔ In (47%N :: name) (List.map js WhitelistSpec.pages).
Proof.
  intros Hname. rewrite isAllowed_admitted. split.
  - intros [(page & Hpage & ->)|[(x & E & _)|[(x & ext & E & _)|[(x & E & _)|(x & E & _)]]]].
    + by apply in_map.
    + injection E as ->. cbn in Hname. discriminate.
    + injection E as ->. cbn in Hname. rewrite !andb_false_r in Hname. discriminate.
    + injection E as ->. cbn in Hname. discriminate.
    + injection E as ->. cbn in Hname. discriminate.
  - intros (page & E & Hpage)%in_map_iff. left. by exists page.
Qed.

(** [/package.json] *)
Lemma X11_root_files_witness :
  Handlers.isAllowed (js "/package.json") = true
  ↔ In (js "/package.json") (List.map js WhitelistSpec.pages).
Proof. exact (X11_root_files (js "package.json") eq_refl). Defined.

(** **** X12. The router of Express matches [/api] case-insensitively and
    without the slash, the whitelist does not: of the paths under the
    [/api] mount point, the whitelist admits only those that begin with
    [/api/] in lower case and go on, so [/API/get-noticias] and [/api] are
    refused before the rate limiter or any route sees them. *)
Theorem X12_api_paths_are_lower_case p :
  Express.mount_matches "/api/" p = true →
  Handlers.isAllowed p = true →
  ∃ x, p = js "/api/" ++ x ∧ WhitelistSpec.free_text x.
Proof.
  intros Hm [(page & Hpage & ->)|[(x & -> & Hx)|[(x & ext & -> & _)
                |[(x & -> & _)|(x & -> & _)]]]]%isAllowed_admitted.
  - unfold WhitelistSpec.pages in Hpage. cbn [In] in Hpage.
    destruct Hpage as [<-|[<-|[<-|[<-|[<-|[<-|[<-|[]]]]]]]]; vm_compute in Hm;
      discriminate.
  - by exists x.
  - vm_compute in Hm. discriminate.
  - vm_compute in Hm. discriminate.
  - vm_compute in Hm. discriminate.
Qed.

(** [/api/get-noticias] is under the mount point and admitted. *)
Lemma X12_api_paths_are_lower_case_witness :
  ∃ x, js "/api/get-noticias" = js "/api/" ++ x ∧ WhitelistSpec.free_text x.
Proof.
  apply (X12_api_paths_are_lower_case (js "/api/get-noticias")).
  - vm_compute. reflexivity.
  - vm_compute. reflexivity.
Defined.

(** *** The whitelist cannot be bypassed *)

Section BypassFacts.
Import Express Libs Handlers.

Lemma dispatch_use decode id h rest req tr w :
  dispatch decode (Use id None h :: rest) None req tr w
  = match h req w with
    | (Ok CallNext, w') => dispatch decode rest None req (tr ++ [id]) w'
    | (Ok Stop, w') => Ended (tr ++ [id]) w'
    | (Throw e, w') => dispatch decode rest (Some e) req (tr ++ [id]) w'
    end.
Proof. reflexivity. Qed.

(** Once an error is raised, the only stage still to run is the error
    handler. *)
Lemma error_mode_trace decode L e req tr w :
  forallb (λ l, negb (is_error_layer l)) L = true →
  trace_of (dispatch decode (L ++ [UseError ErrorHandler errorHandler]) (Some e) req tr w)
  = tr ++ [ErrorHandler].
Proof.
  intros HL. rewrite (dispatch_error_skips _ L _ _ _ _ _ HL). cbn [dispatch].
  by destruct (errorHandler e req w) as [[[]|e'] w'].
Qed.

Lemma no_route_in l :
  forallb (λ s, negb (is_route s)) l = true → ∀ s, In s l → is_route s = false.
Proof.
  intros H s Hs. apply negb_true_iff. by apply (proj1 (forallb_forall _ _) H).
Qed.

Lemma gate_reply_flow c b w :
  (∃ w', (res_status c;; res_write b;; ret Stop) w = (Ok Stop, w'))
  ∨ (∃ e w', (res_status c;; res_write b;; ret Stop) w = (Throw e, w')).
Proof.
  unfold bind, res_status, res_write, ret. cbn [written set_statusCode].
  destruct (written w); [left|right]; by eauto.
Qed.

Lemma whitelist_stops req w :
  isAllowed (path req) = false →
  (∃ w', whitelist req w = (Ok Stop, w')) ∨ (∃ e w', whitelist req w = (Throw e, w')).
Proof. intros Hp. unfold whitelist. rewrite Hp. apply gate_reply_flow. Qed.

Lemma tooBusy_stops req w :
  busy req = true →
  (∃ w', tooBusy req w = (Ok Stop, w')) ∨ (∃ e w', tooBusy req w = (Throw e, w')).
Proof. intros Hb. unfold tooBusy. rewrite Hb. apply gate_reply_flow. Qed.

Lemma whitelist_flow req w :
  (∃ w', whitelist req w = (Ok Stop, w')) ∨ (∃ e w', whitelist req w = (Throw e, w'))
  ∨ (isAllowed (path req) = true ∧ whitelist req w = (Ok CallNext, w)).
Proof.
  destruct (isAllowed (path req)) eqn:Hp.
  - right; right. split; [done|]. unfold whitelist. by rewrite Hp.
  - destruct (whitelist_stops req w Hp) as [H|H]; [by left|right; by left].
Qed.

Lemma gates_hold lib req w :
  isAllowed (path req) = false ∨ busy req = true →
  forallb (λ s, negb (is_route s)) (trace_of (ServerJs.handle lib req w)) = true.
Proof.
  intros Hgate.
  unfold ServerJs.handle, ServerJs.app. rewrite <- !app_comm_cons.
  assert (∀ L e tr w',
            forallb (λ l, negb (is_error_layer l)) L = true →
            forallb (λ s, negb (is_route s)) tr = true →
            forallb (λ s, negb (is_route s))
              (trace_of
                 (dispatch (decodeURIComponent lib)
                    (L ++ [UseError ErrorHandler errorHandler])
                    (Some e) req tr w')) = true) as Herr.
  { intros L e tr w' HL Htr. rewrite error_mode_trace by done.
    rewrite forallb_app, Htr. reflexivity. }
  rewrite dispatch_use.
  destruct (cors lib req w) as [[[]|e] w1];
    [|reflexivity|rewrite !app_comm_cons, app_assoc; by apply Herr].
  rewrite dispatch_use.
  destruct (securityHeaders req w1) as [[[]|e] w2];
    [|reflexivity|rewrite !app_comm_cons, app_assoc; by apply Herr].
  rewrite dispatch_use.
  destruct (whitelist_flow req w2) as [(w3 & ->)|[(e & w3 & ->)|[Hp ->]]];
    [reflexivity|rewrite !app_comm_cons, app_assoc; by apply Herr|].
  destruct Hgate as [Hn|Hb]; [congruence|].
  rewrite dispatch_use.
  destruct (tooBusy_stops req w2 Hb) as [(w3 & ->)|(e & w3 & ->)];
    [reflexivity|rewrite !app_comm_cons, app_assoc; by apply Herr].
Qed.

End BypassFacts.

(** **** X13. In [server.js] no route handler runs for a request whose path
    is outside the whitelist, nor for one that arrives while the process is
    too busy, whatever the libraries before and after the gates do (hand
    the request on, answer it themselves, or fail). *)
Theorem X13_no_route_past_the_gates lib req w s :
  Handlers.isAllowed (Express.path req) = false ∨ Express.busy req = true →
  In s (Express.trace_of (ServerJs.handle lib req w)) →
  Express.is_route s = false.
Proof. intros Hgate. apply no_route_in. by apply gates_hold. Qed.

(** [GET /server.js]: the last stage to run is the whitelist gate. *)
Lemma X13_no_route_past_the_gates_witness :
  Express.is_route Express.Whitelist = false.
Proof.
  apply (X13_no_route_past_the_gates RefLib.ref_lib Scenario.probe
           (Scenario.start Scenario.empty_db) Express.Whitelist).
  - left. vm_compute. reflexivity.
  - vm_compute. tauto.
Defined.

(** *** [formatTextContent] *)

Section TextFacts.
Import TextUtils.

Lemma line_feeds_cons c s :
  line_feeds (c :: s) = ((if (c =? 10)%N then 1 else 0) + line_feeds s)%nat.
Proof.
  unfold line_feeds. cbn [List.filter]. rewrite (N.eqb_sym 10 c).
  by destruct (c =? 10)%N.
Qed.

Lemma single_line_feeds s : single_line s = true ↔ line_feeds s = 0%nat.
Proof.
  induction s as [|c s IH]; [done|].
  rewrite line_feeds_cons. cbn [single_line forallb]. fold (single_line s).
  rewrite andb_true_iff, IH. destruct (c =? 10)%N; cbn; intuition lia.
Qed.

Lemma line_feeds_take_space s : (line_feeds (take_space s) ≤ line_feeds s)%nat.
Proof.
  induction s as [|c s IH]; [done|]. cbn [take_space].
  destruct (is_space c); rewrite ?line_feeds_cons; [lia|cbn; lia].
Qed.

Lemma upto_last_lf_zero r : upto_last_lf r = 0%nat ↔ line_feeds r = 0%nat.
Proof.
  induction r as [|c r IH]; [done|].
  rewrite line_feeds_cons. cbn [upto_last_lf].
  destruct (upto_last_lf r) as [|n]; destruct (c =? 10)%N; cbn; intuition lia.
Qed.

Lemma upto_last_lf_cut r n :
  upto_last_lf r = S n →
  (S n ≤ length r)%nat ∧ single_line (skipn (S n) r) = true.
Proof.
  revert n. induction r as [|c r IH]; intros n; [done|]. cbn [upto_last_lf].
  destruct (upto_last_lf r) as [|m] eqn:E.
  - destruct (c =? 10)%N; [|done]. intros [= <-]. cbn. split; [lia|].
    apply single_line_feeds. by apply upto_last_lf_zero.
  - intros [= <-]. destruct (IH m eq_refl) as [Hlen Hs]. cbn [length]. split; [lia|].
    exact Hs.
Qed.

Lemma split_go_skip s : ∀ k cur,
  (k ≤ length s)%nat → split_go s k cur = split_go (skipn k s) 0 cur.
Proof.
  induction s as [|c s IH]; intros [|k] cur Hk; cbn in Hk; try done; try lia.
  cbn [split_go skipn]. apply IH. lia.
Qed.

Lemma split_go_few_feeds s : ∀ cur,
  (line_feeds s ≤ 1)%nat → split_go s 0 cur = [rev cur ++ s].
Proof.
  induction s as [|c s IH]; intros cur Hs.
  - cbn. by rewrite app_nil_r.
  - rewrite line_feeds_cons in Hs. cbn [split_go].
    destruct (c =? 10)%N.
    + assert (upto_last_lf (take_space s) = 0%nat) as ->.
      { apply upto_last_lf_zero. pose proof (line_feeds_take_space s). lia. }
      rewrite IH by lia. cbn [rev]. by rewrite <- app_assoc.
    + rewrite IH by lia. cbn [rev]. by rewrite <- app_assoc.
Qed.

Lemma take_space_all s : forallb is_space s = true → take_space s = s.
Proof.
  induction s as [|c s IH]; [done|]. cbn. intros [Hc Hs]%andb_prop.
  rewrite Hc. by rewrite IH.
Qed.

Lemma forallb_skipn {A} (f : A → bool) k : ∀ s,
  forallb f s = true → forallb f (skipn k s) = true.
Proof.
  induction k as [|k IH]; intros [|c s]; cbn; try done.
  intros [_ Hs]%andb_prop. by apply IH.
Qed.

Lemma trim_start_blank s : forallb is_space s = true → trim_start s = [].
Proof.
  induction s as [|c s IH]; [done|]. cbn. intros [Hc Hs]%andb_prop.
  rewrite Hc. by apply IH.
Qed.

Lemma trim_blank_text s : forallb is_space s = true → trim s = [].
Proof. intros Hs. unfold trim. by rewrite (trim_start_blank s Hs). Qed.

Lemma split_go_blank s : ∀ cur,
  forallb is_space s = true → (2 ≤ line_feeds s)%nat →
  ∃ a b, split_go s 0 cur = [rev cur ++ a; b]
         ∧ forallb is_space a = true ∧ forallb is_space b = true.
Proof.
  induction s as [|c s IH]; intros cur Hs Hn; [cbn in Hn; lia|].
  cbn in Hs. apply andb_prop in Hs as [Hc Hs].
  rewrite line_feeds_cons in Hn. cbn [split_go]. destruct (c =? 10)%N.
  - rewrite take_space_all by done.
    destruct (upto_last_lf s) as [|n] eqn:E;
      [apply upto_last_lf_zero in E; cbn in Hn; lia|].
    destruct (upto_last_lf_cut s n E) as [Hlen Hcut].
    rewrite split_go_skip by done.
    rewrite split_go_few_feeds
      by (apply single_line_feeds in Hcut; rewrite Hcut; lia).
    exists [], (skipn (S n) s). rewrite app_nil_r. cbn [rev app].
    split; [done|split; [done|by apply forallb_skipn]].
  - destruct (IH (c :: cur) Hs ltac:(cbn in Hn; lia)) as (a & b & E & Ha & Hb).
    exists (c :: a), b. rewrite E. cbn [rev]. rewrite <- app_assoc. cbn [app].
    split; [done|split; [|done]]. cbn. by rewrite Hc.
Qed.

Lemma split_go_line p : ∀ s cur,
  single_line p = true → split_go (p ++ s) 0 cur = split_go s 0 (rev p ++ cur).
Proof.
  induction p as [|c p IH]; intros s cur; [done|].
  cbn [single_line forallb]. intros [Hc Hp]%andb_prop. apply negb_true_iff in Hc.
  cbn [app split_go]. rewrite Hc. rewrite IH by done. cbn [rev].
  by rewrite <- app_assoc.
Qed.

Lemma join_starts p ps :
  starts_with_text p = true → take_space (join_paragraphs (p :: ps)) = [].
Proof.
  destruct p as [|c p]; [done|]. cbn [starts_with_text]. intros Hc.
  apply negb_true_iff in Hc. destruct ps; cbn; by rewrite Hc.
Qed.

Lemma split_join ps : ∀ cur p,
  forallb (λ p, single_line p && starts_with_text p) (p :: ps) = true →
  split_go (join_paragraphs (p :: ps)) 0 cur = (rev cur ++ p) :: ps.
Proof.
  induction ps as [|q ps IH]; intros cur p; cbn [forallb].
  - intros [[Hl _]%andb_prop _]%andb_prop. cbn [join_paragraphs].
    apply split_go_few_feeds. apply single_line_feeds in Hl. lia.
  - intros [[Hl _]%andb_prop Hrest]%andb_prop.
    change (join_paragraphs (p :: q :: ps))
      with (p ++ 10%N :: 10%N :: join_paragraphs (q :: ps)).
    rewrite split_go_line by done. cbn [split_go N.eqb Pos.eqb take_space is_space].
    assert (is_space 10 = true) as -> by reflexivity.
    pose proof Hrest as Hq. cbn [forallb] in Hq.
    apply andb_prop in Hq as [[_ Hq]%andb_prop _].
    rewrite (join_starts q ps Hq). cbn [upto_last_lf N.eqb Pos.eqb].
    rewrite rev_app_distr, rev_involutive.
    f_equal. by rewrite (IH [] q Hrest).
Qed.

Lemma filter_keeps {A} (f : A → bool) l :
  forallb f l = true → List.filter f l = l.
Proof.
  induction l as [|x l IH]; [done|]. cbn. intros [Hx Hl]%andb_prop.
  rewrite Hx. by rewrite IH.
Qed.

Lemma trim_start_text s : starts_with_text s = true → trim_start s = s.
Proof.
  destruct s as [|c s]; [done|]. cbn. intros Hc. apply negb_true_iff in Hc.
  by rewrite Hc.
Qed.

Lemma trim_start_snoc s c : is_space c = false → trim_start (s ++ [c]) ≠ [].
Proof.
  intros Hc. induction s as [|d s IH]; cbn; [by rewrite Hc|].
  by destruct (is_space d).
Qed.

Lemma trim_text s : starts_with_text s = true → trim s ≠ [].
Proof.
  intros Hs. unfold trim. rewrite (trim_start_text s Hs).
  destruct s as [|c s]; [done|]. cbn [starts_with_text] in Hs.
  apply negb_true_iff in Hs. cbn [rev].
  intros E. apply (f_equal (@rev N)) in E. rewrite rev_involutive in E.
  exact (trim_start_snoc (rev s) c Hs E).
Qed.

End TextFacts.

(** **** X14. [formatTextContent] on a text made of white space only gives
    the empty string when the text is empty or holds two line feeds or more
    (an empty line, whose two sides are dropped as blank), and the empty
    element [<p ></p>] otherwise. *)
Theorem X14_blank_text text :
  forallb is_space text = true →
  TextUtils.formatTextContent text
  = if bool_decide (text = []) || (2 <=? TextUtils.line_feeds text)%nat
    then [] else js "<p ></p>".
Proof.
  intros Hs. destruct text as [|c t]; [done|].
  rewrite bool_decide_eq_false_2 by done. cbn [orb].
  unfold TextUtils.formatTextContent, TextUtils.split_paragraphs.
  destruct (Nat.leb_spec 2 (TextUtils.line_feeds (c :: t))) as [Hn|Hn].
  - destruct (split_go_blank (c :: t) [] Hs Hn) as (a & b & -> & Ha & Hb).
    cbn [rev app length Nat.ltb Nat.leb List.filter].
    by rewrite (trim_blank_text a Ha), (trim_blank_text b Hb).
  - rewrite split_go_few_feeds by lia. cbn [length Nat.ltb Nat.leb].
    unfold TextUtils.paragraph. by rewrite (trim_blank_text _ Hs).
Qed.

(** A single space. *)
Lemma X14_blank_text_witness :
  TextUtils.formatTextContent [32%N] = js "<p ></p>".
Proof. exact (X14_blank_text [32%N] eq_refl). Defined.

(** **** X15. A text with at most one line feed is never split: whatever it
    holds, [formatTextContent] returns one [<p>] element around the trimmed
    text, unescaped, with the justify style exactly when the trimmed text
    is longer than 100 code units. *)
Theorem X15_single_paragraph text :
  text ≠ [] →
  (TextUtils.line_feeds text ≤ 1)%nat →
  TextUtils.formatTextContent text
  = js "<p "
    ++ (if (100 <? length (trim text))%nat then TextUtils.justify else [])
    ++ js ">" ++ trim text ++ js "</p>".
Proof.
  intros Hne Hn. destruct text as [|c t]; [done|].
  unfold TextUtils.formatTextContent, TextUtils.split_paragraphs.
  by rewrite split_go_few_feeds.
Qed.

(** Two lines, one line feed between them. *)
Lemma X15_single_paragraph_witness :
  TextUtils.formatTextContent (js " GEOCUBA" ++ [10%N] ++ js "Mapas ")
  = js "<p >GEOCUBA" ++ [10%N] ++ js "Mapas</p>".
Proof.
  exact (X15_single_paragraph (js " GEOCUBA" ++ [10%N] ++ js "Mapas ")
           ltac:(discriminate) ltac:(vm_compute; lia)).
Defined.

(** **** X16. Paragraphs that hold no line feed and begin with a visible
    character, joined by empty lines, come back one [<p>] element each, in
    their order: splitting undoes the joining, and no paragraph is dropped
    or merged. *)
Theorem X16_one_element_per_paragraph ps :
  forallb (λ p, TextUtils.single_line p && TextUtils.starts_with_text p) ps = true →
  TextUtils.split_paragraphs (TextUtils.join_paragraphs ps)
  = match ps with [] => [[]] | _ => ps end
  ∧ TextUtils.formatTextContent (TextUtils.join_paragraphs ps)
    = concat (List.map TextUtils.paragraph ps).
Proof.
  intros Hps. destruct ps as [|p ps]; [done|].
  pose proof (split_join ps [] p Hps) as E. cbn [rev app] in E.
  split; [exact E|].
  unfold TextUtils.formatTextContent. fold (TextUtils.split_paragraphs
    (TextUtils.join_paragraphs (p :: ps))).
  unfold TextUtils.split_paragraphs. rewrite E.
  assert (TextUtils.join_paragraphs (p :: ps) ≠ []) as Hne.
  { cbn [forallb] in Hps. apply andb_prop in Hps as [[_ Hp]%andb_prop _].
    destruct p as [|c p]; [done|]. by destruct ps. }
  destruct (TextUtils.join_paragraphs (p :: ps)) as [|c t] eqn:J; [done|].
  destruct ps as [|q ps].
  - cbn [length Nat.ltb Nat.leb List.map concat]. rewrite app_nil_r.
    cbn [TextUtils.join_paragraphs] in J. by rewrite J.
  - cbn [length Nat.ltb Nat.leb]. do 2 f_equal. apply filter_keeps.
    apply List.forallb_forall. intros x Hx.
    pose proof (proj1 (List.forallb_forall _ _) Hps x Hx) as [_ Hx']%andb_prop.
    by rewrite bool_decide_eq_false_2 by (by apply trim_text).
Qed.

(** Three short paragraphs. *)
Lemma X16_one_element_per_paragraph_witness :
  let ps := [js "Quienes somos"; js "Que hacemos "; js "Contacto"] in
  TextUtils.split_paragraphs (TextUtils.join_paragraphs ps) = ps
  ∧ TextUtils.formatTextContent (TextUtils.join_paragraphs ps)
    = js "<p >Quienes somos</p><p >Que hacemos</p><p >Contacto</p>".
Proof.
  intros ps. exact (X16_one_element_per_paragraph ps eq_refl).
Defined.
